(** * brandkit: the SVG security scanner, sanitizer and report generator

    A shallow embedding of package [svg/security] (scan.go, sanitize.go,
    report.go) together with the part of Go's [regexp] and [unicode/utf8]
    packages that the pattern catalog relies on.

    Go strings are byte sequences; they are modelled by [string]
    (a list of 8-bit [ascii]).  Go's [int] counters only ever count the
    elements of slices held in memory, so they are modelled by [Z]
    without wrap-around. *)

From Stdlib Require Import ZArith NArith Ascii String List Bool Lia.
From Stdlib Require Import DecimalString.
From stdpp Require Import base option countable gmap.
Import ListNotations.

Local Open Scope N_scope.

(** The double-quote character, and strings built with it. *)
Definition dq : ascii := "034"%char.
Definition sdq : string := String dq EmptyString.
Definition nl : ascii := "010"%char.
Definition snl : string := String nl EmptyString.

(* ================================================================== *)
(** ** unicode/utf8: decoding a rune at the head of a byte sequence    *)
(* ================================================================== *)

Module Utf8.

Definition RuneError : N := 0xFFFD.
Definition RuneSelf : N := 0x80.

(** Lead-byte table of the decoder: for a lead byte, the size of the
    encoding and the accepted range of the second byte. *)
Definition first (s0 : N) : option (nat * N * N) :=
  if s0 <? 0xC2 then None
  else if s0 <=? 0xDF then Some (2%nat, 0x80, 0xBF)
  else if s0 =? 0xE0 then Some (3%nat, 0xA0, 0xBF)
  else if s0 <=? 0xEC then Some (3%nat, 0x80, 0xBF)
  else if s0 =? 0xED then Some (3%nat, 0x80, 0x9F)
  else if s0 <=? 0xEF then Some (3%nat, 0x80, 0xBF)
  else if s0 =? 0xF0 then Some (4%nat, 0x90, 0xBF)
  else if s0 <=? 0xF3 then Some (4%nat, 0x80, 0xBF)
  else if s0 =? 0xF4 then Some (4%nat, 0x80, 0x8F)
  else None.

Definition outside (lo hi b : N) : bool := (b <? lo) || (hi <? b).

(** [DecodeRuneInString s]: the first rune of [s] and its width in
    bytes; an invalid or short encoding is [RuneError] of width 1. *)
Definition DecodeRuneInString (s : list ascii) : N * nat :=
  match s with
  | [] => (RuneError, 0%nat)
  | b0 :: t =>
    let s0 := N_of_ascii b0 in
    if s0 <? RuneSelf then (s0, 1%nat) else
    match first s0 with
    | None => (RuneError, 1%nat)
    | Some (sz, lo, hi) =>
      if (length s <? sz)%nat then (RuneError, 1%nat) else
      match t with
      | [] => (RuneError, 1%nat)
      | b1 :: t1 =>
        let s1 := N_of_ascii b1 in
        if outside lo hi s1 then (RuneError, 1%nat) else
        if (sz <=? 2)%nat
        then (N.lor (N.shiftl (N.land s0 0x1F) 6) (N.land s1 0x3F), 2%nat)
        else
        match t1 with
        | [] => (RuneError, 1%nat)
        | b2 :: t2 =>
          let s2 := N_of_ascii b2 in
          if outside 0x80 0xBF s2 then (RuneError, 1%nat) else
          if (sz <=? 3)%nat
          then (N.lor (N.shiftl (N.land s0 0x0F) 12)
                 (N.lor (N.shiftl (N.land s1 0x3F) 6) (N.land s2 0x3F)), 3%nat)
          else
          match t2 with
          | [] => (RuneError, 1%nat)
          | b3 :: _ =>
            let s3 := N_of_ascii b3 in
            if outside 0x80 0xBF s3 then (RuneError, 1%nat) else
            (N.lor (N.shiftl (N.land s0 0x07) 18)
               (N.lor (N.shiftl (N.land s1 0x3F) 12)
                  (N.lor (N.shiftl (N.land s2 0x3F) 6) (N.land s3 0x3F))), 4%nat)
          end
        end
      end
    end
  end.

(** A decoded position of the subject: the rune and the bytes it spans. *)
Record tok : Type := Tok { rune : N; raw : list ascii }.

(** The subject cut into runes from its first byte on, the way the
    matcher steps through it.  [skip] counts the continuation bytes
    already covered by the rune decoded last. *)
Fixpoint runes_from (skip : nat) (s : list ascii) : list tok :=
  match s with
  | [] => []
  | b :: rest =>
    match skip with
    | S k => runes_from k rest
    | O =>
      let '(r, w) := DecodeRuneInString s in
      Tok r (firstn w s) :: runes_from (Nat.pred w) rest
    end
  end.

Definition runes (s : string) : list tok := runes_from 0 (list_ascii_of_string s).

Definition bytes (ts : list tok) : list ascii := flat_map raw ts.

Definition text (ts : list tok) : string := string_of_list_ascii (bytes ts).

End Utf8.

(* ================================================================== *)
(** ** regexp: leftmost-first matching, FindAllString, ReplaceAllString *)
(* ================================================================== *)

Module Regexp.
Import Utf8.

(** A character class is a predicate on runes. *)
Definition class : Type := N -> bool.

(** The operators the pattern catalog is written with.  Repetition is
    only ever applied to a single character class in the catalog, so
    [Star] and [StarLazy] take a class. *)
Inductive regex : Type :=
| Eps
| Cls (c : class)
| Cat (r1 r2 : regex)
| Alt (r1 r2 : regex)
| Star (c : class)
| StarLazy (c : class)
| Group (n : nat) (r : regex)
| WordB.

(** Submatches: group number and the runes it captured, newest first. *)
Definition caps : Type := list (nat * list tok).

(** A continuation receives whether the rune just before the current
    position is a word character, the rest of the subject and the
    submatches so far. *)
Definition outcome : Type := option (list tok * caps).
Definition cont : Type := bool -> list tok -> caps -> outcome.

Definition between (lo hi r : N) : bool := (lo <=? r) && (r <=? hi).

(** syntax.IsWordChar: ASCII letters, digits and underscore. *)
Definition IsWordChar (r : N) : bool :=
  between 65 90 r || between 97 122 r || between 48 57 r || (r =? 95).

Definition next_is_word (s : list tok) : bool :=
  match s with
  | [] => false
  | t :: _ => IsWordChar (rune t)
  end.

Definition orelse (a : outcome) (b : outcome) : outcome :=
  match a with
  | Some x => Some x
  | None => b
  end.

(** [c*]: as many as possible first. *)
Fixpoint star_greedy (c : class) (k : cont) (prev : bool) (s : list tok) (cs : caps)
  : outcome :=
  match s with
  | t :: s' =>
    if c (rune t)
    then orelse (star_greedy c k (IsWordChar (rune t)) s' cs) (k prev s cs)
    else k prev s cs
  | [] => k prev s cs
  end.

(** [c*?]: as few as possible first. *)
Fixpoint star_lazy (c : class) (k : cont) (prev : bool) (s : list tok) (cs : caps)
  : outcome :=
  match s with
  | t :: s' =>
    if c (rune t)
    then orelse (k prev s cs) (star_lazy c k (IsWordChar (rune t)) s' cs)
    else k prev s cs
  | [] => k prev s cs
  end.

(** The backtracking search whose first success is the leftmost-first
    match at the current position. *)
Fixpoint run (r : regex) (k : cont) (prev : bool) (s : list tok) (cs : caps)
  : outcome :=
  match r with
  | Eps => k prev s cs
  | Cls c =>
    match s with
    | t :: s' => if c (rune t) then k (IsWordChar (rune t)) s' cs else None
    | [] => None
    end
  | Cat r1 r2 => run r1 (run r2 k) prev s cs
  | Alt r1 r2 => orelse (run r1 k prev s cs) (run r2 k prev s cs)
  | Star c => star_greedy c k prev s cs
  | StarLazy c => star_lazy c k prev s cs
  | Group n r1 =>
    run r1 (fun p' s' cs' =>
              k p' s' ((n, firstn (length s - length s') s) :: cs')) prev s cs
  | WordB => if xorb prev (next_is_word s) then k prev s cs else None
  end.

Definition accept : cont := fun _ s cs => Some (s, cs).

(** The match that starts exactly at the head of [s]. *)
Definition match_here (re : regex) (prev : bool) (s : list tok) : outcome :=
  run re accept prev s [].

(** One successive match: its runes and its submatches. *)
Record hit : Type := Hit { matched : list tok; subs : caps }.

(** The subject split by the successive non-overlapping matches. *)
Inductive piece : Type :=
| Gap (t : tok)
| Found (h : hit).

(** The loop shared by FindAll and ReplaceAll, one subject position per
    step.  [skip] counts the runes still covered by the match found
    last; [after] tells that a match ended exactly here, in which case
    an empty match is not delivered. *)
Fixpoint pieces (re : regex) (prev : bool) (skip : nat) (after : bool)
  (s : list tok) : list piece :=
  match skip with
  | S k =>
    match s with
    | [] => []
    | t :: s' => pieces re (IsWordChar (rune t)) k true s'
    end
  | O =>
    match match_here re prev s with
    | None =>
      match s with
      | [] => []
      | t :: s' => Gap t :: pieces re (IsWordChar (rune t)) 0 false s'
      end
    | Some (rest, cs) =>
      let n := (length s - length rest)%nat in
      match n with
      | O =>
        (if after then [] else [Found (Hit [] cs)]) ++
        match s with
        | [] => []
        | t :: s' => Gap t :: pieces re (IsWordChar (rune t)) 0 false s'
        end
      | S k =>
        Found (Hit (firstn n s) cs) ::
        match s with
        | [] => []
        | t :: s' => pieces re (IsWordChar (rune t)) k true s'
        end
      end
    end
  end.

Definition split_matches (re : regex) (src : string) : list piece :=
  pieces re false 0 false (runes src).

Definition hits (ps : list piece) : list hit :=
  flat_map (fun p => match p with Gap _ => [] | Found h => [h] end) ps.

(** re.FindAllString(src, -1) *)
Definition FindAllString (re : regex) (src : string) : list string :=
  map (fun h => text (matched h)) (hits (split_matches re src)).

(** A replacement template as Expand reads it: literal text and
    references to submatches ([Ref 0] is the whole match). *)
Inductive titem : Type :=
| Lit (s : string)
| Ref (n : nat).

Fixpoint lookup_sub (n : nat) (cs : caps) : list tok :=
  match cs with
  | [] => []
  | (m, ts) :: cs' => if Nat.eqb m n then ts else lookup_sub n cs'
  end.

Definition expand (template : list titem) (h : hit) : list ascii :=
  flat_map (fun it =>
              match it with
              | Lit s => list_ascii_of_string s
              | Ref O => bytes (matched h)
              | Ref n => bytes (lookup_sub n (subs h))
              end) template.

(** re.ReplaceAllString(src, repl) *)
Definition ReplaceAllString (re : regex) (src : string) (repl : list titem) : string :=
  string_of_list_ascii
    (flat_map (fun p =>
                 match p with
                 | Gap t => raw t
                 | Found h => expand repl h
                 end) (split_matches re src)).

End Regexp.

(* ================================================================== *)
(** ** Writing patterns: classes and literals under the (?i) flag      *)
(* ================================================================== *)

Module Syntax.
Import Utf8 Regexp.

Definition code (a : ascii) : N := N_of_ascii a.

Definition oneof (s : string) : class :=
  fun r => existsb (fun a => r =? code a) (list_ascii_of_string s).

(** Perl class \s: tab, newline, form feed, carriage return, space. *)
Definition space : class :=
  fun r => (r =? 9) || (r =? 10) || (r =? 12) || (r =? 13) || (r =? 32).

Definition quotes : string := String dq (String "'"%char EmptyString).

(** [.] without the s flag stops at a newline; with it, it does not. *)
Definition dot : class := fun r => negb (r =? 10).
Definition dot_s : class := fun _ => true.

Definition neg (c : class) : class := fun r => negb (c r).
Definition either (c1 c2 : class) : class := fun r => c1 r || c2 r.

Definition is_lower (c : N) : bool := between 97 122 c.
Definition is_upper (c : N) : bool := between 65 90 c.

(** A literal character under (?i): the runes of its simple-folding
    orbit.  Besides the two ASCII cases, s also folds to U+017F (long
    s) and k to U+212A (Kelvin sign). *)
Definition fold (a : ascii) : class :=
  fun r =>
    let c := code a in
    let lo := if is_upper c then c + 32 else c in
    if is_lower lo
    then (r =? lo) || (r =? lo - 32)
         || ((lo =? 115) && (r =? 0x17F)) || ((lo =? 107) && (r =? 0x212A))
    else r =? c.

(** [a-z] under (?i). *)
Definition az_fold : class :=
  fun r => is_lower r || is_upper r || (r =? 0x17F) || (r =? 0x212A).

Fixpoint lit_i (s : string) : regex :=
  match s with
  | EmptyString => Eps
  | String a s' => Cat (Cls (fold a)) (lit_i s')
  end.

Definition seq (rs : list regex) : regex := fold_right Cat Eps rs.
Definition plus (c : class) : regex := Cat (Cls c) (Star c).
Definition opt (r : regex) : regex := Alt r Eps.

End Syntax.

(* ================================================================== *)
(** ** Package security: threats, results and the detection catalog    *)
(* ================================================================== *)

Module Security.
Import Utf8 Regexp Syntax.

Local Open Scope string_scope.

(** ThreatType is an int.  The seven declared constants come first, in
    iota order; [ThreatOther] stands for the remaining values of the
    type, which the scanner and the sanitizer never produce but which a
    caller can put into a Threat (ThreatType(99), say).  [ThreatOther k]
    is the int 7 + k when k is not negative, and the int k when it is,
    so that every int is exactly one value of the model. *)
Inductive ThreatType : Type :=
| ThreatScript
| ThreatEventHandler
| ThreatExternalRef
| ThreatAnimation
| ThreatStyleBlock
| ThreatLink
| ThreatXMLEntity
| ThreatOther (k : Z).

(** The int behind a ThreatType. *)
Definition ThreatType_iota (t : ThreatType) : Z :=
  match t with
  | ThreatScript => 0
  | ThreatEventHandler => 1
  | ThreatExternalRef => 2
  | ThreatAnimation => 3
  | ThreatStyleBlock => 4
  | ThreatLink => 5
  | ThreatXMLEntity => 6
  | ThreatOther k => if (k <? 0)%Z then k else (k + 7)%Z
  end%Z.

(** The conversion ThreatType(n). *)
Definition ThreatType_of_iota (n : Z) : ThreatType :=
  if (n =? 0)%Z then ThreatScript
  else if (n =? 1)%Z then ThreatEventHandler
  else if (n =? 2)%Z then ThreatExternalRef
  else if (n =? 3)%Z then ThreatAnimation
  else if (n =? 4)%Z then ThreatStyleBlock
  else if (n =? 5)%Z then ThreatLink
  else if (n =? 6)%Z then ThreatXMLEntity
  else ThreatOther (if (n <? 0)%Z then n else (n - 7)%Z).

#[global] Instance ThreatType_eq_dec : EqDecision ThreatType.
Proof. solve_decision. Defined.

#[global] Instance ThreatType_countable : Countable ThreatType.
Proof.
  refine (inj_countable' ThreatType_iota ThreatType_of_iota _).
  intros [| | | | | | |k]; try reflexivity.
  unfold ThreatType_iota, ThreatType_of_iota.
  destruct (Z.ltb_spec k 0) as [Hk|Hk];
    repeat match goal with
           | |- context [(?a =? ?b)%Z] => destruct (Z.eqb_spec a b); [lia|]
           end.
  - destruct (Z.ltb_spec k 0); [reflexivity | lia].
  - destruct (Z.ltb_spec (k + 7) 0); [lia | f_equal; lia].
Defined.

(** The seven declared constants. *)
Definition all_types : list ThreatType :=
  [ThreatScript; ThreatEventHandler; ThreatExternalRef; ThreatAnimation;
   ThreatStyleBlock; ThreatLink; ThreatXMLEntity].

(** ThreatType.Severity *)
Definition Severity (t : ThreatType) : string :=
  match t with
  | ThreatScript | ThreatEventHandler => "critical"
  | ThreatExternalRef | ThreatXMLEntity => "high"
  | ThreatAnimation | ThreatLink => "medium"
  | ThreatStyleBlock => "low"
  | ThreatOther _ => "info"
  end.

Record Threat : Type := mkThreat {
  Type_ : ThreatType;
  Description : string;
  Match : string
}.

(** Result.  [ThreatCounts] is a Go map: [None] is the nil map, which
    reads as empty and panics when written. *)
Record Result : Type := mkResult {
  FilePath : string;
  IsSecure : bool;
  Threats : list Threat;
  ThreatCounts : option (gmap ThreatType Z);
  Errors : list string
}.

(** Reading [m[t]] from a Go map: the zero value when the key is absent. *)
Definition count_of (m : option (gmap ThreatType Z)) (t : ThreatType) : Z :=
  match m with
  | None => 0%Z
  | Some g => default 0%Z (g !! t)
  end.

(** Result.IsSuccess *)
Definition IsSuccess (r : Result) : bool :=
  IsSecure r && (length (Errors r) =? 0)%nat.

Record threatPattern : Type := mkPattern {
  pattern : regex;
  desc : string;
  threatType : ThreatType;
  matchLength : Z
}.

(** The catalog below gives each pattern of the source as a term of
    [regex].  Every pattern of the source starts with the flag (?i), so
    every literal is written with [lit_i].  In the comments that quote
    the source patterns, DQ stands for the double-quote character.

    Pieces shared by several patterns: *)
Definition quote : regex := Cls (oneof quotes).
Definition not_gt : class := neg (oneof ">").
Definition not_quote : class := neg (oneof quotes).
Definition eq_sign : regex := seq [Star space; lit_i "="; Star space].
(** https?:// *)
Definition http_scheme : regex := seq [lit_i "http"; opt (lit_i "s"); lit_i "://"].
(** \s+on[a-z]+\s*=\s* *)
Definition on_attr : regex :=
  seq [plus space; lit_i "on"; plus az_fold; eq_sign].

(** scriptPatterns:
      (?i)<script\b[^>]*>.*?</script>
      (?i)<script\b[^>]*/>
      (?i)javascript\s*:
      (?i)vbscript\s*:
      (?i)data\s*:\s*text/html *)
Definition scriptPatterns : list threatPattern :=
  [ mkPattern (seq [lit_i "<script"; WordB; Star not_gt; lit_i ">";
                    StarLazy dot; lit_i "</script>"])
      "script element" ThreatScript 100;
    mkPattern (seq [lit_i "<script"; WordB; Star not_gt; lit_i "/>"])
      "self-closing script element" ThreatScript 50;
    mkPattern (seq [lit_i "javascript"; Star space; lit_i ":"])
      "javascript: URI" ThreatScript 30;
    mkPattern (seq [lit_i "vbscript"; Star space; lit_i ":"])
      "vbscript: URI" ThreatScript 30;
    mkPattern (seq [lit_i "data"; Star space; lit_i ":"; Star space; lit_i "text/html"])
      "data:text/html URI" ThreatScript 50 ].

(** eventHandlerPatterns:
      (?i)\s+on[a-z]+\s*=\s*DQ[^DQ]*DQ
      (?i)\s+on[a-z]+\s*=\s*'[^']*'
      (?i)\s+on[a-z]+\s*=\s*[^\s>DQ']+ *)
Definition eventHandlerPatterns : list threatPattern :=
  [ mkPattern (seq [on_attr; Cls (oneof sdq); Star (neg (oneof sdq)); Cls (oneof sdq)])
      "event handler attribute" ThreatEventHandler 80;
    mkPattern (seq [on_attr; Cls (oneof "'"); Star (neg (oneof "'")); Cls (oneof "'")])
      "event handler attribute" ThreatEventHandler 80;
    mkPattern (seq [on_attr; plus (neg (either space (oneof (">" ++ quotes))))])
      "unquoted event handler attribute" ThreatEventHandler 60 ].

(** externalRefPatterns:
      (?i)href\s*=\s*[DQ']https?://[^DQ']+[DQ']
      (?i)xlink:href\s*=\s*[DQ']https?://[^DQ']+[DQ']
      (?i)<foreignObject\b
      (?i)url\s*\(\s*[DQ']?https?://[^)DQ']+
      (?i)<use[^>]+xlink:href\s*=\s*[DQ']https?://
      (?i)<use[^>]+href\s*=\s*[DQ']https?:// *)
Definition externalRefPatterns : list threatPattern :=
  [ mkPattern (seq [lit_i "href"; eq_sign; quote; http_scheme; plus not_quote; quote])
      "external href" ThreatExternalRef 100;
    mkPattern (seq [lit_i "xlink:href"; eq_sign; quote; http_scheme; plus not_quote; quote])
      "external xlink:href" ThreatExternalRef 100;
    mkPattern (seq [lit_i "<foreignObject"; WordB])
      "foreignObject element" ThreatExternalRef 50;
    mkPattern (seq [lit_i "url"; Star space; lit_i "("; Star space; opt quote;
                    http_scheme; plus (neg (oneof (")" ++ quotes)))])
      "external URL in style" ThreatExternalRef 100;
    mkPattern (seq [lit_i "<use"; plus not_gt; lit_i "xlink:href"; eq_sign; quote;
                    http_scheme])
      "external use reference" ThreatExternalRef 100;
    mkPattern (seq [lit_i "<use"; plus not_gt; lit_i "href"; eq_sign; quote;
                    http_scheme])
      "external use reference" ThreatExternalRef 100 ].

(** animationPatterns:
      (?i)<animate\b
      (?i)<animateTransform\b
      (?i)<animateMotion\b
      (?i)<animateColor\b
      (?i)<set\b[^>]*\b(attributeName|to)\s*= *)
Definition animationPatterns : list threatPattern :=
  [ mkPattern (seq [lit_i "<animate"; WordB]) "animate element" ThreatAnimation 50;
    mkPattern (seq [lit_i "<animateTransform"; WordB])
      "animateTransform element" ThreatAnimation 50;
    mkPattern (seq [lit_i "<animateMotion"; WordB])
      "animateMotion element" ThreatAnimation 50;
    mkPattern (seq [lit_i "<animateColor"; WordB])
      "animateColor element" ThreatAnimation 50;
    mkPattern (seq [lit_i "<set"; WordB; Star not_gt; WordB;
                    Group 1 (Alt (lit_i "attributeName") (lit_i "to"));
                    Star space; lit_i "="])
      "set element" ThreatAnimation 50 ].

(** styleBlockPatterns: (?i)<style\b *)
Definition styleBlockPatterns : list threatPattern :=
  [ mkPattern (seq [lit_i "<style"; WordB]) "style element" ThreatStyleBlock 50 ].

(** linkPatterns: (?i)<a\b[^>]*\bhref\s*= *)
Definition linkPatterns : list threatPattern :=
  [ mkPattern (seq [lit_i "<a"; WordB; Star not_gt; WordB; lit_i "href";
                    Star space; lit_i "="])
      "anchor element with href" ThreatLink 80 ].

(** xmlEntityPatterns: (?i)<!DOCTYPE\b and (?i)<!ENTITY\b *)
Definition xmlEntityPatterns : list threatPattern :=
  [ mkPattern (seq [lit_i "<!DOCTYPE"; WordB]) "DOCTYPE declaration" ThreatXMLEntity 50;
    mkPattern (seq [lit_i "<!ENTITY"; WordB]) "ENTITY declaration" ThreatXMLEntity 50 ].

Inductive ScanLevel : Type :=
| ScanLevelStrict
| ScanLevelStandard.

Definition is_strict (l : ScanLevel) : bool :=
  match l with
  | ScanLevelStrict => true
  | ScanLevelStandard => false
  end.

Definition patternsForLevel (level : ScanLevel) : list threatPattern :=
  let all := [] in
  let all := (all ++ scriptPatterns)%list in
  let all := (all ++ eventHandlerPatterns)%list in
  let all := (all ++ externalRefPatterns)%list in
  let all := (all ++ xmlEntityPatterns)%list in
  if is_strict level
  then (((all ++ animationPatterns) ++ styleBlockPatterns) ++ linkPatterns)%list
  else all.

(** Byte length of a Go string, and the slice [s[:n]]. *)
Definition len (s : string) : Z := Z.of_nat (String.length s).
Definition prefix (n : Z) (s : string) : string := String.substring 0 (Z.to_nat n) s.

Definition truncate (maxLen : Z) (m : string) : string :=
  if (len m >? maxLen)%Z then prefix maxLen m ++ "..." else m.

(** The threat the scanner records for one match of pattern [p]. *)
Definition threat_of (p : threatPattern) (m : string) : Threat :=
  let maxLen := matchLength p in
  let maxLen := if (maxLen =? 0)%Z then 50%Z else maxLen in
  mkThreat (threatType p) (desc p) (truncate maxLen m).

(** The body of the inner loop: append the threat, bump its counter,
    clear the secure flag.  Writing to a nil map panics ([None]). *)
Definition record_threat (r : Result) (t : Threat) : option Result :=
  match ThreatCounts r with
  | None => None
  | Some g =>
    Some (mkResult (FilePath r) false (Threats r ++ [t])%list
            (Some (<[Type_ t := (default 0 (g !! Type_ t) + 1)%Z]> g))
            (Errors r))
  end.

(** Running a loop body that may panic over a slice. *)
Fixpoint for_each {A S : Type} (body : S -> A -> option S) (xs : list A) (st : S)
  : option S :=
  match xs with
  | [] => Some st
  | x :: xs' =>
    match body st x with
    | None => None
    | Some st' => for_each body xs' st'
    end
  end.

Definition fresh_result (path : string) : Result :=
  mkResult path true [] (Some ∅) [].

Definition scan_pattern (content : string) (r : Result) (p : threatPattern)
  : option Result :=
  for_each (fun r m => record_threat r (threat_of p m))
           (FindAllString (pattern p) content) r.

(** ScanContentWithLevel.  [result = None] is the nil pointer, for
    which a fresh Result is made. *)
Definition ScanContentWithLevel (content : string) (result : option Result)
  (level : ScanLevel) : option Result :=
  let result := match result with
                | None => fresh_result ""
                | Some r => r
                end in
  for_each (scan_pattern content) (patternsForLevel level) result.

Definition ScanContent (content : string) (result : option Result) : option Result :=
  ScanContentWithLevel content result ScanLevelStrict.

(* ---------------------------------------------------------------- *)
(** *** sanitize.go                                                    *)
(* ---------------------------------------------------------------- *)

Record SanitizeOptions : Type := mkOptions {
  RemoveScripts : bool;
  RemoveEventHandlers : bool;
  RemoveExternalRefs : bool;
  RemoveAll : bool
}.

Definition DefaultSanitizeOptions : SanitizeOptions :=
  mkOptions false false false true.

Record sanitizePattern : Type := mkSanitize {
  spattern : regex;
  replacement : list titem;
  sdesc : string;
  sthreatType : ThreatType
}.

(** The replacement templates of the catalog, as Expand reads them:
    the empty template; $1#DQ, that is submatch 1, a hash sign and a
    double quote; and ${1}none${2}. *)
Definition delete_match : list titem := [].
Definition keep_attr_hash : list titem := [Ref 1; Lit ("#" ++ sdq)].
Definition keep_url_none : list titem := [Ref 1; Lit "none"; Ref 2].

(** The group that opens an attribute: (href\s*=\s*[DQ']) *)
Definition href_open (name : string) : regex :=
  Group 1 (seq [lit_i name; eq_sign; quote]).

(** scriptRemovalPatterns, with their templates:
      (?is)<script\b[^>]*>.*?</script>                  empty
      (?i)<script\b[^>]*/>                              empty
      (?i)(href\s*=\s*[DQ'])javascript:[^DQ']*[DQ']      $1#DQ
      (?i)(href\s*=\s*[DQ'])vbscript:[^DQ']*[DQ']        $1#DQ
      (?i)(href\s*=\s*[DQ'])data:\s*text/html[^DQ']*[DQ']  $1#DQ *)
Definition scriptRemovalPatterns : list sanitizePattern :=
  [ mkSanitize (seq [lit_i "<script"; WordB; Star not_gt; lit_i ">";
                     StarLazy dot_s; lit_i "</script>"])
      delete_match "script element" ThreatScript;
    mkSanitize (seq [lit_i "<script"; WordB; Star not_gt; lit_i "/>"])
      delete_match "self-closing script element" ThreatScript;
    mkSanitize (seq [href_open "href"; lit_i "javascript:"; Star not_quote; quote])
      keep_attr_hash "javascript: URI in href" ThreatScript;
    mkSanitize (seq [href_open "href"; lit_i "vbscript:"; Star not_quote; quote])
      keep_attr_hash "vbscript: URI in href" ThreatScript;
    mkSanitize (seq [href_open "href"; lit_i "data:"; Star space; lit_i "text/html";
                     Star not_quote; quote])
      keep_attr_hash "data:text/html URI" ThreatScript ].

(** eventHandlerRemovalPatterns: the three patterns of
    eventHandlerPatterns, each with the empty template. *)
Definition eventHandlerRemovalPatterns : list sanitizePattern :=
  [ mkSanitize (seq [on_attr; Cls (oneof sdq); Star (neg (oneof sdq)); Cls (oneof sdq)])
      delete_match "event handler attribute" ThreatEventHandler;
    mkSanitize (seq [on_attr; Cls (oneof "'"); Star (neg (oneof "'")); Cls (oneof "'")])
      delete_match "event handler attribute" ThreatEventHandler;
    mkSanitize (seq [on_attr; plus (neg (either space (oneof (">" ++ quotes))))])
      delete_match "unquoted event handler attribute" ThreatEventHandler ].

(** xmlEntityRemovalPatterns: (?i)<!DOCTYPE[^>]*> and
    (?i)<!ENTITY[^>]*>, each with the empty template. *)
Definition xmlEntityRemovalPatterns : list sanitizePattern :=
  [ mkSanitize (seq [lit_i "<!DOCTYPE"; Star not_gt; lit_i ">"])
      delete_match "DOCTYPE declaration" ThreatXMLEntity;
    mkSanitize (seq [lit_i "<!ENTITY"; Star not_gt; lit_i ">"])
      delete_match "ENTITY declaration" ThreatXMLEntity ].

(** externalRefRemovalPatterns, with their templates:
      (?i)(href\s*=\s*[DQ'])https?://[^DQ']*[DQ']          $1#DQ
      (?i)(xlink:href\s*=\s*[DQ'])https?://[^DQ']*[DQ']    $1#DQ
      (?is)<foreignObject\b[^>]*>.*?</foreignObject>      empty
      (?i)<foreignObject\b[^>]*/>                         empty
      (?i)(url\s*\(\s*[DQ']?)https?://[^)DQ']+([)DQ']?)   ${1}none${2} *)
Definition externalRefRemovalPatterns : list sanitizePattern :=
  [ mkSanitize (seq [href_open "href"; http_scheme; Star not_quote; quote])
      keep_attr_hash "external href" ThreatExternalRef;
    mkSanitize (seq [href_open "xlink:href"; http_scheme; Star not_quote; quote])
      keep_attr_hash "external xlink:href" ThreatExternalRef;
    mkSanitize (seq [lit_i "<foreignObject"; WordB; Star not_gt; lit_i ">";
                     StarLazy dot_s; lit_i "</foreignObject>"])
      delete_match "foreignObject element" ThreatExternalRef;
    mkSanitize (seq [lit_i "<foreignObject"; WordB; Star not_gt; lit_i "/>"])
      delete_match "self-closing foreignObject" ThreatExternalRef;
    mkSanitize (seq [Group 1 (seq [lit_i "url"; Star space; lit_i "("; Star space;
                                   opt quote]);
                     http_scheme; plus (neg (oneof (")" ++ quotes)));
                     Group 2 (opt (Cls (oneof (")" ++ quotes))))])
      keep_url_none "external URL in style" ThreatExternalRef ].

(** The rules selected by the options, in the order they are applied. *)
Definition selected_patterns (opts : SanitizeOptions) : list sanitizePattern :=
  let patterns := [] in
  let patterns := if RemoveAll opts || RemoveScripts opts
                  then (patterns ++ scriptRemovalPatterns)%list else patterns in
  let patterns := if RemoveAll opts || RemoveEventHandlers opts
                  then (patterns ++ eventHandlerRemovalPatterns)%list else patterns in
  let patterns := if RemoveAll opts || RemoveExternalRefs opts
                  then (patterns ++ externalRefRemovalPatterns)%list else patterns in
  let patterns := if RemoveAll opts
                  then (patterns ++ xmlEntityRemovalPatterns)%list else patterns in
  patterns.

Definition removed_threat (p : sanitizePattern) (m : string) : Threat :=
  mkThreat (sthreatType p) (sdesc p) (truncate 80 m).

(** One turn of the loop over the selected rules: record the matches
    found in the current text, then rewrite it. *)
Definition apply_pattern (st : string * list Threat) (p : sanitizePattern)
  : string * list Threat :=
  let '(sanitized, threats) := st in
  let matches := FindAllString (spattern p) sanitized in
  let threats := (threats ++ map (removed_threat p) matches)%list in
  (ReplaceAllString (spattern p) sanitized (replacement p), threats).

(** SanitizeContent *)
Definition SanitizeContent (content : string) (opts : SanitizeOptions)
  : string * list Threat :=
  fold_left apply_pattern (selected_patterns opts) (content, []).

(** The [Sanitized] flag that Sanitize derives from a pass. *)
Definition Sanitized (content : string) (opts : SanitizeOptions) : bool :=
  (0 <? length (snd (SanitizeContent content opts)))%nat.

(* ---------------------------------------------------------------- *)
(** *** Scanning files and directories                                 *)
(* ---------------------------------------------------------------- *)

(** A Go result pair (value, error): the value, or the error message. *)
Inductive res (A : Type) : Type :=
| Ok (a : A)
| Err (msg : string).
Arguments Ok {A} a.
Arguments Err {A} msg.

Record DirEntry : Type := mkEntry { Name : string; EntryIsDir : bool }.

(** One call that filepath.WalkDir makes to its callback. *)
Record visit : Type := mkVisit {
  vpath : string;
  ventry : DirEntry;
  verr : option string
}.

Definition lower_byte (a : ascii) : ascii :=
  let c := N_of_ascii a in
  if is_upper c then ascii_of_N (c + 32) else a.

(** strings.ToLower on the ASCII letters.  The only use is the test
    for the four-byte ASCII suffix below, which the lowering of other
    runes cannot affect. *)
Fixpoint ToLower (s : string) : string :=
  match s with
  | EmptyString => EmptyString
  | String a s' => String (lower_byte a) (ToLower s')
  end.

Definition HasSuffix (s suffix : string) : bool :=
  let n := String.length s in
  let m := String.length suffix in
  (m <=? n)%nat && String.eqb (String.substring (n - m) m s) suffix.

(** svg.IsSVGFile *)
Definition IsSVGFile (path : string) : bool := HasSuffix (ToLower path) ".svg".

Section Files.

(** The file system the scanner runs against. *)
Variable ReadFile : string -> res string.
Variable ReadDir : string -> res (list DirEntry).
Variable WalkDir : string -> list visit.
Variable Join : string -> string -> string.

(** svg.ListSVGFiles *)
Definition ListSVGFiles (dirPath : string) : res (list string) :=
  match ReadDir dirPath with
  | Err e => Err e
  | Ok entries =>
    Ok (flat_map (fun entry =>
                    if EntryIsDir entry then []
                    else if negb (HasSuffix (ToLower (Name entry)) ".svg") then []
                    else [Join dirPath (Name entry)]) entries)
  end.

(** The callback of svg.ListSVGFilesRecursive run over the visits: the
    first visit that carries an error ends the walk with that error. *)
Fixpoint walk_collect (vs : list visit) (files : list string) : res (list string) :=
  match vs with
  | [] => Ok files
  | v :: vs' =>
    match verr v with
    | Some e => Err e
    | None =>
      if negb (EntryIsDir (ventry v)) && HasSuffix (ToLower (Name (ventry v))) ".svg"
      then walk_collect vs' (files ++ [vpath v])%list
      else walk_collect vs' files
    end
  end.

Definition ListSVGFilesRecursive (dirPath : string) : res (list string) :=
  walk_collect (WalkDir dirPath) [].

(** SVGWithLevel.  The outer option is [None] when the call panics. *)
Definition SVGWithLevel (filePath : string) (level : ScanLevel)
  : option (res Result) :=
  let result := mkResult filePath true [] (Some ∅) [] in
  match ReadFile filePath with
  | Err e => Some (Err ("failed to read file: " ++ e))
  | Ok content =>
    match ScanContentWithLevel content (Some result) level with
    | None => None
    | Some r => Some (Ok r)
    end
  end.

Definition SVG (filePath : string) : option (res Result) :=
  SVGWithLevel filePath ScanLevelStrict.

(** The Result that Directory makes for a file it could not read: only
    three fields are set, the threat list and the map stay nil. *)
Definition unread_plain (filePath err : string) : Result :=
  mkResult filePath false [] None [err].

(** The one DirectoryRecursive makes: the map is allocated. *)
Definition unread_with_map (filePath err : string) : Result :=
  mkResult filePath false [] (Some ∅) [err].

Definition scan_file (unread : string -> string -> Result)
  (results : list Result) (filePath : string) : option (list Result) :=
  match SVG filePath with
  | None => None
  | Some (Err e) => Some (results ++ [unread filePath e])%list
  | Some (Ok result) => Some (results ++ [result])%list
  end.

(** Directory *)
Definition Directory (dirPath : string) : option (res (list Result)) :=
  match ListSVGFiles dirPath with
  | Err e => Some (Err ("failed to read directory: " ++ e))
  | Ok files =>
    match for_each (scan_file unread_plain) files [] with
    | None => None
    | Some results => Some (Ok results)
    end
  end.

(** DirectoryRecursive *)
Definition DirectoryRecursive (dirPath : string) : option (res (list Result)) :=
  match ListSVGFilesRecursive dirPath with
  | Err e => Some (Err ("failed to read directory: " ++ e))
  | Ok files =>
    match for_each (scan_file unread_with_map) files [] with
    | None => None
    | Some results => Some (Ok results)
    end
  end.

End Files.

End Security.

(* ================================================================== *)
(** ** report.go: the team report generated from scan results          *)
(* ================================================================== *)

Module Report.
Import Security.

Local Open Scope string_scope.

(** Status is a string type with four declared values. *)
Definition Status : Type := string.
Definition StatusGo : Status := "GO".
Definition StatusNoGo : Status := "NO-GO".
Definition StatusWarn : Status := "WARN".
Definition StatusSkip : Status := "SKIP".

Record KVPair : Type := mkKV {
  Key : string;
  Value : string;
  KVPair_Icon : string
}.

Record ListItem : Type := mkItem {
  Text : string;
  ListItem_Icon : string;
  ListItem_Status : Status
}.

Record ContentBlock : Type := mkBlock {
  ContentBlock_Type : string;
  ContentBlock_Title : string;
  Pairs : list KVPair;
  Items : list ListItem;
  Content : string
}.

Record TaskResult : Type := mkTask {
  TaskResult_ID : string;
  TaskResult_Status : Status;
  TaskResult_Severity : string;
  Detail : string
}.

Record TeamSection : Type := mkSection {
  TeamSection_ID : string;
  TeamSection_Name : string;
  TeamSection_Status : Status;
  Verdict : string;
  Tasks : list TaskResult;
  ContentBlocks : list ContentBlock
}.

Record TeamReport : Type := mkReport {
  Schema : string;
  Title : string;
  Project : string;
  Version : string;
  Phase : string;
  SummaryBlocks : list ContentBlock;
  Teams : list TeamSection;
  FooterBlocks : list ContentBlock;
  TeamReport_Status : Status;
  GeneratedAt : string;
  GeneratedBy : string
}.

(** formatInt: the decimal numeral of an int. *)
Definition formatInt (n : Z) : string := NilZero.string_of_int (Z.to_int n).

(** The tallies of the first loop of GenerateReport. *)
Record tally : Type := mkTally {
  secureFiles : Z;
  threatsByType : gmap ThreatType Z;
  allThreats : list Threat
}.

Definition tally_threat (st : tally) (t : Threat) : tally :=
  mkTally (secureFiles st)
    (<[Type_ t := (default 0 (threatsByType st !! Type_ t) + 1)%Z]> (threatsByType st))
    (allThreats st ++ [t])%list.

Definition tally_result (st : tally) (r : Result) : tally :=
  let st := if IsSuccess r
            then mkTally (secureFiles st + 1)%Z (threatsByType st) (allThreats st)
            else st in
  fold_left tally_threat (Threats r) st.

Definition count_totals (results : list Result) : tally :=
  fold_left tally_result results (mkTally 0 ∅ []).

(** Reading threatsByType[t]. *)
Definition by_type (st : tally) (t : ThreatType) : Z :=
  default 0%Z (threatsByType st !! t).

Definition overall_status (st : tally) : Status :=
  if (0 <? length (allThreats st))%nat then
    let hasCritical := (by_type st ThreatScript >? 0)%Z
                       || (by_type st ThreatEventHandler >? 0)%Z in
    let hasHigh := (by_type st ThreatExternalRef >? 0)%Z
                   || (by_type st ThreatXMLEntity >? 0)%Z in
    if hasCritical || hasHigh then StatusNoGo else StatusWarn
  else StatusGo.

Record category : Type := mkCategory {
  cat_id : string;
  cat_name : string;
  cat_threatType : ThreatType;
  cat_severity : string
}.

Definition threatCategories : list category :=
  [ mkCategory "script-detection" "Script Detection" ThreatScript "critical";
    mkCategory "event-handler-detection" "Event Handler Detection"
      ThreatEventHandler "critical";
    mkCategory "external-ref-detection" "External Reference Detection"
      ThreatExternalRef "high";
    mkCategory "xml-entity-detection" "XML Entity Detection" ThreatXMLEntity "high";
    mkCategory "animation-detection" "Animation Detection" ThreatAnimation "medium";
    mkCategory "style-block-detection" "Style Block Detection" ThreatStyleBlock "low";
    mkCategory "link-detection" "Link Detection" ThreatLink "medium" ].

Definition red : string := "🔴".
Definition yellow : string := "🟡".
Definition green : string := "🟢".

Definition finding_icon (severity : string) : string :=
  if String.eqb severity "medium" then yellow
  else if String.eqb severity "low" then green
  else red.

(** The findings of one category, over all results in order. *)
Definition findings (results : list Result) (cat : category) : list ListItem :=
  flat_map (fun r =>
    flat_map (fun t =>
      if decide (Type_ t = cat_threatType cat)
      then [mkItem (FilePath r ++ ": " ++ Description t)
              (finding_icon (cat_severity cat)) EmptyString]
      else []) (Threats r)) results.

Definition limit_items (items : list ListItem) : list ListItem :=
  if (10 <? length items)%nat
  then (firstn 10 items ++ [mkItem "and more..." "..." EmptyString])%list
  else items.

Definition section_status (severity : string) : Status :=
  if String.eqb severity "critical" || String.eqb severity "high"
  then StatusNoGo
  else StatusWarn.

Definition team_section (results : list Result) (st : tally) (cat : category)
  : TeamSection :=
  let count := by_type st (cat_threatType cat) in
  if (count =? 0)%Z then
    mkSection (cat_id cat) (cat_name cat) StatusGo EmptyString
      [mkTask "scan" StatusGo EmptyString "No threats detected"] []
  else
    let status := section_status (cat_severity cat) in
    let items := findings results cat in
    mkSection (cat_id cat) (cat_name cat) status EmptyString
      [mkTask "scan" status (cat_severity cat)
         (formatInt count ++ " threat(s) detected")]
      (if (0 <? length items)%nat
       then [mkBlock "list" "Findings" [] (limit_items items) EmptyString]
       else []).

(** The action items of the footer, with the running number. *)
Definition add_action (cond : bool) (icon value : string)
  (acc : list KVPair * Z) : list KVPair * Z :=
  let '(actionItems, actionNum) := acc in
  if cond
  then ((actionItems ++ [mkKV (formatInt actionNum) value icon])%list, (actionNum + 1)%Z)
  else acc.

Definition action_items (st : tally) : list KVPair :=
  let acc := ([], 1%Z) in
  let acc := add_action ((by_type st ThreatScript >? 0)%Z
                         || (by_type st ThreatEventHandler >? 0)%Z)
               red "Remove all script elements and event handlers (CRITICAL)" acc in
  let acc := add_action (by_type st ThreatExternalRef >? 0)%Z
               red "Remove external references and foreignObject elements (HIGH)" acc in
  let acc := add_action (by_type st ThreatXMLEntity >? 0)%Z
               yellow "Remove DOCTYPE and ENTITY declarations (HIGH)" acc in
  let acc := add_action (by_type st ThreatAnimation >? 0)%Z
               yellow "Remove animation elements for static images (MEDIUM)" acc in
  let acc := add_action (by_type st ThreatStyleBlock >? 0)%Z
               green "Consider inlining styles and removing style blocks (LOW)" acc in
  let acc := add_action (by_type st ThreatLink >? 0)%Z
               yellow "Remove anchor elements for static images (MEDIUM)" acc in
  fst acc.

Definition footer_blocks (st : tally) : list ContentBlock :=
  if (0 <? length (allThreats st))%nat then
    let actionItems := action_items st in
    if (0 <? length actionItems)%nat
    then [mkBlock "kv_pairs" "ACTION ITEMS" actionItems [] EmptyString]
    else []
  else [].

(** GenerateReport.  [results] holds the Results the slice of
    pointers refers to; [now] is the formatted time of the call. *)
Definition GenerateReport (results : list Result) (project version : string)
  (now : string) : TeamReport :=
  let totalFiles := Z.of_nat (length results) in
  let st := count_totals results in
  mkReport
    "https://raw.githubusercontent.com/agentplexus/multi-agent-spec/main/schema/report/team-report.schema.json"
    "SVG SECURITY SCAN REPORT"
    project
    version
    "SECURITY VALIDATION"
    [mkBlock "kv_pairs" EmptyString
       [mkKV "Files Scanned" (formatInt totalFiles) EmptyString;
        mkKV "Secure Files" (formatInt (secureFiles st)) EmptyString;
        mkKV "Files with Threats" (formatInt (totalFiles - secureFiles st)) EmptyString;
        mkKV "Total Threats" (formatInt (Z.of_nat (length (allThreats st)))) EmptyString]
       [] EmptyString]
    (map (team_section results st) threatCategories)
    (footer_blocks st)
    (overall_status st)
    now
    "brandkit security-scan".

End Report.

(* ================================================================== *)
(** ** Notions used to state the properties                            *)
(* ================================================================== *)

Local Close Scope N_scope.
Local Open Scope string_scope.

Module Notions.
Import Regexp Security Report.

(* ---------------------------------------------------------------- *)
(** *** Counting threats *)
(* ---------------------------------------------------------------- *)

(** Number of threats of category [X] in a list. *)
Fixpoint count_type (X : ThreatType) (ts : list Threat) : nat :=
  match ts with
  | [] => 0
  | t :: ts' => (if decide (Type_ t = X) then 1 else 0) + count_type X ts'
  end.

(** The count index of a Result agrees with its threat list. *)
Definition counts_consistent (r : Result) : Prop :=
  forall X, count_of (ThreatCounts r) X = Z.of_nat (count_type X (Threats r)).

(** Every threat of a batch, in order. *)
Definition batch_threats (results : list Result) : list Threat :=
  flat_map Threats results.

Definition critical_or_high : list ThreatType :=
  [ThreatScript; ThreatEventHandler; ThreatExternalRef; ThreatXMLEntity].

Definition medium_or_low : list ThreatType :=
  [ThreatAnimation; ThreatStyleBlock; ThreatLink].

(* ---------------------------------------------------------------- *)
(** *** The scanner *)
(* ---------------------------------------------------------------- *)

(** The threats a list of patterns finds in a text: every match of
    every pattern, pattern by pattern. *)
Definition scan_threats (content : string) (ps : list threatPattern) : list Threat :=
  flat_map (fun p => map (threat_of p) (FindAllString (pattern p) content)) ps.

(** What a directory scan owes for one enumerated file: the error
    Result when the file cannot be read, the Strict scan of its text
    otherwise. *)
Definition file_outcome (ReadFile : string -> res string)
  (unread : string -> string -> Result) (filePath : string) (r : Result) : Prop :=
  match ReadFile filePath with
  | Err e => r = unread filePath ("failed to read file: " ++ e)
             /\ IsSecure r = false /\ Errors r <> [] /\ FilePath r = filePath
  | Ok content =>
    ScanContentWithLevel content (Some (fresh_result filePath)) ScanLevelStrict = Some r
  end.

(** What a test can observe of a scan: the secure flag and, for each
    threat, its category and description. *)
Definition observed (r : option Result) : option (bool * list (ThreatType * string)) :=
  match r with
  | None => None
  | Some r => Some (IsSecure r, map (fun t => (Type_ t, Description t)) (Threats r))
  end.

(* ---------------------------------------------------------------- *)
(** *** The matcher *)
(* ---------------------------------------------------------------- *)

(** Whether the rune before a position is a word character, after
    walking over [s1] from a position where it was [prev]. *)
Definition last_word (prev : bool) (s1 : list Utf8.tok) : bool :=
  fold_left (fun _ t => IsWordChar (Utf8.rune t)) s1 prev.

(** The pattern matches at no position of the subject [ts], whose
    first rune is preceded by a word character or not as [prev0] says. *)
Definition matches_nowhere (re : regex) (prev0 : bool) (ts : list Utf8.tok) : Prop :=
  forall s1 s2, ts = (s1 ++ s2)%list -> match_here re (last_word prev0 s1) s2 = None.

(** Whenever [k1] succeeds, so does [k2]. *)
Definition follows (k1 k2 : cont) : Prop :=
  forall prev s cs1 cs2, k1 prev s cs1 <> None -> k2 prev s cs2 <> None.

(** [r2] is [r1] with some character classes widened. *)
Inductive widens : regex -> regex -> Prop :=
| widens_eps : widens Eps Eps
| widens_cls c1 c2 :
    (forall r, c1 r = true -> c2 r = true) -> widens (Cls c1) (Cls c2)
| widens_cat a1 a2 b1 b2 :
    widens a1 a2 -> widens b1 b2 -> widens (Cat a1 b1) (Cat a2 b2)
| widens_alt a1 a2 b1 b2 :
    widens a1 a2 -> widens b1 b2 -> widens (Alt a1 b1) (Alt a2 b2)
| widens_star c1 c2 :
    (forall r, c1 r = true -> c2 r = true) -> widens (Star c1) (Star c2)
| widens_lazy c1 c2 :
    (forall r, c1 r = true -> c2 r = true) -> widens (StarLazy c1) (StarLazy c2)
| widens_group n1 n2 r1 r2 : widens r1 r2 -> widens (Group n1 r1) (Group n2 r2)
| widens_wordb : widens WordB WordB
| widens_plus c1 c2 :
    (forall r, c1 r = true -> c2 r = true) ->
    widens (Cat (Cls c1) (Star c1)) (Star c2).

(* ---------------------------------------------------------------- *)
(** *** The sanitizer *)
(* ---------------------------------------------------------------- *)

(** The two properties of the sanitizer, as the specification words
    them: after a RemoveAll pass a Strict scan reports no threat of the
    four covered categories; and a second pass with the same options
    removes nothing. *)
Definition clean_after_sanitize (c : string) : Prop :=
  exists r,
    ScanContentWithLevel (fst (SanitizeContent c DefaultSanitizeOptions)) None
      ScanLevelStrict = Some r
    /\ forall t, In t (Threats r) -> ~ In (Type_ t) critical_or_high.

Definition second_pass_removes_nothing (c : string) (o : SanitizeOptions) : Prop :=
  Sanitized (fst (SanitizeContent c o)) o = false.

(** The detection rules for which some removal rule of RemoveAll
    matches whenever they do: the two script-element rules, the three
    event-handler rules, and the rules for external href, external
    xlink:href and external URL in style. *)
Definition covered_detection : list threatPattern :=
  (firstn 2 scriptPatterns ++ eventHandlerPatterns
   ++ firstn 2 externalRefPatterns ++ firstn 1 (skipn 3 externalRefPatterns))%list.

Definition covered_kinds : list string :=
  ["script element"; "self-closing script element"; "event handler attribute";
   "unquoted event handler attribute"; "external href"; "external xlink:href";
   "external URL in style"].

(** The kinds of threat of the four covered categories whose detection
    rule reaches further than every removal rule. *)
Definition uncovered_kinds : list string :=
  ["javascript: URI"; "vbscript: URI"; "data:text/html URI"; "foreignObject element";
   "external use reference"; "DOCTYPE declaration"; "ENTITY declaration"].

(* ---------------------------------------------------------------- *)
(** *** The report footer *)
(* ---------------------------------------------------------------- *)

(** Categories with at least one threat in the batch, in catalog order. *)
Definition nonzero_categories (results : list Result) : list ThreatType :=
  List.filter (fun X => (0 <? count_type X (batch_threats results))%nat) all_types.

(** The lines the footer can show: the categories a line stands for,
    its text and its icon, in the order the lines appear. *)
Definition action_rows : list (list ThreatType * string * string) :=
  [ ([ThreatScript; ThreatEventHandler],
     "Remove all script elements and event handlers (CRITICAL)", red);
    ([ThreatExternalRef],
     "Remove external references and foreignObject elements (HIGH)", red);
    ([ThreatXMLEntity], "Remove DOCTYPE and ENTITY declarations (HIGH)", yellow);
    ([ThreatAnimation], "Remove animation elements for static images (MEDIUM)", yellow);
    ([ThreatStyleBlock],
     "Consider inlining styles and removing style blocks (LOW)", green);
    ([ThreatLink], "Remove anchor elements for static images (MEDIUM)", yellow) ].

Definition row_active (results : list Result)
  (row : list ThreatType * string * string) : bool :=
  existsb (fun X => (0 <? count_type X (batch_threats results))%nat) (fst (fst row)).

(** Numbering lines from [n] on. *)
Fixpoint numbered (n : Z) (rows : list (list ThreatType * string * string))
  : list KVPair :=
  match rows with
  | [] => []
  | row :: rows' => mkKV (formatInt n) (snd (fst row)) (snd row) :: numbered (n + 1) rows'
  end.

(** The severity tag that closes an action line. *)
Definition severity_tag (X : ThreatType) : string :=
  match X with
  | ThreatScript | ThreatEventHandler => "(CRITICAL)"
  | ThreatExternalRef | ThreatXMLEntity => "(HIGH)"
  | ThreatAnimation | ThreatLink => "(MEDIUM)"
  | ThreatStyleBlock => "(LOW)"
  | ThreatOther _ => "(INFO)"
  end.

(** Rank of a severity tag, most severe first. *)
Definition line_rank (value : string) : nat :=
  if HasSuffix value "(CRITICAL)" then 0
  else if HasSuffix value "(HIGH)" then 1
  else if HasSuffix value "(MEDIUM)" then 2
  else 3.

Fixpoint ranks_sorted (rs : list nat) : bool :=
  match rs with
  | a :: (b :: _) as rest => (a <=? b)%nat && ranks_sorted rest
  | _ => true
  end.

(** The sentence on the footer, as the specification words it: when
    the status is not GO there is one action list with exactly one
    line per category that has threats, most severe first. *)
Definition one_line_per_category (results : list Result) : Prop :=
  let rep := GenerateReport results "" "" "" in
  TeamReport_Status rep <> StatusGo ->
  exists blk, FooterBlocks rep = [blk]
    /\ length (Pairs blk) = length (nonzero_categories results)
    /\ ranks_sorted (map (fun kv => line_rank (Value kv)) (Pairs blk)) = true.

(** A batch none of whose threats has one of the seven declared
    categories. *)
Definition only_undeclared (results : list Result) : Prop :=
  forall t, In t (batch_threats results) -> ~ In (Type_ t) all_types.

(* ---------------------------------------------------------------- *)
(** *** Concrete inputs *)
(* ---------------------------------------------------------------- *)

(** Batches used as concrete inputs below. *)
(** A Result a caller filled in with a category of its own. *)
Definition undeclared_type_batch : list Result :=
  [ mkResult "a.svg" false [mkThreat (ThreatType_of_iota 99) "custom check" "x"]
      (Some {[ThreatType_of_iota 99 := 1%Z]}) [] ].

Definition style_only_batch : list Result :=
  [ mkResult "a.svg" false [mkThreat ThreatStyleBlock "style element" "<style"]
      (Some {[ThreatStyleBlock := 1%Z]}) [] ].

Definition script_and_handler_batch : list Result :=
  [ mkResult "b.svg" false
      [mkThreat ThreatScript "script element" "<script>x</script>";
       mkThreat ThreatEventHandler "event handler attribute" " onload='y()'"]
      (Some (<[ThreatEventHandler := 1%Z]> {[ThreatScript := 1%Z]})) [] ].

Definition style_and_link_batch : list Result :=
  [ mkResult "c.svg" false
      [mkThreat ThreatStyleBlock "style element" "<style";
       mkThreat ThreatLink "anchor element with href" "<a href="]
      (Some (<[ThreatLink := 1%Z]> {[ThreatStyleBlock := 1%Z]})) [] ].

(** A Result made by the caller, the way the package documentation
    shows it: empty threat list, allocated map, other fields zero. *)
Definition caller_made_result : Result := mkResult EmptyString false [] (Some ∅) [].

(** A small file system: one directory with an unreadable SVG file, a
    readable one, a subdirectory and a text file. *)
Definition demo_ReadFile (path : string) : res string :=
  if String.eqb path "icons/b.SVG" then Ok "<svg><style></style></svg>"
  else Err "open: permission denied".

Definition demo_ReadDir (dirPath : string) : res (list DirEntry) :=
  if String.eqb dirPath "icons"
  then Ok [mkEntry "a.svg" false; mkEntry "b.SVG" false;
           mkEntry "sub.svg" true; mkEntry "notes.txt" false]
  else Err "open: no such directory".

Definition demo_WalkDir (dirPath : string) : list visit :=
  if String.eqb dirPath "icons"
  then [mkVisit "icons" (mkEntry "icons" true) None;
        mkVisit "icons/a.svg" (mkEntry "a.svg" false) None;
        mkVisit "icons/b.SVG" (mkEntry "b.SVG" false) None;
        mkVisit "icons/notes.txt" (mkEntry "notes.txt" false) None]
  else [mkVisit dirPath (mkEntry dirPath false) (Some "lstat: no such file")].

Definition demo_Join (dir name : string) : string := dir ++ "/" ++ name.

(** Texts used as concrete inputs below. *)
Definition quoted (s : string) : string := sdq ++ s ++ sdq.

Definition bare_javascript : string := "<text>javascript:</text>".
Definition split_handler : string :=
  "<rect on onclick=" ++ quoted "a" ++ "click=" ++ quoted "evil()" ++ "/>".
Definition unclosed_foreign : string := "<svg><foreignObject></svg>".
Definition unclosed_doctype : string := "<!DOCTYPE svg".
Definition nested_script : string := "<scr<script></script>ipt>alert(1)</script>".

Definition scenario_A : string := "<svg><script>alert(1)</script><rect/></svg>".
Definition multiline_script : string :=
  "<svg><script>" ++ snl ++ "alert(1)" ++ snl ++ "</script><rect/></svg>".
Definition scenario_C : string :=
  "<svg onclick=" ++ quoted "x()" ++ "><rect onload=" ++ quoted "y()" ++ "/></svg>".
Definition scenario_E : string :=
  "<svg><a href=" ++ quoted "https://phish.example/" ++ "><image href="
  ++ quoted "https://cdn.example/x.png" ++ "/></a></svg>".
Definition scenario_E_single : string :=
  "<svg><a href='https://phish.example/'><image href='https://cdn.example/x.png'/></a></svg>".
Definition single_quoted_script_uri : string := "<a href='javascript:alert(1)'>x</a>".

(** The file that the repository's test of Sanitize writes, sanitizes
    and scans again. *)
Definition sanitize_test_file : string :=
  "<?xml version=" ++ quoted "1.0" ++ "?>" ++ snl
  ++ "<svg viewBox=" ++ quoted "0 0 100 100" ++ " xmlns="
  ++ quoted "http://www.w3.org/2000/svg" ++ " onclick=" ++ quoted "evil()" ++ ">" ++ snl
  ++ "  <script>alert('XSS')</script>" ++ snl
  ++ "  <path d=" ++ quoted "M 0 0 L 10 10" ++ "/>" ++ snl ++ "</svg>".

Definition only_scripts : SanitizeOptions := mkOptions true false false false.
Definition only_handlers : SanitizeOptions := mkOptions false true false false.
Definition only_external : SanitizeOptions := mkOptions false false true false.

End Notions.

(* ================================================================== *)
(** ** Further notions, for the properties beyond the claims           *)
(* ================================================================== *)

Module MoreNotions.
Import Regexp Syntax Security Report Notions.

(** Severity critical or high, read off ThreatType.Severity. *)
Definition severe (X : ThreatType) : bool :=
  String.eqb (Severity X) "critical" || String.eqb (Severity X) "high".

(** The longest display text the catalog allows for a category, not
    counting the three dots of a truncated match; for a value without
    patterns of its own, the scanner's default. *)
Definition display_cap (X : ThreatType) : Z :=
  match X with
  | ThreatScript | ThreatExternalRef => 100
  | ThreatEventHandler | ThreatLink => 80
  | ThreatAnimation | ThreatStyleBlock | ThreatXMLEntity => 50
  | ThreatOther _ => 50
  end.

(** The order in which the report lists the categories. *)
Definition category_order : list ThreatType :=
  [ThreatScript; ThreatEventHandler; ThreatExternalRef; ThreatXMLEntity;
   ThreatAnimation; ThreatStyleBlock; ThreatLink].

(** The status a category deserves in a batch: GO without a threat of
    the category, otherwise NO-GO or WARN by its severity. *)
Definition deserved_status (results : list Result) (X : ThreatType) : Status :=
  if (count_type X (batch_threats results) =? 0)%nat then StatusGo
  else if severe X then StatusNoGo else StatusWarn.

(** The only task of a category's section. *)
Definition deserved_task (results : list Result) (X : ThreatType) : TaskResult :=
  let n := count_type X (batch_threats results) in
  if (n =? 0)%nat then mkTask "scan" StatusGo EmptyString "No threats detected"
  else mkTask "scan" (deserved_status results X) (Severity X)
         (formatInt (Z.of_nat n) ++ " threat(s) detected").

(** The findings of a category, one line per threat: the path of the
    Result that holds it and its description. *)
Definition finding_texts (results : list Result) (X : ThreatType) : list string :=
  flat_map (fun r =>
              map (fun t => FilePath r ++ ": " ++ Description t)
                  (List.filter (fun t => bool_decide (Type_ t = X)) (Threats r)))
           results.

(** Results that count as secure files, and the others. *)
Definition secure_results (results : list Result) : list Result :=
  List.filter IsSuccess results.
Definition insecure_results (results : list Result) : list Result :=
  List.filter (fun r => negb (IsSuccess r)) results.

(** The error of the first visit that carries one. *)
Fixpoint first_error (vs : list visit) : option string :=
  match vs with
  | [] => None
  | v :: vs' =>
    match verr v with
    | Some e => Some e
    | None => first_error vs'
    end
  end.

(** The entries a listing keeps: not a directory, and a name that ends
    in .svg whatever the case of its letters. *)
Definition svg_entry (d : DirEntry) : bool :=
  negb (EntryIsDir d) && HasSuffix (ToLower (Name d)) ".svg".

(** A file that can be read and whose Strict scan finds no threat. *)
Definition readable_and_clean (ReadFile : string -> res string) (filePath : string)
  : Prop :=
  exists content r,
    ReadFile filePath = Ok content
    /\ ScanContentWithLevel content None ScanLevelStrict = Some r
    /\ Threats r = [].

(** What a successful run of [r] does: it consumes the runes between
    the input [s] and the input [s'] that it passes on, and extends
    the submatches [cs] to [cs'].  Assertions consume nothing. *)
Fixpoint step (r : regex) (s : list Utf8.tok) (cs : caps) (s' : list Utf8.tok)
  (cs' : caps) : Prop :=
  match r with
  | Eps => s' = s /\ cs' = cs
  | WordB => s' = s /\ cs' = cs
  | Cls c => exists t, s = t :: s' /\ c (Utf8.rune t) = true /\ cs' = cs
  | Cat a b => exists s1 cs1, step a s cs s1 cs1 /\ step b s1 cs1 s' cs'
  | Alt a b => step a s cs s' cs' \/ step b s cs s' cs'
  | Star c =>
    exists pre, s = (pre ++ s')%list
                /\ Forall (fun t => c (Utf8.rune t) = true) pre /\ cs' = cs
  | StarLazy c =>
    exists pre, s = (pre ++ s')%list
                /\ Forall (fun t => c (Utf8.rune t) = true) pre /\ cs' = cs
  | Group n g =>
    exists csg, step g s cs s' csg
                /\ cs' = (n, firstn (length s - length s') s) :: csg
  end.

(** The least number of runes a match of [r] consumes. *)
Fixpoint minlen (r : regex) : nat :=
  match r with
  | Eps | WordB | Star _ | StarLazy _ => 0
  | Cls _ => 1
  | Cat a b => minlen a + minlen b
  | Alt a b => Nat.min (minlen a) (minlen b)
  | Group _ g => minlen g
  end.

(** No capture group inside. *)
Fixpoint groupfree (r : regex) : bool :=
  match r with
  | Eps | WordB | Star _ | StarLazy _ | Cls _ => true
  | Cat a b | Alt a b => groupfree a && groupfree b
  | Group _ _ => false
  end.

(** Every rune spans at least one byte. *)
Definition spans_bytes (s : list Utf8.tok) : Prop :=
  Forall (fun t => Utf8.raw t <> []) s.

(** A match of [re]: the runes it consumed at some position of a
    subject, with the submatches it made. *)
Definition match_of (re : regex) (h : hit) : Prop :=
  exists s rest,
    step re s [] rest (subs h) /\ spans_bytes s
    /\ s = (matched h ++ rest)%list.

(** A rule whose replacement is shorter than whatever it replaces. *)
Definition shrinks (re : regex) (repl : list titem) : Prop :=
  forall h, match_of re h ->
            length (expand repl h) < length (Utf8.bytes (matched h)).

(** The bytes of the subject that a piece stands for. *)
Definition piece_source (p : piece) : list ascii :=
  match p with
  | Gap t => Utf8.raw t
  | Found h => Utf8.bytes (matched h)
  end.

Definition piece_output (repl : list titem) (p : piece) : list ascii :=
  match p with
  | Gap t => Utf8.raw t
  | Found h => expand repl h
  end.


(* ---------------------------------------------------------------- *)
(** *** Letter case *)
(* ---------------------------------------------------------------- *)

(** Lowering an ASCII capital, on runes. *)
Definition lower_rune (r : N) : N := if is_upper r then (r + 32)%N else r.

Definition capitals : list N := map N.of_nat (List.seq 65 26).

(** A class that cannot tell a capital from its small letter. *)
Definition blind (c : class) : Prop := forall r, c (lower_rune r) = c r.

Definition blindb (c : class) : bool :=
  forallb (fun r => Bool.eqb (c (r + 32)%N) (c r)) capitals.

Fixpoint case_blind (re : regex) : Prop :=
  match re with
  | Eps | WordB => True
  | Cls c | Star c | StarLazy c => blind c
  | Cat a b | Alt a b => case_blind a /\ case_blind b
  | Group _ g => case_blind g
  end.

Fixpoint case_blindb (re : regex) : bool :=
  match re with
  | Eps | WordB => true
  | Cls c | Star c | StarLazy c => blindb c
  | Cat a b | Alt a b => case_blindb a && case_blindb b
  | Group _ g => case_blindb g
  end.

(** The runes of a text and of the same text in small letters. *)
Definition lower_tok (t t' : Utf8.tok) : Prop :=
  lower_rune (Utf8.rune t') = lower_rune (Utf8.rune t)
  /\ Utf8.raw t' = map lower_byte (Utf8.raw t).

Definition lower_toks : list Utf8.tok -> list Utf8.tok -> Prop := Forall2 lower_tok.

Definition lower_caps : caps -> caps -> Prop :=
  Forall2 (fun a b => fst b = fst a /\ lower_toks (snd a) (snd b)).

Definition lower_outcome (o o' : outcome) : Prop :=
  match o, o' with
  | None, None => True
  | Some (s, cs), Some (s', cs') => lower_toks s s' /\ lower_caps cs cs'
  | _, _ => False
  end.

Definition lower_cont (k k' : cont) : Prop :=
  forall p s s' cs cs',
    lower_toks s s' -> lower_caps cs cs' -> lower_outcome (k p s cs) (k' p s' cs').

Definition lower_piece (p p' : piece) : Prop :=
  match p, p' with
  | Gap t, Gap t' => lower_tok t t'
  | Found h, Found h' =>
    lower_toks (matched h) (matched h') /\ lower_caps (subs h) (subs h')
  | _, _ => False
  end.

(** A template whose literal text has no capital. *)
Definition small_template (repl : list titem) : Prop :=
  Forall (fun it => match it with Lit s => ToLower s = s | Ref _ => True end) repl.

(** A threat and a Result with the matched text in small letters. *)
Definition lower_threat (t : Threat) : Threat :=
  mkThreat (Type_ t) (Description t) (ToLower (Match t)).

Definition lower_result (r : Result) : Result :=
  mkResult (FilePath r) (IsSecure r) (map lower_threat (Threats r))
           (ThreatCounts r) (Errors r).

End MoreNotions.

(* ================================================================== *)
(** ** Sanitizing a file                                               *)
(* ================================================================== *)

Module SanitizeFile.
Import Security.

Record SanitizeResult : Type := mkSanitizeResult {
  InputPath : string;
  OutputPath : string;
  ThreatsRemoved : list Threat;
  Sanitized : bool;
  Error : option string
}.

Section Files.

(** The file system as a state: reading looks at it, writing gives the
    next one and possibly an error. *)
Variable FS : Type.
Variable ReadFile : FS -> string -> res string.
Variable WriteFile : FS -> string -> string -> FS * option string.

(** Sanitize.  The result pair is the *SanitizeResult and the error. *)
Definition Sanitize (fs : FS) (inputPath outputPath : string) (opts : SanitizeOptions)
  : FS * (SanitizeResult * option string) :=
  let result := mkSanitizeResult inputPath outputPath [] false None in
  match ReadFile fs inputPath with
  | Err e =>
    let err := "failed to read input file: " ++ e in
    (fs, (mkSanitizeResult (InputPath result) (OutputPath result)
            (ThreatsRemoved result) (Sanitized result) (Some err), Some err))
  | Ok content =>
    let '(sanitized, threats) := SanitizeContent content opts in
    let result := mkSanitizeResult (InputPath result) (OutputPath result)
                    threats (0 <? length threats)%nat (Error result) in
    match WriteFile fs outputPath sanitized with
    | (fs', Some e) =>
      let err := "failed to write output file: " ++ e in
      (fs', (mkSanitizeResult (InputPath result) (OutputPath result)
               (ThreatsRemoved result) (Sanitized result) (Some err), Some err))
    | (fs', None) => (fs', (result, None))
    end
  end.

End Files.

End SanitizeFile.

(* ================================================================== *)
(** ** Properties of the report generator                              *)
(* ================================================================== *)

Module ReportFacts.
Import Security Report Notions.

(** ThreatType and int are the same set of values: converting an
    int to a ThreatType and back, or the other way round, changes
    nothing. *)
Lemma threat_type_is_int :
  (forall n, ThreatType_iota (ThreatType_of_iota n) = n) /\
  (forall t, ThreatType_of_iota (ThreatType_iota t) = t).
Proof.
  split.
  - intros n. unfold ThreatType_of_iota.
    repeat match goal with
           | |- context [(?a =? ?b)%Z] => destruct (Z.eqb_spec a b); [subst; reflexivity|]
           end.
    cbn [ThreatType_iota].
    destruct (Z.ltb_spec n 0) as [Hn|Hn].
    + destruct (Z.ltb_spec n 0); [reflexivity | lia].
    + destruct (Z.ltb_spec (n - 7) 0); lia.
  - intros [| | | | | | |k]; try reflexivity.
    unfold ThreatType_iota, ThreatType_of_iota.
    destruct (Z.ltb_spec k 0) as [Hk|Hk];
      repeat match goal with
             | |- context [(?a =? ?b)%Z] => destruct (Z.eqb_spec a b); [lia|]
             end.
    + destruct (Z.ltb_spec k 0); [reflexivity | lia].
    + destruct (Z.ltb_spec (k + 7) 0); [lia | f_equal; lia].
Qed.

Lemma count_type_app X ts us :
  count_type X (ts ++ us) = count_type X ts + count_type X us.
Proof. induction ts as [|t ts IH]; simpl; [reflexivity|]. rewrite IH. lia. Qed.

Lemma count_type_pos X ts :
  0 < count_type X ts <-> exists t, In t ts /\ Type_ t = X.
Proof.
  induction ts as [|t ts IH]; simpl.
  - split; [lia | intros (t & [] & _)].
  - destruct (decide (Type_ t = X)) as [Heq|Hne].
    + split; [intros _; exists t; auto | lia].
    + rewrite Nat.add_0_l, IH. split.
      * intros (u & Hu & Hx). exists u; auto.
      * intros (u & [Hu|Hu] & Hx); [subst; contradiction | exists u; auto].
Qed.

(** Incrementing one key of a Go map, read back at any key. *)
Lemma bump_lookup (g : gmap ThreatType Z) (k X : ThreatType) :
  default 0%Z (<[k := (default 0 (g !! k) + 1)%Z]> g !! X)
  = (default 0%Z (g !! X) + (if decide (k = X) then 1 else 0))%Z.
Proof.
  destruct (decide (k = X)) as [->|Hne].
  - rewrite lookup_insert_eq. reflexivity.
  - rewrite lookup_insert_ne by assumption. lia.
Qed.

Lemma tally_threats_spec ts st :
  let st' := fold_left tally_threat ts st in
  allThreats st' = (allThreats st ++ ts)%list /\
  forall X, by_type st' X = (by_type st X + Z.of_nat (count_type X ts))%Z.
Proof.
  revert st. induction ts as [|t ts IH]; intros st; simpl.
  - split; [symmetry; apply app_nil_r|]. intros X. lia.
  - destruct (IH (tally_threat st t)) as (Ha & Hc). split.
    + rewrite Ha. simpl. rewrite <- app_assoc. reflexivity.
    + intros X. rewrite Hc. unfold by_type, tally_threat; simpl.
      rewrite bump_lookup. destruct (decide (Type_ t = X)); lia.
Qed.

Lemma tally_results_spec results st :
  let st' := fold_left tally_result results st in
  allThreats st' = (allThreats st ++ batch_threats results)%list /\
  forall X, by_type st' X
            = (by_type st X + Z.of_nat (count_type X (batch_threats results)))%Z.
Proof.
  revert st. induction results as [|r results IH]; intros st; simpl.
  - split; [symmetry; apply app_nil_r|]. intros X. lia.
  - destruct (IH (tally_result st r)) as (Ha & Hc).
    unfold tally_result in Ha, Hc.
    set (st1 := if IsSuccess r then _ else st) in *.
    destruct (tally_threats_spec (Threats r) st1) as (Ha1 & Hc1).
    assert (Hst1 : allThreats st1 = allThreats st /\ threatsByType st1 = threatsByType st)
      by (subst st1; destruct (IsSuccess r); auto).
    destruct Hst1 as (E1 & E2). split.
    + unfold tally_result. fold st1. rewrite Ha, Ha1, E1, <- app_assoc. reflexivity.
    + intros X. unfold tally_result. fold st1. rewrite Hc, Hc1.
      assert (Hb : by_type st1 X = by_type st X)
        by (unfold by_type; rewrite E2; reflexivity).
      rewrite Hb. change (batch_threats (r :: results))
        with (Threats r ++ batch_threats results)%list.
      rewrite count_type_app. lia.
Qed.

(** What the first loop of GenerateReport computes. *)
Lemma count_totals_spec results :
  allThreats (count_totals results) = batch_threats results /\
  forall X, by_type (count_totals results) X
            = Z.of_nat (count_type X (batch_threats results)).
Proof.
  destruct (tally_results_spec results (mkTally 0 ∅ [])) as (Ha & Hc).
  split; [exact Ha|]. intros X. unfold count_totals. rewrite Hc.
  unfold by_type; simpl. rewrite lookup_empty. reflexivity.
Qed.

Lemma by_type_positive results X :
  (by_type (count_totals results) X >? 0)%Z
  = (0 <? count_type X (batch_threats results))%nat.
Proof.
  destruct (count_totals_spec results) as (_ & Hc). rewrite Hc.
  destruct (0 <? _)%nat eqn:E.
  - apply Nat.ltb_lt in E. apply Z.gtb_lt. lia.
  - apply Nat.ltb_ge in E. destruct (_ >? 0)%Z eqn:E'; [|reflexivity].
    apply Z.gtb_lt in E'. lia.
Qed.

Lemma has_threats results :
  (0 <? length (allThreats (count_totals results)))%nat
  = negb (Nat.eqb (length (batch_threats results)) 0).
Proof.
  destruct (count_totals_spec results) as (-> & _).
  destruct (batch_threats results); reflexivity.
Qed.

(** The overall status in terms of the threats of the batch. *)
Lemma overall_status_spec results :
  overall_status (count_totals results)
  = match batch_threats results with
    | [] => StatusGo
    | _ :: _ =>
      if existsb (fun X => (0 <? count_type X (batch_threats results))%nat)
           critical_or_high
      then StatusNoGo else StatusWarn
    end.
Proof.
  unfold overall_status. rewrite has_threats, !by_type_positive.
  destruct (batch_threats results) as [|t ts] eqn:E; [reflexivity|].
  cbn [length Nat.eqb negb existsb critical_or_high].
  rewrite orb_false_r, !orb_assoc. reflexivity.
Qed.

(** C2.  The overall status of a report is GO when the batch holds no
    threat at all, NO-GO as soon as one threat of category Script,
    EventHandler, ExternalRef or XMLEntity is present anywhere in the
    batch, and WARN when there is at least one threat and every threat
    is of category Animation, StyleBlock or Link.  In particular a
    batch whose only threats are StyleBlock threats yields WARN and not
    NO-GO, and a batch with any Script threat yields NO-GO. *)
Theorem C2_status_by_severity (results : list Result) (project version now : string) :
  let ts := batch_threats results in
  let st := TeamReport_Status (GenerateReport results project version now) in
  (ts = [] -> st = StatusGo) /\
  ((exists t, In t ts /\ In (Type_ t) critical_or_high) -> st = StatusNoGo) /\
  (ts <> [] -> (forall t, In t ts -> In (Type_ t) medium_or_low) -> st = StatusWarn) /\
  (ts <> [] -> (forall t, In t ts -> Type_ t = ThreatStyleBlock) ->
   st = StatusWarn /\ st <> StatusNoGo) /\
  ((exists t, In t ts /\ Type_ t = ThreatScript) -> st = StatusNoGo).
Proof.
  intros ts st.
  assert (Hst : st = overall_status (count_totals results)) by reflexivity.
  rewrite overall_status_spec in Hst. fold ts in Hst.
  assert (Hhigh : (exists t, In t ts /\ In (Type_ t) critical_or_high) ->
                  st = StatusNoGo).
  { intros (t & Ht & Hc). destruct ts as [|t0 ts0] eqn:E; [destruct Ht|].
    rewrite <- E in *. rewrite Hst.
    replace (existsb _ critical_or_high) with true; [reflexivity|].
    symmetry. apply existsb_exists. exists (Type_ t). split; [exact Hc|].
    apply Nat.ltb_lt, count_type_pos. exists t; auto. }
  assert (Hlow : ts <> [] -> (forall t, In t ts -> In (Type_ t) medium_or_low) ->
                 st = StatusWarn).
  { intros Hne Hall. destruct ts as [|t0 ts0] eqn:E; [contradiction|].
    rewrite <- E in *. rewrite Hst.
    replace (existsb _ critical_or_high) with false; [reflexivity|].
    symmetry. apply not_true_is_false. intros Hex.
    apply existsb_exists in Hex. destruct Hex as (X & HX & Hpos).
    apply Nat.ltb_lt, count_type_pos in Hpos. destruct Hpos as (t & Ht & <-).
    specialize (Hall t Ht). unfold critical_or_high, medium_or_low in *.
    simpl in HX, Hall. destruct (Type_ t); intuition discriminate. }
  split; [intros E; rewrite Hst, E; reflexivity|].
  split; [exact Hhigh|]. split; [exact Hlow|]. split.
  - intros Hne Hall. assert (Hw : st = StatusWarn).
    { apply Hlow; [exact Hne|]. intros t Ht. rewrite (Hall t Ht).
      unfold medium_or_low; simpl; auto. }
    split; [exact Hw|]. rewrite Hw. discriminate.
  - intros (t & Ht & Hty). apply Hhigh. exists t. split; [exact Ht|].
    rewrite Hty. unfold critical_or_high; simpl; auto.
Qed.

(** C10.  The overall status of any report is GO, NO-GO or WARN and
    never SKIP; the report of the empty batch has status GO and counts
    zero files. *)
Theorem C10_status_never_skip (results : list Result) (project version now : string) :
  let st := TeamReport_Status (GenerateReport results project version now) in
  (st = StatusGo \/ st = StatusNoGo \/ st = StatusWarn) /\ st <> StatusSkip /\
  TeamReport_Status (GenerateReport [] project version now) = StatusGo /\
  SummaryBlocks (GenerateReport [] project version now)
  = [mkBlock "kv_pairs" EmptyString
       [mkKV "Files Scanned" "0" EmptyString;
        mkKV "Secure Files" "0" EmptyString;
        mkKV "Files with Threats" "0" EmptyString;
        mkKV "Total Threats" "0" EmptyString] [] EmptyString].
Proof.
  intros st.
  assert (Hst : st = overall_status (count_totals results)) by reflexivity.
  rewrite overall_status_spec in Hst.
  split; [|split; [|split; reflexivity]].
  - rewrite Hst. destruct (batch_threats results); [auto|].
    destruct (existsb _ _); auto.
  - rewrite Hst. destruct (batch_threats results); [discriminate|].
    destruct (existsb _ _); discriminate.
Qed.

Lemma status_go_iff results project version now :
  TeamReport_Status (GenerateReport results project version now) = StatusGo
  <-> batch_threats results = [].
Proof.
  change (TeamReport_Status (GenerateReport results project version now))
    with (overall_status (count_totals results)).
  rewrite overall_status_spec. destruct (batch_threats results).
  - split; reflexivity.
  - destruct (existsb _ _); split; discriminate.
Qed.

Lemma numbered_app n rows row :
  numbered n (rows ++ [row])
  = (numbered n rows
     ++ [mkKV (formatInt (n + Z.of_nat (length rows))) (snd (fst row)) (snd row)])%list.
Proof.
  revert n. induction rows as [|r rows IH]; intros n; cbn [numbered app length].
  - rewrite Z.add_0_r. reflexivity.
  - rewrite IH.
    replace (n + Z.of_nat (S (length rows)))%Z with (n + 1 + Z.of_nat (length rows))%Z
      by lia.
    reflexivity.
Qed.

(** One conditional append of the footer, on a numbered list. *)
Lemma add_action_spec (b : bool) icon value cats rows :
  add_action b icon value (numbered 1 rows, (1 + Z.of_nat (length rows))%Z)
  = (numbered 1 (rows ++ if b then [(cats, value, icon)] else []),
     (1 + Z.of_nat (length (rows ++ if b then [(cats, value, icon)] else [])))%Z).
Proof.
  unfold add_action. destruct b.
  - rewrite numbered_app, length_app. cbn [fst snd length]. f_equal. lia.
  - rewrite app_nil_r. reflexivity.
Qed.

Lemma filter_six {A : Type} (f : A -> bool) a b c d e g :
  List.filter f [a; b; c; d; e; g]
  = (((((([] ++ (if f a then [a] else [])) ++ (if f b then [b] else []))
        ++ (if f c then [c] else [])) ++ (if f d then [d] else []))
      ++ (if f e then [e] else [])) ++ (if f g then [g] else []))%list.
Proof. simpl. destruct (f a), (f b), (f c), (f d), (f e), (f g); reflexivity. Qed.

(** The footer lines are the rows of the table that have a threat,
    numbered from one. *)
Lemma action_items_spec results :
  action_items (count_totals results)
  = numbered 1 (List.filter (row_active results) action_rows).
Proof.
  unfold action_items. rewrite !by_type_positive.
  change ([], 1%Z) with (numbered 1 [], (1 + Z.of_nat (length (@nil (list ThreatType * string * string))))%Z).
  rewrite (add_action_spec _ _ _ [ThreatScript; ThreatEventHandler]).
  rewrite (add_action_spec _ _ _ [ThreatExternalRef]).
  rewrite (add_action_spec _ _ _ [ThreatXMLEntity]).
  rewrite (add_action_spec _ _ _ [ThreatAnimation]).
  rewrite (add_action_spec _ _ _ [ThreatStyleBlock]).
  rewrite (add_action_spec _ _ _ [ThreatLink]).
  cbn [fst]. unfold action_rows. rewrite filter_six.
  unfold row_active. cbn [existsb fst snd]. rewrite !orb_false_r. reflexivity.
Qed.

Lemma filter_nil_iff {A : Type} (f : A -> bool) (l : list A) :
  List.filter f l = [] <-> Forall (fun x => f x = false) l.
Proof.
  induction l as [|x l IH]; simpl.
  - split; [constructor | reflexivity].
  - destruct (f x) eqn:E.
    + split; [discriminate | intros H; inversion H; congruence].
    + rewrite IH. split; [intros H; constructor; assumption | intros H; inversion H; assumption].
Qed.

(** No row of the table is active exactly when no declared category
    has a threat. *)
Lemma no_active_row_iff results :
  List.filter (row_active results) action_rows = []
  <-> forall X, In X all_types -> count_type X (batch_threats results) = 0.
Proof.
  rewrite filter_nil_iff. unfold action_rows, row_active, all_types. split.
  - intros H X HX.
    repeat match goal with
           | H : Forall _ (_ :: _) |- _ => inversion H; clear H; subst
           end.
    cbn [existsb fst] in *.
    repeat match goal with
           | H : (_ || _)%bool = false |- _ => apply orb_false_elim in H; destruct H
           end.
    repeat match goal with
           | H : (0 <? _)%nat = false |- _ => apply Nat.ltb_ge in H
           end.
    simpl in HX. repeat destruct HX as [<-|HX]; lia || contradiction.
  - intros H.
    repeat (apply List.Forall_cons; [cbn [existsb fst]; rewrite !H by (simpl; auto 8);
                                     reflexivity|]).
    apply List.Forall_nil.
Qed.

Lemma only_undeclared_iff results :
  only_undeclared results
  <-> forall X, In X all_types -> count_type X (batch_threats results) = 0.
Proof.
  unfold only_undeclared. split.
  - intros H X HX. destruct (count_type X (batch_threats results)) as [|n] eqn:E;
      [reflexivity|]. exfalso.
    assert (Hpos : 0 < count_type X (batch_threats results)) by lia.
    apply count_type_pos in Hpos. destruct Hpos as (t & Ht & <-). exact (H t Ht HX).
  - intros H t Ht HX. specialize (H _ HX).
    assert (Hpos : 0 < count_type (Type_ t) (batch_threats results))
      by (apply count_type_pos; exists t; auto).
    lia.
Qed.

(** The footer in terms of the batch. *)
Lemma footer_spec results project version now :
  FooterBlocks (GenerateReport results project version now)
  = match List.filter (row_active results) action_rows with
    | [] => []
    | _ :: _ =>
      [mkBlock "kv_pairs" "ACTION ITEMS"
         (numbered 1 (List.filter (row_active results) action_rows)) [] EmptyString]
    end.
Proof.
  change (FooterBlocks (GenerateReport results project version now))
    with (footer_blocks (count_totals results)).
  unfold footer_blocks. rewrite has_threats, action_items_spec.
  destruct (List.filter (row_active results) action_rows) as [|row rows] eqn:Er.
  - destruct (negb _); reflexivity.
  - assert (Hne : batch_threats results <> []).
    { intros E. assert (Hno : List.filter (row_active results) action_rows = []).
      { apply no_active_row_iff. intros X _. rewrite E. reflexivity. }
      congruence. }
    destruct (batch_threats results); [contradiction | reflexivity].
Qed.

(** C8, as amended.  When the status is not GO the footer lists the
    rows of a fixed six-row table that have at least one threat,
    numbered from 1 in table order, in one block titled ACTION ITEMS:
    Script and EventHandler share the single CRITICAL line, then
    ExternalRef (HIGH), XMLEntity (HIGH), Animation (MEDIUM), StyleBlock
    (LOW) and Link (MEDIUM).  The block is left out when no row has a
    threat, which happens exactly when every threat of the batch
    carries a ThreatType outside the seven declared categories.  Every
    line ends with the severity of each category it stands for. *)
Theorem C8_action_items_by_row (results : list Result) (project version now : string) :
  let rep := GenerateReport results project version now in
  TeamReport_Status rep <> StatusGo ->
  let rows := List.filter (row_active results) action_rows in
  FooterBlocks rep
  = match rows with
    | [] => []
    | _ :: _ => [mkBlock "kv_pairs" "ACTION ITEMS" (numbered 1 rows) [] EmptyString]
    end /\
  (rows = [] <-> only_undeclared results) /\
  Forall (fun row => Forall (fun X => HasSuffix (snd (fst row)) (severity_tag X) = true
                                      /\ ToLower (severity_tag X) = "(" ++ Severity X ++ ")")
                       (fst (fst row))) action_rows.
Proof.
  intros rep Hst rows. split; [apply footer_spec|]. split.
  - unfold rows. rewrite no_active_row_iff, only_undeclared_iff. reflexivity.
  - unfold action_rows. repeat constructor.
Qed.

Lemma C2_status_by_severity_witness :
  TeamReport_Status (GenerateReport [] "brandkit" "1" "t") = StatusGo /\
  TeamReport_Status (GenerateReport script_and_handler_batch "brandkit" "1" "t")
  = StatusNoGo /\
  TeamReport_Status (GenerateReport style_and_link_batch "brandkit" "1" "t")
  = StatusWarn /\
  TeamReport_Status (GenerateReport style_only_batch "brandkit" "1" "t") = StatusWarn.
Proof.
  split; [|split; [|split]].
  - destruct (C2_status_by_severity [] "brandkit" "1" "t") as (H & _).
    apply H. reflexivity.
  - destruct (C2_status_by_severity script_and_handler_batch "brandkit" "1" "t")
      as (_ & H & _).
    apply H. exists (mkThreat ThreatScript "script element" "<script>x</script>").
    simpl. auto.
  - destruct (C2_status_by_severity style_and_link_batch "brandkit" "1" "t")
      as (_ & _ & H & _).
    apply H; [discriminate|].
    unfold medium_or_low. simpl. intros t [<-|[<-|[]]]; simpl; auto.
  - destruct (C2_status_by_severity style_only_batch "brandkit" "1" "t")
      as (_ & _ & _ & H & _).
    apply H; [discriminate|].
    simpl. intros t [<-|[]]. reflexivity.
Defined.

(** C8 as worded fails.  A batch with a Script and an EventHandler
    threat has two categories with threats but a single action line;
    a batch with a StyleBlock and a Link threat lists the LOW line
    before the MEDIUM one. *)
Lemma C8_one_line_per_category_fails :
  ~ one_line_per_category script_and_handler_batch /\
  ~ one_line_per_category style_and_link_batch.
Proof.
  split; intros H.
  - destruct H as (blk & Hblk & Hlen & _); [discriminate|].
    injection Hblk as <-. discriminate Hlen.
  - destruct H as (blk & Hblk & _ & Hord); [discriminate|].
    injection Hblk as <-. discriminate Hord.
Qed.

Lemma C8_action_items_by_row_witness :
  FooterBlocks (GenerateReport script_and_handler_batch "brandkit" "1" "t")
  = [mkBlock "kv_pairs" "ACTION ITEMS"
       [mkKV "1" "Remove all script elements and event handlers (CRITICAL)" red]
       [] EmptyString] /\
  (TeamReport_Status (GenerateReport undeclared_type_batch "brandkit" "1" "t")
   = StatusWarn /\
   FooterBlocks (GenerateReport undeclared_type_batch "brandkit" "1" "t") = []).
Proof.
  split.
  - destruct (C8_action_items_by_row script_and_handler_batch "brandkit" "1" "t")
      as (H & _); [discriminate|].
    exact H.
  - split; [reflexivity|].
    destruct (C8_action_items_by_row undeclared_type_batch "brandkit" "1" "t")
      as (H & _); [discriminate|].
    exact H.
Defined.

End ReportFacts.

(* ================================================================== *)
(** ** Properties of the scanner                                       *)
(* ================================================================== *)

Module ScanFacts.
Import Regexp Security Notions ReportFacts.

Lemma for_each_app {A S : Type} (body : S -> A -> option S) xs ys st :
  for_each body (xs ++ ys) st
  = match for_each body xs st with
    | None => None
    | Some st' => for_each body ys st'
    end.
Proof.
  revert st. induction xs as [|x xs IH]; intros st; simpl; [reflexivity|].
  destruct (body st x); [apply IH | reflexivity].
Qed.

Lemma for_each_map {A B S : Type} (body : S -> B -> option S) (f : A -> B) xs st :
  for_each (fun s a => body s (f a)) xs st = for_each body (map f xs) st.
Proof.
  revert st. induction xs as [|x xs IH]; intros st; simpl; [reflexivity|].
  destruct (body st (f x)); [apply IH | reflexivity].
Qed.

(** The two nested loops of the scanner record, one by one, the
    threats of [scan_threats]. *)
Lemma scan_loops_flatten content ps r :
  for_each (scan_pattern content) ps r
  = for_each record_threat (scan_threats content ps) r.
Proof.
  revert r. induction ps as [|p ps IH]; intros r; [reflexivity|].
  cbn [for_each]. unfold scan_threats; cbn [flat_map]. rewrite for_each_app.
  unfold scan_pattern at 1. rewrite for_each_map.
  destruct (for_each record_threat _ r); [apply IH | reflexivity].
Qed.

(** Recording threats into a Result whose map is allocated never
    panics; it appends the threats, adds them to the counters, keeps
    the path and the errors, and clears the secure flag if there is
    any threat. *)
Lemma record_all ts r :
  ThreatCounts r <> None ->
  exists r', for_each record_threat ts r = Some r'
    /\ Threats r' = (Threats r ++ ts)%list
    /\ (forall X, count_of (ThreatCounts r') X
                  = (count_of (ThreatCounts r) X + Z.of_nat (count_type X ts))%Z)
    /\ ThreatCounts r' <> None
    /\ FilePath r' = FilePath r /\ Errors r' = Errors r
    /\ IsSecure r' = match ts with [] => IsSecure r | _ :: _ => false end.
Proof.
  revert r. induction ts as [|t ts IH]; intros r Hmap.
  - exists r. simpl. rewrite app_nil_r. repeat split; auto. intros X; lia.
  - cbn [for_each]. unfold record_threat at 1.
    destruct (ThreatCounts r) as [g|] eqn:Eg; [|contradiction].
    set (r1 := mkResult _ _ _ _ _).
    destruct (IH r1) as (r' & Hrun & Hth & Hcnt & Hm & Hp & He & Hs);
      [discriminate|].
    exists r'. split; [exact Hrun|]. split.
    { rewrite Hth. subst r1; simpl. rewrite <- app_assoc. reflexivity. }
    split.
    { intros X. rewrite Hcnt. subst r1; cbn [ThreatCounts count_of count_type].
      rewrite bump_lookup. destruct (decide (Type_ t = X)); lia. }
    split; [exact Hm|]. split; [exact Hp|]. split; [exact He|].
    rewrite Hs. subst r1; simpl. destruct ts; reflexivity.
Qed.

Lemma count_type_nil_start r :
  Threats r = [] -> ThreatCounts r = Some ∅ -> counts_consistent r.
Proof. intros Ht Hc X. rewrite Ht, Hc. simpl. rewrite lookup_empty. reflexivity. Qed.

(** A scan into a supplied Result with an allocated map returns, and
    keeps the count index in step with the threat list. *)
Lemma scan_preserves_consistency content r0 level :
  ThreatCounts r0 <> None -> counts_consistent r0 ->
  exists r, ScanContentWithLevel content (Some r0) level = Some r
    /\ counts_consistent r
    /\ Threats r = (Threats r0 ++ scan_threats content (patternsForLevel level))%list
    /\ FilePath r = FilePath r0 /\ Errors r = Errors r0.
Proof.
  intros Hmap Hcons. unfold ScanContentWithLevel. rewrite scan_loops_flatten.
  destruct (record_all (scan_threats content (patternsForLevel level)) r0 Hmap)
    as (r & Hrun & Hth & Hcnt & _ & Hp & He & _).
  exists r. split; [exact Hrun|]. split; [|auto].
  intros X. rewrite Hcnt, Hth, count_type_app, (Hcons X). lia.
Qed.

Lemma scan_fresh content path level :
  exists r, ScanContentWithLevel content (Some (fresh_result path)) level = Some r
    /\ counts_consistent r
    /\ Threats r = scan_threats content (patternsForLevel level)
    /\ FilePath r = path /\ Errors r = [].
Proof.
  destruct (scan_preserves_consistency content (fresh_result path) level)
    as (r & H1 & H2 & H3 & H4 & H5).
  - discriminate.
  - apply count_type_nil_start; reflexivity.
  - exists r. auto.
Qed.

Lemma strict_extends_standard :
  patternsForLevel ScanLevelStrict
  = (patternsForLevel ScanLevelStandard
     ++ (animationPatterns ++ styleBlockPatterns ++ linkPatterns))%list.
Proof. reflexivity. Qed.

Lemma scan_threats_app content ps qs :
  scan_threats content (ps ++ qs)
  = (scan_threats content ps ++ scan_threats content qs)%list.
Proof. unfold scan_threats. apply flat_map_app. Qed.

Lemma scan_threats_types content ps t :
  In t (scan_threats content ps) -> exists p, In p ps /\ Type_ t = threatType p.
Proof.
  unfold scan_threats. rewrite in_flat_map. intros (p & Hp & Ht).
  apply in_map_iff in Ht. destruct Ht as (m & <- & _). exists p. auto.
Qed.

(** C3.  For every content, the scans at Standard and at Strict level
    both return, and the threats of the Standard scan are the leading
    part of the threats of the Strict scan; hence every Standard threat
    is also a Strict threat.  The Standard threats are all of category
    Script, EventHandler, ExternalRef or XMLEntity. *)
Theorem C3_standard_subset_of_strict (content : string) :
  exists rs rt,
    ScanContentWithLevel content None ScanLevelStandard = Some rs /\
    ScanContentWithLevel content None ScanLevelStrict = Some rt /\
    (exists more, Threats rt = (Threats rs ++ more)%list) /\
    (forall t, In t (Threats rs) -> In t (Threats rt)) /\
    (forall t, In t (Threats rs) -> In (Type_ t) critical_or_high).
Proof.
  destruct (scan_fresh content "" ScanLevelStandard) as (rs & Hs & _ & Hts & _).
  destruct (scan_fresh content "" ScanLevelStrict) as (rt & Ht & _ & Htt & _).
  exists rs, rt. split; [exact Hs|]. split; [exact Ht|].
  assert (Hpre : Threats rt
                 = (Threats rs ++ scan_threats content
                      (animationPatterns ++ styleBlockPatterns ++ linkPatterns))%list).
  { rewrite Htt, Hts, strict_extends_standard. apply scan_threats_app. }
  split; [eexists; exact Hpre|]. split.
  - intros t Hin. rewrite Hpre. apply in_or_app. auto.
  - intros t Hin. rewrite Hts in Hin.
    destruct (scan_threats_types _ _ _ Hin) as (p & Hp & ->).
    unfold critical_or_high.
    repeat (destruct Hp as [<-|Hp]; [simpl; auto 6|]). destruct Hp.
Qed.

Section DirectoryScan.

Variable ReadFile : string -> res string.
Variable unread : string -> string -> Result.
Hypothesis unread_shape : forall path e,
  counts_consistent (unread path e) /\ IsSecure (unread path e) = false
  /\ Errors (unread path e) <> [] /\ FilePath (unread path e) = path.

(** The loop of a directory scan never panics and yields one Result
    per enumerated file, in order. *)
Lemma directory_loop files results0 :
  exists results,
    for_each (scan_file ReadFile unread) files results0 = Some (results0 ++ results)%list
    /\ Forall2 (file_outcome ReadFile unread) files results.
Proof.
  revert results0. induction files as [|f files IH]; intros results0.
  - exists []. rewrite app_nil_r. split; [reflexivity | constructor].
  - cbn [for_each]. unfold scan_file at 1. unfold SVG, SVGWithLevel.
    destruct (ReadFile f) as [content|e] eqn:Eread.
    + destruct (scan_fresh content f ScanLevelStrict) as (r & Hr & _).
      change (mkResult f true [] (Some ∅) []) with (fresh_result f). rewrite Hr.
      destruct (IH (results0 ++ [r])%list) as (rest & Hrest & Hall).
      exists (r :: rest). split.
      * rewrite Hrest, <- app_assoc. reflexivity.
      * constructor; [|exact Hall]. unfold file_outcome. rewrite Eread. exact Hr.
    + destruct (IH (results0 ++ [unread f ("failed to read file: " ++ e)])%list)
        as (rest & Hrest & Hall).
      exists (unread f ("failed to read file: " ++ e) :: rest). split.
      * rewrite Hrest, <- app_assoc. reflexivity.
      * constructor; [|exact Hall]. unfold file_outcome. rewrite Eread.
        destruct (unread_shape f ("failed to read file: " ++ e)) as (_ & H2 & H3 & H4).
        auto.
Qed.

Lemma file_outcome_consistent f r :
  file_outcome ReadFile unread f r -> counts_consistent r.
Proof.
  unfold file_outcome. destruct (ReadFile f) as [content|e].
  - intros Hr. destruct (scan_fresh content f ScanLevelStrict) as (r' & Hr' & Hc & _).
    congruence.
  - intros (-> & _). apply unread_shape.
Qed.

End DirectoryScan.

Lemma unread_plain_shape path e :
  counts_consistent (unread_plain path e) /\ IsSecure (unread_plain path e) = false
  /\ Errors (unread_plain path e) <> [] /\ FilePath (unread_plain path e) = path.
Proof.
  split; [intros X; reflexivity|]. repeat split; discriminate.
Qed.

Lemma unread_with_map_shape path e :
  counts_consistent (unread_with_map path e)
  /\ IsSecure (unread_with_map path e) = false
  /\ Errors (unread_with_map path e) <> [] /\ FilePath (unread_with_map path e) = path.
Proof.
  split; [intros X; simpl; rewrite lookup_empty; reflexivity|].
  repeat split; discriminate.
Qed.

(** C9.  A directory scan, recursive or not, whose file listing
    succeeded returns one Result per enumerated file, in order.  For a
    file that cannot be read the Result has the secure flag false, a
    non-empty error list and the path of that file; for every other
    file the Result is the Strict scan of its content, whatever
    happened to its neighbours. *)
Theorem C9_read_failure_stays_per_file
  (ReadFile : string -> res string) (ReadDir : string -> res (list DirEntry))
  (WalkDir : string -> list visit) (Join : string -> string -> string)
  (dirPath : string) :
  (forall files, ListSVGFiles ReadDir Join dirPath = Ok files ->
     exists results, Directory ReadFile ReadDir Join dirPath = Some (Ok results)
       /\ Forall2 (file_outcome ReadFile unread_plain) files results) /\
  (forall files, ListSVGFilesRecursive WalkDir dirPath = Ok files ->
     exists results, DirectoryRecursive ReadFile WalkDir dirPath = Some (Ok results)
       /\ Forall2 (file_outcome ReadFile unread_with_map) files results).
Proof.
  split; intros files Hlist.
  - unfold Directory. rewrite Hlist.
    destruct (directory_loop ReadFile unread_plain unread_plain_shape files [])
      as (results & Hrun & Hall).
    exists results. rewrite Hrun. auto.
  - unfold DirectoryRecursive. rewrite Hlist.
    destruct (directory_loop ReadFile unread_with_map unread_with_map_shape files [])
      as (results & Hrun & Hall).
    exists results. rewrite Hrun. auto.
Qed.

Lemma C9_read_failure_stays_per_file_witness :
  exists results,
    Directory demo_ReadFile demo_ReadDir demo_Join "icons" = Some (Ok results)
    /\ Forall2 (file_outcome demo_ReadFile unread_plain)
         ["icons/a.svg"; "icons/b.SVG"] results.
Proof.
  destruct (C9_read_failure_stays_per_file demo_ReadFile demo_ReadDir demo_WalkDir
              demo_Join "icons") as (H & _).
  apply H. reflexivity.
Defined.

(** C4.  In every Result a scan produces, the count stored for a
    category equals the number of threats of that category in the
    threat list: for an in-memory scan that makes its own Result, for
    an in-memory scan that adds to a Result in which this already
    holds (and whose map is allocated), for a file scan, and for every
    Result of a directory scan, recursive or not.  None of these scans
    panics. *)
Theorem C4_counts_match_threat_list :
  (forall content level,
     exists r, ScanContentWithLevel content None level = Some r
               /\ counts_consistent r) /\
  (forall content level r0,
     ThreatCounts r0 <> None -> counts_consistent r0 ->
     exists r, ScanContentWithLevel content (Some r0) level = Some r
               /\ counts_consistent r) /\
  (forall ReadFile filePath level,
     match SVGWithLevel ReadFile filePath level with
     | Some (Ok r) => counts_consistent r
     | Some (Err _) => True
     | None => False
     end) /\
  (forall ReadFile ReadDir Join dirPath,
     match Directory ReadFile ReadDir Join dirPath with
     | Some (Ok results) => Forall counts_consistent results
     | Some (Err _) => True
     | None => False
     end) /\
  (forall ReadFile WalkDir dirPath,
     match DirectoryRecursive ReadFile WalkDir dirPath with
     | Some (Ok results) => Forall counts_consistent results
     | Some (Err _) => True
     | None => False
     end).
Proof.
  split; [|split; [|split; [|split]]].
  - intros content level.
    destruct (scan_fresh content "" level) as (r & Hr & Hc & _). exists r. auto.
  - intros content level r0 Hmap Hcons.
    destruct (scan_preserves_consistency content r0 level Hmap Hcons)
      as (r & Hr & Hc & _).
    exists r. auto.
  - intros ReadFile filePath level. unfold SVGWithLevel.
    destruct (ReadFile filePath) as [content|e]; [|exact I].
    destruct (scan_fresh content filePath level) as (r & Hr & Hc & _).
    change (mkResult filePath true [] (Some ∅) []) with (fresh_result filePath).
    rewrite Hr. exact Hc.
  - intros ReadFile ReadDir Join dirPath. unfold Directory.
    destruct (ListSVGFiles ReadDir Join dirPath) as [files|e]; [|exact I].
    destruct (directory_loop ReadFile unread_plain unread_plain_shape files [])
      as (results & Hrun & Hall).
    rewrite Hrun. simpl. clear Hrun. induction Hall; constructor; auto.
    eapply file_outcome_consistent; [apply unread_plain_shape | eassumption].
  - intros ReadFile WalkDir dirPath. unfold DirectoryRecursive.
    destruct (ListSVGFilesRecursive WalkDir dirPath) as [files|e]; [|exact I].
    destruct (directory_loop ReadFile unread_with_map unread_with_map_shape files [])
      as (results & Hrun & Hall).
    rewrite Hrun. simpl. clear Hrun. induction Hall; constructor; auto.
    eapply file_outcome_consistent; [apply unread_with_map_shape | eassumption].
Qed.

Lemma C4_counts_match_threat_list_witness :
  exists r,
    ScanContentWithLevel scenario_A (Some caller_made_result) ScanLevelStrict = Some r
    /\ counts_consistent r.
Proof.
  destruct C4_counts_match_threat_list as (_ & H & _).
  apply H.
  - discriminate.
  - intros X. reflexivity.
Defined.

End ScanFacts.

(* ================================================================== *)
(** ** Properties of the matching loop                                 *)
(* ================================================================== *)

Module RegexpFacts.
Import Utf8 Regexp Notions.

Lemma decode_width_pos (s : list ascii) :
  s <> [] -> 1 <= snd (DecodeRuneInString s).
Proof.
  destruct s as [|b0 t]; [contradiction|]. intros _.
  unfold DecodeRuneInString.
  repeat match goal with
         | |- context [if ?b then _ else _] => destruct b
         | |- context [match ?x with _ => _ end] => destruct x
         end; simpl; lia.
Qed.

(** Cutting a byte sequence into runes loses no byte. *)
Lemma bytes_runes_from (s : list ascii) (k : nat) :
  bytes (runes_from k s) = skipn k s.
Proof.
  revert k. induction s as [|b rest IH]; intros k.
  - destruct k; reflexivity.
  - destruct k as [|k]; cbn [runes_from skipn]; [|apply IH].
    pose proof (decode_width_pos (b :: rest)) as Hw.
    destruct (DecodeRuneInString (b :: rest)) as [r w]. simpl in Hw.
    destruct w as [|w]; [exfalso; assert (1 <= 0) by (apply Hw; discriminate); lia|].
    unfold bytes in *. cbn [flat_map raw firstn Nat.pred]. rewrite IH.
    simpl. f_equal. apply firstn_skipn.
Qed.

Lemma text_runes (s : string) : text (runes s) = s.
Proof.
  unfold text, runes. rewrite bytes_runes_from. simpl.
  apply string_of_list_ascii_of_string.
Qed.

(** When the loop delivers no match, it only walks over the subject. *)
Lemma pieces_without_hits re prev s :
  hits (pieces re prev 0 false s) = [] ->
  pieces re prev 0 false s = map Gap s.
Proof.
  revert prev. induction s as [|t s IH]; intros prev; cbn [pieces].
  - destruct (match_here re prev []) as [[rest cs]|]; [|reflexivity].
    destruct (length [] - length rest)%nat; simpl; discriminate.
  - destruct (match_here re prev (t :: s)) as [[rest cs]|].
    + destruct (length (t :: s) - length rest)%nat; simpl; discriminate.
    + simpl. intros H. rewrite IH by exact H. reflexivity.
Qed.

(** A pattern that matches nowhere leaves the text as it is. *)
Lemma replace_without_match re src repl :
  FindAllString re src = [] -> ReplaceAllString re src repl = src.
Proof.
  unfold FindAllString, ReplaceAllString, split_matches. intros H.
  apply map_eq_nil in H. rewrite (pieces_without_hits _ _ _ H).
  transitivity (text (runes src)); [|apply text_runes].
  unfold text, bytes. f_equal. clear H.
  induction (runes src) as [|t ts IH]; simpl; [reflexivity|]. rewrite IH. reflexivity.
Qed.

(** If no match is delivered, the pattern matches at no position. *)
Lemma no_hits_no_match re s prev :
  hits (pieces re prev 0 false s) = [] ->
  forall s1 s2, s = (s1 ++ s2)%list -> match_here re (last_word prev s1) s2 = None.
Proof.
  revert prev. induction s as [|t s IH]; intros prev Hh s1 s2 Hs.
  - destruct s1; [|discriminate]. simpl in Hs. subst s2. simpl.
    cbn [pieces] in Hh. destruct (match_here re prev []) as [[rest cs]|]; [|reflexivity].
    destruct (length [] - length rest)%nat; simpl in Hh; discriminate.
  - cbn [pieces] in Hh.
    destruct (match_here re prev (t :: s)) as [[rest cs]|] eqn:Em.
    { destruct (length (t :: s) - length rest)%nat; simpl in Hh; discriminate. }
    destruct s1 as [|t1 s1].
    + simpl in Hs. subst s2. exact Em.
    + injection Hs as <- Hs. simpl. apply IH; assumption.
Qed.

(** If a match is delivered, the pattern matches at some position. *)
Lemma some_hit_some_match re s prev skip after :
  hits (pieces re prev skip after s) <> [] ->
  exists s1 s2, s = (s1 ++ s2)%list /\ match_here re (last_word prev s1) s2 <> None.
Proof.
  revert prev skip after. induction s as [|t s IH]; intros prev skip after Hh.
  - destruct skip; cbn [pieces] in Hh; [|contradiction].
    exists [], []. split; [reflexivity|]. simpl.
    destruct (match_here re prev []); [discriminate | contradiction].
  - destruct skip as [|k]; cbn [pieces] in Hh.
    + destruct (match_here re prev (t :: s)) as [[rest cs]|] eqn:Em.
      * exists [], (t :: s). split; [reflexivity|]. simpl. rewrite Em. discriminate.
      * simpl in Hh. destruct (IH _ _ _ Hh) as (s1 & s2 & -> & Hm).
        exists (t :: s1), s2. auto.
    + destruct (IH _ _ _ Hh) as (s1 & s2 & -> & Hm). exists (t :: s1), s2. auto.
Qed.

Lemma find_none_iff re src :
  FindAllString re src = [] <-> matches_nowhere re false (Utf8.runes src).
Proof.
  unfold FindAllString, split_matches. split.
  - intros H. apply map_eq_nil in H. intros s1 s2 Hs.
    eapply no_hits_no_match; eassumption.
  - intros Hno.
    destruct (hits (pieces re false 0 false (Utf8.runes src))) as [|h hs] eqn:E;
      [reflexivity|]. exfalso.
    destruct (some_hit_some_match re (Utf8.runes src) false 0 false)
      as (s1 & s2 & Hs & Hm); [rewrite E; discriminate|].
    apply Hm, Hno, Hs.
Qed.

(** A pattern that matches only where another one matches, possibly
    a few runes further on, matches nowhere if the other does not. *)
Lemma nowhere_transfers re1 re2 prev0 ts :
  (forall prev s, match_here re1 prev s <> None ->
     exists s1 s2, s = (s1 ++ s2)%list /\ match_here re2 (last_word prev s1) s2 <> None) ->
  matches_nowhere re2 prev0 ts -> matches_nowhere re1 prev0 ts.
Proof.
  intros Hinc H2 s1 s2 Hs.
  destruct (match_here re1 (last_word prev0 s1) s2) eqn:E; [|reflexivity]. exfalso.
  destruct (Hinc (last_word prev0 s1) s2) as (u1 & u2 & -> & Hm); [rewrite E; discriminate|].
  apply Hm. unfold last_word. rewrite <- fold_left_app. apply H2.
  rewrite Hs, app_assoc. reflexivity.
Qed.

Lemma nowhere_transfers_here re1 re2 prev0 ts :
  (forall prev s, match_here re1 prev s <> None -> match_here re2 prev s <> None) ->
  matches_nowhere re2 prev0 ts -> matches_nowhere re1 prev0 ts.
Proof.
  intros Hinc. apply nowhere_transfers. intros prev s Hm.
  exists [], s. split; [reflexivity|]. apply Hinc, Hm.
Qed.

Lemma orelse_some a b : orelse a b <> None <-> a <> None \/ b <> None.
Proof.
  destruct a, b; simpl; split; intros H; auto; try discriminate;
    destruct H as [H|H]; auto; discriminate.
Qed.

Lemma star_greedy_widens c1 c2 k1 k2 :
  (forall r, c1 r = true -> c2 r = true) -> follows k1 k2 ->
  follows (star_greedy c1 k1) (star_greedy c2 k2).
Proof.
  intros Hc Hk prev s. revert prev.
  induction s as [|t s IH]; intros prev cs1 cs2; cbn [star_greedy]; [apply Hk|].
  destruct (c1 (Utf8.rune t)) eqn:E1.
  - rewrite (Hc _ E1), !orelse_some. intros [H|H]; [left | right]; eauto.
  - intros H. destruct (c2 (Utf8.rune t)); [|eauto].
    apply orelse_some. right. eauto.
Qed.

Lemma star_lazy_widens c1 c2 k1 k2 :
  (forall r, c1 r = true -> c2 r = true) -> follows k1 k2 ->
  follows (star_lazy c1 k1) (star_lazy c2 k2).
Proof.
  intros Hc Hk prev s. revert prev.
  induction s as [|t s IH]; intros prev cs1 cs2; cbn [star_lazy]; [apply Hk|].
  destruct (c1 (Utf8.rune t)) eqn:E1.
  - rewrite (Hc _ E1), !orelse_some. intros [H|H]; [left | right]; eauto.
  - intros H. destruct (c2 (Utf8.rune t)); [|eauto].
    apply orelse_some. left. eauto.
Qed.

(** Widening classes can only add matches. *)
Lemma run_widens r1 r2 :
  widens r1 r2 -> forall k1 k2, follows k1 k2 -> follows (run r1 k1) (run r2 k2).
Proof.
  induction 1; intros k1 k2 Hk; cbn [run].
  - exact Hk.
  - intros prev s cs1 cs2. destruct s as [|t s]; [auto|].
    destruct (c1 (Utf8.rune t)) eqn:E1; [|intros []; reflexivity].
    rewrite (H _ E1). apply Hk.
  - apply IHwidens1, IHwidens2, Hk.
  - intros prev s cs1 cs2. rewrite !orelse_some.
    intros [Ha|Hb]; [left; eapply IHwidens1 | right; eapply IHwidens2]; eauto.
  - apply star_greedy_widens; assumption.
  - apply star_lazy_widens; assumption.
  - intros prev s cs1 cs2. apply IHwidens. intros p' s' c1' c2'. apply Hk.
  - intros prev s cs1 cs2. destruct (xorb prev (next_is_word s)); [apply Hk | auto].
  - intros prev s cs1 cs2. destruct s as [|t s]; [intros []; reflexivity|].
    cbn [star_greedy]. destruct (c1 (Utf8.rune t)) eqn:E1; [|intros []; reflexivity].
    rewrite (H _ E1), orelse_some. intros Hs. left.
    eapply star_greedy_widens; eauto.
Qed.

Lemma match_here_widens r1 r2 :
  widens r1 r2 ->
  forall prev s, match_here r1 prev s <> None -> match_here r2 prev s <> None.
Proof.
  intros Hw prev s. unfold match_here.
  apply (run_widens _ _ Hw accept accept). intros p s' c1 c2 _. discriminate.
Qed.

Lemma widens_refl r : widens r r.
Proof.
  induction r; [constructor | constructor; auto | apply widens_cat; assumption
               | constructor; assumption | constructor; auto | constructor; auto
               | constructor; assumption | constructor].
Qed.

Lemma run_follows r k1 k2 : follows k1 k2 -> follows (run r k1) (run r k2).
Proof. apply run_widens, widens_refl. Qed.

Lemma follows_trans k1 k2 k3 : follows k1 k2 -> follows k2 k3 -> follows k1 k3.
Proof. intros H12 H23 prev s cs1 cs3 H. eapply H23, (H12 prev s cs1 []), H. Qed.

Lemma accept_follows : follows accept accept.
Proof. intros prev s cs1 cs2 _. discriminate. Qed.

(** Putting the head of a sequence into a capture group changes the
    submatches, not whether the sequence matches. *)
Lemma regroup n g rest k :
  follows k k -> follows (run (Cat g rest) k) (run (Cat (Group n g) rest) k).
Proof.
  intros Hk prev s cs1 cs2. cbn [run]. apply run_follows.
  intros p s' c1 c2. apply run_follows. exact Hk.
Qed.

Lemma follows_match_here r1 r2 :
  follows (run r1 accept) (run r2 accept) ->
  forall prev s, match_here r1 prev s <> None -> match_here r2 prev s <> None.
Proof. intros H prev s. apply H. Qed.

End RegexpFacts.

(* ================================================================== *)
(** ** Properties of the sanitizer                                     *)
(* ================================================================== *)

Module SanitizeFacts.
Import Regexp Syntax Security Notions ScanFacts RegexpFacts.

Lemma apply_pattern_eq s ts p :
  apply_pattern (s, ts) p
  = (ReplaceAllString (spattern p) s (replacement p),
     (ts ++ map (removed_threat p) (FindAllString (spattern p) s))%list).
Proof. reflexivity. Qed.

(** The log of removed threats only grows along the rules. *)
Lemma threats_grow ps s ts :
  exists more, snd (fold_left apply_pattern ps (s, ts)) = (ts ++ more)%list.
Proof.
  revert s ts. induction ps as [|p ps IH]; intros s ts; cbn [fold_left].
  - exists []. simpl. rewrite app_nil_r. reflexivity.
  - rewrite apply_pattern_eq.
    destruct (IH (ReplaceAllString (spattern p) s (replacement p))
                 (ts ++ map (removed_threat p) (FindAllString (spattern p) s))%list)
      as (more & Hmore).
    rewrite Hmore, <- app_assoc. eexists. reflexivity.
Qed.

(** A pass that records nothing found no match of any selected rule
    and returns the text unchanged. *)
Lemma quiet_pass ps s :
  snd (fold_left apply_pattern ps (s, [])) = [] ->
  fold_left apply_pattern ps (s, []) = (s, [])
  /\ Forall (fun p => FindAllString (spattern p) s = []) ps.
Proof.
  revert s. induction ps as [|p ps IH]; intros s; cbn [fold_left].
  - intros _. split; [reflexivity | constructor].
  - rewrite apply_pattern_eq. cbn [app]. intros Hq.
    destruct (FindAllString (spattern p) s) as [|m ms] eqn:Em.
    + cbn [map] in Hq |- *.
      rewrite (replace_without_match _ _ (replacement p) Em) in Hq |- *.
      destruct (IH s Hq) as (Hfix & Hall). split; [exact Hfix|].
      constructor; [exact Em | exact Hall].
    + exfalso.
      destruct (threats_grow ps (ReplaceAllString (spattern p) s (replacement p))
                  (map (removed_threat p) (m :: ms))) as (more & Hmore).
      rewrite Hmore in Hq. discriminate Hq.
Qed.

(** C7: the code at the failing input.  On the event handlers of
    Scenario C a second pass removes nothing.  On a script element
    nested in the name of another, the first pass with RemoveScripts
    deletes the inner element and so joins its surroundings into a
    script element, which it returns; the second pass removes that one
    and reports Sanitized, and only the third pass is quiet.  The same
    happens with RemoveAll and a handler split by another handler. *)
Theorem C7_nested_script_needs_second_pass :
  second_pass_removes_nothing scenario_C only_handlers /\
  fst (SanitizeContent nested_script only_scripts) = "<script>alert(1)</script>" /\
  Sanitized (fst (SanitizeContent nested_script only_scripts)) only_scripts = true /\
  map Match (snd (SanitizeContent (fst (SanitizeContent nested_script only_scripts))
                    only_scripts))
  = ["<script>alert(1)</script>"] /\
  ~ second_pass_removes_nothing nested_script only_scripts /\
  ~ second_pass_removes_nothing split_handler DefaultSanitizeOptions.
Proof.
  split; [vm_compute; reflexivity|]. split; [vm_compute; reflexivity|].
  split; [vm_compute; reflexivity|]. split; [vm_compute; reflexivity|].
  split; unfold second_pass_removes_nothing; vm_compute; discriminate.
Qed.

(** The threats of a fresh Strict scan, for refuting by evaluation. *)
Lemma strict_scan_threats content r :
  ScanContentWithLevel content None ScanLevelStrict = Some r ->
  Threats r = scan_threats content (patternsForLevel ScanLevelStrict).
Proof.
  intros Hr. destruct (scan_fresh content "" ScanLevelStrict) as (r' & Hr' & _ & Hth & _).
  change (ScanContentWithLevel content (Some (fresh_result "")) ScanLevelStrict)
    with (ScanContentWithLevel content None ScanLevelStrict) in Hr'.
  congruence.
Qed.

(** C1: the code at the failing input.  The file of the repository's
    own test comes out of a RemoveAll pass clean, as the test demands.
    A handler split by another handler does not: the pass deletes the
    inner handler, returns the text in which the remnants have joined
    into onclick=DQ evil() DQ, and the Strict scan of that output
    reports an EventHandler threat.  In the same way a script element
    nested in the name of another leaves a script element behind, which
    the scan reports as a Script threat. *)
Theorem C1_split_handler_survives_sanitizing :
  observed (ScanContentWithLevel
              (fst (SanitizeContent sanitize_test_file DefaultSanitizeOptions)) None
              ScanLevelStrict)
  = Some (true, []) /\
  fst (SanitizeContent split_handler DefaultSanitizeOptions)
  = "<rect onclick=" ++ quoted "evil()" ++ "/>" /\
  observed (ScanContentWithLevel
              (fst (SanitizeContent split_handler DefaultSanitizeOptions)) None
              ScanLevelStrict)
  = Some (false, [(ThreatEventHandler, "event handler attribute")]) /\
  fst (SanitizeContent nested_script DefaultSanitizeOptions)
  = "<script>alert(1)</script>" /\
  observed (ScanContentWithLevel
              (fst (SanitizeContent nested_script DefaultSanitizeOptions)) None
              ScanLevelStrict)
  = Some (false, [(ThreatScript, "script element")]) /\
  ~ clean_after_sanitize split_handler /\
  ~ clean_after_sanitize nested_script.
Proof.
  split; [vm_compute; reflexivity|]. split; [vm_compute; reflexivity|].
  split; [vm_compute; reflexivity|]. split; [vm_compute; reflexivity|].
  split; [vm_compute; reflexivity|].
  split; intros (r & Hr & Hclean);
    apply strict_scan_threats in Hr;
    match type of Hr with _ = ?rhs => remember rhs as found eqn:Efound end;
    vm_compute in Efound; subst found;
    (eapply Hclean; [rewrite Hr; left; reflexivity|]);
    unfold critical_or_high; simpl; auto.
Qed.

(** C6: the code at the failing input.  The one-line script of
    Scenario A is reported as one Script threat, but the same element
    with its body on lines of its own is not reported at all and the
    text is declared secure, although the sanitizer's rule for script
    elements does match it. *)
Theorem C6_multiline_script_goes_undetected :
  observed (ScanContentWithLevel scenario_A None ScanLevelStrict)
  = Some (false, [(ThreatScript, "script element")]) /\
  observed (ScanContentWithLevel multiline_script None ScanLevelStrict)
  = Some (true, []) /\
  map Description (snd (SanitizeContent multiline_script only_scripts))
  = ["script element"].
Proof. repeat split; vm_compute; reflexivity. Qed.

(** C5: the code at the failing input.  The double-quoted hrefs of
    Scenario E become a hash sign between double quotes and both
    elements stay; a single-quoted href keeps its opening single quote
    but is closed by a double quote, for external and script URIs
    alike. *)
Theorem C5_single_quoted_href_loses_its_quote :
  fst (SanitizeContent scenario_E only_external)
  = "<svg><a href=" ++ quoted "#" ++ "><image href=" ++ quoted "#" ++ "/></a></svg>" /\
  fst (SanitizeContent scenario_E_single only_external)
  = "<svg><a href='#" ++ sdq ++ "><image href='#" ++ sdq ++ "/></a></svg>" /\
  fst (SanitizeContent single_quoted_script_uri only_scripts)
  = "<a href='#" ++ sdq ++ ">x</a>".
Proof. repeat split; vm_compute; reflexivity. Qed.

Ltac widen :=
  repeat first
    [ apply widens_refl
    | apply widens_cat
    | apply widens_plus; intros ? ?; assumption
    | apply widens_lazy; intros ? ?; reflexivity ].

(** The sanitizer's script-element rule lets its dot cross newlines. *)
Lemma script_element_covered prev s :
  match_here (seq [lit_i "<script"; WordB; Star not_gt; lit_i ">";
                   StarLazy dot; lit_i "</script>"]) prev s <> None ->
  match_here (seq [lit_i "<script"; WordB; Star not_gt; lit_i ">";
                   StarLazy dot_s; lit_i "</script>"]) prev s <> None.
Proof. apply match_here_widens. unfold seq; cbn [fold_right]. widen. Qed.

(** The removal rule for an external href also takes an empty rest
    after the scheme, and captures the opening of the attribute. *)
Lemma external_href_covered name prev s :
  match_here (seq [lit_i name; eq_sign; quote; http_scheme; plus not_quote; quote])
    prev s <> None ->
  match_here (seq [href_open name; http_scheme; Star not_quote; quote]) prev s <> None.
Proof.
  apply follows_match_here.
  apply (follows_trans _
           (run (Cat (seq [lit_i name; eq_sign; quote])
                     (seq [http_scheme; Star not_quote; quote])) accept)).
  - change (run (Cat (seq [lit_i name; eq_sign; quote])
                     (seq [http_scheme; Star not_quote; quote])) accept)
      with (run (seq [lit_i name; eq_sign; quote; http_scheme; Star not_quote; quote])
              accept).
    apply run_widens; [|apply accept_follows]. unfold seq, plus; cbn [fold_right]. widen.
  - apply regroup, accept_follows.
Qed.

Ltac consume H :=
  match type of H with
  | match ?s with [] => None | _ :: _ => _ end <> None =>
    destruct s as [|? ?]; [exfalso; apply H; reflexivity|]
  end;
  match type of H with
  | (if ?b then _ else None) <> None =>
    destruct b; [|exfalso; apply H; reflexivity]
  end.

(** An xlink:href attribute ends in an href attribute. *)
Lemma xlink_href_ends_in_href prev s :
  match_here (seq [lit_i "xlink:href"; eq_sign; quote; http_scheme; plus not_quote; quote])
    prev s <> None ->
  exists s1 s2, s = (s1 ++ s2)%list /\
    match_here (seq [lit_i "href"; eq_sign; quote; http_scheme; plus not_quote; quote])
      (last_word prev s1) s2 <> None.
Proof.
  unfold match_here, seq; cbn [fold_right lit_i]. intros H.
  cbn [run] in H. do 6 consume H.
  eexists [_; _; _; _; _; _], _. split; [reflexivity|]. exact H.
Qed.

Lemma cat_tail a r1 r2 k1 k2 :
  follows (run r1 k1) (run r2 k2) -> follows (run (Cat a r1) k1) (run (Cat a r2) k2).
Proof. intros H. cbn [run]. apply run_follows, H. Qed.

(** The removal rule for a style URL captures its opening and takes
    an optional closing character after it. *)
Lemma style_url_covered prev s :
  match_here (seq [lit_i "url"; Star space; lit_i "("; Star space; opt quote;
                   http_scheme; plus (neg (oneof (")" ++ quotes)))]) prev s <> None ->
  match_here (seq [Group 1 (seq [lit_i "url"; Star space; lit_i "("; Star space;
                                 opt quote]);
                   http_scheme; plus (neg (oneof (")" ++ quotes)));
                   Group 2 (opt (Cls (oneof (")" ++ quotes))))]) prev s <> None.
Proof.
  apply follows_match_here.
  set (g := seq [lit_i "url"; Star space; lit_i "("; Star space; opt quote]).
  set (c := neg (oneof (")" ++ quotes))).
  apply (follows_trans _ (run (Cat (Group 1 g) (seq [http_scheme; plus c])) accept)).
  - apply (regroup 1 g (seq [http_scheme; plus c]) accept accept_follows).
  - unfold seq; cbn [fold_right]. do 3 apply cat_tail.
    intros p s' c1 c2 _. cbn [run opt]. apply orelse_some. right. discriminate.
Qed.

Ltac find_in :=
  solve [cbn [firstn skipn app]; repeat (first [left; reflexivity | right])].

(** A text in which no removal rule of RemoveAll matches holds no
    match of the covered detection rules either. *)
Lemma quiet_covers c :
  Forall (fun q => FindAllString (spattern q) c = [])
         (selected_patterns DefaultSanitizeOptions) ->
  Forall (fun p => FindAllString (pattern p) c = []) covered_detection.
Proof.
  intros Hall. rewrite List.Forall_forall in Hall.
  assert (Hq : forall q, In q (selected_patterns DefaultSanitizeOptions) ->
                         matches_nowhere (spattern q) false (Utf8.runes c))
    by (intros q Hin; apply find_none_iff, Hall, Hin).
  clear Hall. unfold covered_detection.
  cbn [firstn skipn app scriptPatterns eventHandlerPatterns externalRefPatterns].
  repeat first [apply List.Forall_nil | apply List.Forall_cons];
    cbn [pattern]; apply find_none_iff.
  - eapply nowhere_transfers_here; [apply script_element_covered|].
    apply (Hq (nth 0 scriptRemovalPatterns (mkSanitize Eps [] "" ThreatScript))). find_in.
  - apply (Hq (nth 1 scriptRemovalPatterns (mkSanitize Eps [] "" ThreatScript))). find_in.
  - apply (Hq (nth 0 eventHandlerRemovalPatterns (mkSanitize Eps [] "" ThreatScript))).
    find_in.
  - apply (Hq (nth 1 eventHandlerRemovalPatterns (mkSanitize Eps [] "" ThreatScript))).
    find_in.
  - apply (Hq (nth 2 eventHandlerRemovalPatterns (mkSanitize Eps [] "" ThreatScript))).
    find_in.
  - eapply nowhere_transfers_here; [apply external_href_covered|].
    apply (Hq (nth 0 externalRefRemovalPatterns (mkSanitize Eps [] "" ThreatScript))).
    find_in.
  - eapply nowhere_transfers; [apply xlink_href_ends_in_href|].
    eapply nowhere_transfers_here; [apply external_href_covered|].
    apply (Hq (nth 0 externalRefRemovalPatterns (mkSanitize Eps [] "" ThreatScript))).
    find_in.
  - eapply nowhere_transfers_here; [apply style_url_covered|].
    apply (Hq (nth 4 externalRefRemovalPatterns (mkSanitize Eps [] "" ThreatScript))).
    find_in.
Qed.

Lemma remove_all_selects o :
  RemoveAll o = true -> selected_patterns o = selected_patterns DefaultSanitizeOptions.
Proof. destruct o as [a b c d]. simpl. intros ->. reflexivity. Qed.

(** On a text in which no removal rule matches, the Strict scan finds
    only threats of the medium and low categories and threats of the
    uncovered kinds. *)
Lemma quiet_text_scan out t :
  Forall (fun p => FindAllString (pattern p) out = []) covered_detection ->
  In t (scan_threats out (patternsForLevel ScanLevelStrict)) ->
  Type_ t <> ThreatEventHandler /\
  ~ In (Description t) covered_kinds /\
  (In (Type_ t) critical_or_high -> In (Description t) uncovered_kinds).
Proof.
  intros Hcov Hin. rewrite List.Forall_forall in Hcov.
  unfold scan_threats in Hin. apply in_flat_map in Hin.
  destruct Hin as (p & Hp & Ht). apply in_map_iff in Ht. destruct Ht as (m & <- & Hm).
  unfold patternsForLevel in Hp.
  cbn [is_strict app scriptPatterns eventHandlerPatterns externalRefPatterns
       xmlEntityPatterns animationPatterns styleBlockPatterns linkPatterns] in Hp.
  repeat (destruct Hp as [<-|Hp];
          [first
             [ exfalso; rewrite Hcov in Hm; [exact Hm | unfold covered_detection; find_in]
             | cbn [threat_of Type_ Description desc threatType];
               unfold covered_kinds, uncovered_kinds, critical_or_high;
               split; [discriminate|]; split;
               [ intros Hk; simpl in Hk; intuition discriminate
               | intros Hc; simpl in Hc |- *; intuition discriminate ] ]|]).
  destruct Hp.
Qed.

(** The RemoveAll rules reach wherever the scanner reports one of the
    kinds they are written for.  If a RemoveAll pass over a text logs
    nothing, and so leaves it as it is, then the Strict scan of the
    text reports no EventHandler threat, no script element, no
    self-closing script element, no external href or xlink:href and no
    external URL in style; a threat of the four categories of RemoveAll
    that it does report is a javascript:, vbscript: or data:text/html
    URI, a foreignObject element, an external use reference, or a
    DOCTYPE or ENTITY declaration, for which the detection rule is
    wider than every removal rule. *)
Theorem unchanged_text_has_no_covered_threat (c : string) (o : SanitizeOptions) :
  RemoveAll o = true ->
  snd (SanitizeContent c o) = [] ->
  exists r,
    ScanContentWithLevel c None ScanLevelStrict = Some r /\
    forall t, In t (Threats r) ->
      Type_ t <> ThreatEventHandler /\
      ~ In (Description t) covered_kinds /\
      (In (Type_ t) critical_or_high -> In (Description t) uncovered_kinds).
Proof.
  intros Hall Hnil.
  unfold SanitizeContent in Hnil. rewrite (remove_all_selects o Hall) in Hnil.
  destruct (quiet_pass _ c Hnil) as (_ & Hrules).
  pose proof (quiet_covers c Hrules) as Hcov.
  destruct (scan_fresh c "" ScanLevelStrict) as (r & Hr & _ & Hth & _).
  exists r. split; [exact Hr|]. intros t Ht. rewrite Hth in Ht.
  apply (quiet_text_scan c t Hcov Ht).
Qed.

Lemma unchanged_text_has_no_covered_threat_witness :
  snd (SanitizeContent bare_javascript DefaultSanitizeOptions) = [] /\
  exists r,
    ScanContentWithLevel bare_javascript None ScanLevelStrict = Some r /\
    forall t, In t (Threats r) ->
      Type_ t <> ThreatEventHandler /\
      ~ In (Description t) covered_kinds /\
      (In (Type_ t) critical_or_high -> In (Description t) uncovered_kinds).
Proof.
  split; [vm_compute; reflexivity|].
  apply (unchanged_text_has_no_covered_threat bare_javascript DefaultSanitizeOptions).
  - reflexivity.
  - vm_compute. reflexivity.
Defined.

End SanitizeFacts.

(* ================================================================== *)
(** ** Further properties of the scanner                               *)
(* ================================================================== *)

Module ScanMore.
Import Regexp Syntax Security Notions MoreNotions ReportFacts ScanFacts.

Lemma string_length_append (a b : string) :
  String.length (a ++ b) = String.length a + String.length b.
Proof. induction a as [|c a IH]; simpl; [reflexivity|]. rewrite IH. reflexivity. Qed.

Lemma string_length_prefix (n : nat) (s : string) :
  String.length (String.substring 0 n s) = Nat.min n (String.length s).
Proof.
  revert n. induction s as [|c s IH]; intros n; destruct n; simpl; try reflexivity.
  rewrite IH. reflexivity.
Qed.

(** The display text of a match is the match itself when it fits the
    cap, and otherwise its first [maxLen] bytes and three dots. *)
Lemma truncate_length (maxLen : Z) (m : string) :
  (0 <= maxLen)%Z -> (len (truncate maxLen m) <= maxLen + 3)%Z.
Proof.
  intros Hpos. unfold truncate, len, prefix.
  destruct (Z.of_nat (String.length m) >? maxLen)%Z eqn:E.
  - rewrite string_length_append, string_length_prefix. simpl String.length. lia.
  - destruct (Z.gtb_spec (Z.of_nat (String.length m)) maxLen); [discriminate|]. lia.
Qed.

(** What a scan into a Result with an allocated map leaves in it. *)
Lemma scan_into content r0 level :
  ThreatCounts r0 <> None ->
  exists r, ScanContentWithLevel content (Some r0) level = Some r
    /\ Threats r = (Threats r0 ++ scan_threats content (patternsForLevel level))%list
    /\ (forall X, count_of (ThreatCounts r) X
                  = (count_of (ThreatCounts r0) X
                     + Z.of_nat (count_type X (scan_threats content
                                                 (patternsForLevel level))))%Z)
    /\ FilePath r = FilePath r0 /\ Errors r = Errors r0
    /\ IsSecure r = match scan_threats content (patternsForLevel level) with
                    | [] => IsSecure r0
                    | _ :: _ => false
                    end.
Proof.
  intros Hmap. unfold ScanContentWithLevel. rewrite scan_loops_flatten.
  destruct (record_all (scan_threats content (patternsForLevel level)) r0 Hmap)
    as (r & Hrun & Hth & Hcnt & _ & Hp & He & Hs).
  exists r. auto 10.
Qed.

Lemma scan_own content path level :
  exists r, ScanContentWithLevel content (Some (fresh_result path)) level = Some r
    /\ Threats r = scan_threats content (patternsForLevel level)
    /\ Errors r = []
    /\ IsSecure r = match Threats r with [] => true | _ :: _ => false end.
Proof.
  destruct (scan_into content (fresh_result path) level) as (r & Hr & Hth & _ & _ & He & Hs);
    [discriminate|].
  exists r. simpl in Hth. rewrite Hth. auto.
Qed.

Lemma secure_iff_clean r :
  Errors r = [] ->
  IsSecure r = match Threats r with [] => true | _ :: _ => false end ->
  (IsSecure r = true <-> Threats r = []) /\ (IsSuccess r = true <-> Threats r = []).
Proof.
  intros He Hs. unfold IsSuccess. rewrite He, Hs.
  destruct (Threats r); simpl; split; split; intros H; try reflexivity; discriminate.
Qed.

(** A scan that makes its own Result, in memory or from a file,
    returns a Result without errors whose secure flag is set exactly
    when the threat list is empty; IsSuccess then says the same. *)
Theorem scan_secure_iff_no_threat :
  (forall content level,
     exists r, ScanContentWithLevel content None level = Some r
       /\ Errors r = []
       /\ (IsSecure r = true <-> Threats r = [])
       /\ (IsSuccess r = true <-> Threats r = [])) /\
  (forall ReadFile filePath level,
     match SVGWithLevel ReadFile filePath level with
     | Some (Ok r) =>
       FilePath r = filePath /\ Errors r = []
       /\ (IsSecure r = true <-> Threats r = [])
       /\ (IsSuccess r = true <-> Threats r = [])
     | Some (Err e) => exists e0, ReadFile filePath = Err e0
     | None => False
     end).
Proof.
  split.
  - intros content level. destruct (scan_own content "" level) as (r & Hr & _ & He & Hs).
    exists r. split; [exact Hr|]. split; [exact He|]. apply secure_iff_clean; assumption.
  - intros ReadFile filePath level. unfold SVGWithLevel.
    destruct (ReadFile filePath) as [content|e0]; [|eauto].
    destruct (scan_own content filePath level) as (r & Hr & _ & He & Hs).
    destruct (scan_fresh content filePath level) as (r' & Hr' & _ & _ & Hp & _).
    change (mkResult filePath true [] (Some ∅) []) with (fresh_result filePath).
    rewrite Hr. assert (r' = r) by congruence. subst r'.
    split; [exact Hp|]. split; [exact He|]. apply secure_iff_clean; assumption.
Qed.

Lemma filter_keeps_all {A : Type} (f : A -> bool) l :
  (forall x, In x l -> f x = true) -> List.filter f l = l.
Proof.
  induction l as [|a l IH]; intros H; simpl; [reflexivity|].
  rewrite (H a) by (left; reflexivity). rewrite IH; [reflexivity|].
  intros x Hx. apply H. right. exact Hx.
Qed.

Lemma filter_drops_all {A : Type} (f : A -> bool) l :
  (forall x, In x l -> f x = false) -> List.filter f l = [].
Proof.
  induction l as [|a l IH]; intros H; simpl; [reflexivity|].
  rewrite (H a) by (left; reflexivity). apply IH.
  intros x Hx. apply H. right. exact Hx.
Qed.

(** The threats of a Standard scan are exactly the threats of the
    Strict scan whose category has severity critical or high, in the
    same order. *)
Theorem standard_is_strict_filtered_by_severity (content : string) :
  exists rs rt,
    ScanContentWithLevel content None ScanLevelStandard = Some rs /\
    ScanContentWithLevel content None ScanLevelStrict = Some rt /\
    Threats rs = List.filter (fun t => severe (Type_ t)) (Threats rt).
Proof.
  destruct (scan_own content "" ScanLevelStandard) as (rs & Hs & Hts & _).
  destruct (scan_own content "" ScanLevelStrict) as (rt & Ht & Htt & _).
  exists rs, rt. split; [exact Hs|]. split; [exact Ht|].
  rewrite Htt, Hts, strict_extends_standard, scan_threats_app, List.filter_app.
  rewrite filter_keeps_all, filter_drops_all; [symmetry; apply app_nil_r| |].
  - intros t Hin. destruct (scan_threats_types _ _ _ Hin) as (p & Hp & ->).
    repeat (destruct Hp as [<-|Hp]; [reflexivity|]). destruct Hp.
  - intros t Hin. destruct (scan_threats_types _ _ _ Hin) as (p & Hp & ->).
    unfold patternsForLevel in Hp. cbn [is_strict app] in Hp.
    repeat (destruct Hp as [<-|Hp]; [reflexivity|]). destruct Hp.
Qed.

(** Scanning a second text into the Result of a first scan adds to
    it: the threats of the first scan followed by those a scan of the
    second text alone finds, every count the sum of the two, and the
    secure flag set only if both texts are clean. *)
Theorem scans_accumulate (c1 c2 : string) (l1 l2 : ScanLevel) :
  exists r1 r2 r12,
    ScanContentWithLevel c1 None l1 = Some r1 /\
    ScanContentWithLevel c2 None l2 = Some r2 /\
    ScanContentWithLevel c2 (Some r1) l2 = Some r12 /\
    Threats r12 = (Threats r1 ++ Threats r2)%list /\
    (forall X, count_of (ThreatCounts r12) X
               = (count_of (ThreatCounts r1) X + count_of (ThreatCounts r2) X)%Z) /\
    IsSecure r12 = IsSecure r1 && IsSecure r2 /\
    counts_consistent r12.
Proof.
  destruct (scan_into c1 (fresh_result "") l1) as (r1 & H1 & Ht1 & Hc1 & _ & _ & Hs1);
    [discriminate|].
  destruct (scan_into c2 (fresh_result "") l2) as (r2 & H2 & Ht2 & Hc2 & _ & _ & Hs2);
    [discriminate|].
  destruct (scan_preserves_consistency c1 (fresh_result "") l1) as (r1' & H1' & Hk1 & _);
    [discriminate | apply count_type_nil_start; reflexivity |].
  assert (r1' = r1) by congruence. subst r1'.
  assert (Hmap : ThreatCounts r1 <> None).
  { unfold ScanContentWithLevel in H1. rewrite scan_loops_flatten in H1.
    destruct (record_all (scan_threats c1 (patternsForLevel l1)) (fresh_result ""))
      as (r & Hr & _ & _ & Hm & _); [discriminate|]. congruence. }
  destruct (scan_into c2 r1 l2 Hmap) as (r12 & H12 & Ht12 & Hc12 & _ & _ & Hs12).
  destruct (scan_preserves_consistency c2 r1 l2 Hmap Hk1) as (r12' & H12' & Hk12 & _).
  assert (r12' = r12) by congruence. subst r12'.
  exists r1, r2, r12. simpl in Ht2, Hc2, Hs2.
  split; [exact H1|]. split; [exact H2|]. split; [exact H12|]. split.
  { rewrite Ht12, Ht2. reflexivity. }
  split.
  { intros X. rewrite Hc12, Hc2. simpl. rewrite lookup_empty. simpl. lia. }
  split; [|exact Hk12].
  rewrite Hs12, Hs2. destruct (scan_threats c2 (patternsForLevel l2));
    [rewrite andb_true_r | rewrite andb_false_r]; reflexivity.
Qed.

Lemma record_into_nil_map ts r0 :
  ThreatCounts r0 = None ->
  for_each record_threat ts r0 = match ts with [] => Some r0 | _ :: _ => None end.
Proof.
  intros Hnil. destruct ts as [|t ts]; [reflexivity|].
  cbn [for_each]. unfold record_threat. rewrite Hnil. reflexivity.
Qed.

(** Scanning into a supplied Result whose count map is nil: if the
    text holds no match of the level's patterns the Result comes back
    as it was; at the first match the write to the nil map panics. *)
Theorem scan_into_nil_map (content : string) (level : ScanLevel) (r0 : Result) :
  ThreatCounts r0 = None ->
  exists r, ScanContentWithLevel content None level = Some r /\
    (Threats r = [] -> ScanContentWithLevel content (Some r0) level = Some r0) /\
    (Threats r <> [] -> ScanContentWithLevel content (Some r0) level = None).
Proof.
  intros Hnil. destruct (scan_own content "" level) as (r & Hr & Hth & _).
  exists r. split; [exact Hr|].
  unfold ScanContentWithLevel. rewrite scan_loops_flatten.
  rewrite (record_into_nil_map _ r0 Hnil), Hth.
  destruct (scan_threats content (patternsForLevel level)); split; intros H;
    try reflexivity; try discriminate; contradiction.
Qed.

Lemma scan_into_nil_map_witness :
  exists r, ScanContentWithLevel scenario_A None ScanLevelStrict = Some r /\
    (Threats r = [] ->
     ScanContentWithLevel scenario_A (Some (unread_plain "a.svg" "unreadable"))
       ScanLevelStrict = Some (unread_plain "a.svg" "unreadable")) /\
    (Threats r <> [] ->
     ScanContentWithLevel scenario_A (Some (unread_plain "a.svg" "unreadable"))
       ScanLevelStrict = None).
Proof.
  apply (scan_into_nil_map scenario_A ScanLevelStrict (unread_plain "a.svg" "unreadable")).
  reflexivity.
Defined.

Lemma threat_of_fits p m :
  (0 <= matchLength p)%Z ->
  (len (Match (threat_of p m)) <= (if (matchLength p =? 0)%Z then 50 else matchLength p) + 3)%Z.
Proof.
  intros Hp. unfold threat_of. cbn [Match]. apply truncate_length.
  destruct (matchLength p =? 0)%Z; lia.
Qed.

(** The display text of every threat a scan reports is bounded: at
    most the cap of its category (100 bytes for Script and ExternalRef,
    80 for EventHandler and Link, 50 for the others) plus the three
    dots of a truncation. *)
Theorem scanned_match_is_capped (content : string) (level : ScanLevel) :
  exists r, ScanContentWithLevel content None level = Some r /\
    forall t, In t (Threats r) ->
      (len (Match t) <= display_cap (Type_ t) + 3)%Z /\ (len (Match t) <= 103)%Z.
Proof.
  destruct (scan_own content "" level) as (r & Hr & Hth & _).
  exists r. split; [exact Hr|]. intros t Hin. rewrite Hth in Hin.
  unfold scan_threats in Hin. apply in_flat_map in Hin. destruct Hin as (p & Hp & Ht).
  apply in_map_iff in Ht. destruct Ht as (m & <- & _).
  assert (Hcap : (0 <= matchLength p)%Z /\
                 ((if (matchLength p =? 0)%Z then 50 else matchLength p)
                  <= display_cap (threatType p))%Z /\
                 (display_cap (threatType p) <= 100)%Z).
  { destruct level; unfold patternsForLevel in Hp; cbn [is_strict app] in Hp;
      repeat (destruct Hp as [<-|Hp]; [cbn; lia|]); destruct Hp. }
  destruct Hcap as (H0 & H1 & H2). pose proof (threat_of_fits p m H0) as Hfit.
  change (Type_ (threat_of p m)) with (threatType p). lia.
Qed.

End ScanMore.

(* ================================================================== *)
(** ** Further properties of the sanitizer                             *)
(* ================================================================== *)

Module SanitizeMore.
Import Regexp Syntax Security Notions MoreNotions ScanFacts RegexpFacts SanitizeFacts
       ScanMore.

(** Threats recorded before a run of rules stay in front of the log;
    the rules themselves never look at them. *)
Lemma rules_ignore_log ps s ts :
  fold_left apply_pattern ps (s, ts)
  = (fst (fold_left apply_pattern ps (s, [])),
     (ts ++ snd (fold_left apply_pattern ps (s, [])))%list).
Proof.
  revert s ts. induction ps as [|p ps IH]; intros s ts; cbn [fold_left].
  - simpl. rewrite app_nil_r. reflexivity.
  - rewrite !apply_pattern_eq. cbn [app].
    rewrite (IH _ (ts ++ _)%list), (IH _ (map _ _)), <- app_assoc. reflexivity.
Qed.

(** Running one list of rules after another. *)
Lemma rules_in_sequence ps qs c :
  fold_left apply_pattern (ps ++ qs) (c, [])
  = (fst (fold_left apply_pattern qs (fst (fold_left apply_pattern ps (c, [])), [])),
     (snd (fold_left apply_pattern ps (c, []))
      ++ snd (fold_left apply_pattern qs (fst (fold_left apply_pattern ps (c, [])), [])))%list).
Proof.
  rewrite fold_left_app.
  destruct (fold_left apply_pattern ps (c, [])) as [c1 t1] eqn:E1. cbn [fst snd].
  apply rules_ignore_log.
Qed.

Lemma selected_split (s e x : bool) :
  selected_patterns (mkOptions s e x false)
  = (selected_patterns (mkOptions s false false false)
     ++ selected_patterns (mkOptions false e false false)
     ++ selected_patterns (mkOptions false false x false))%list.
Proof. destruct s, e, x; reflexivity. Qed.

(** Sanitizing with several individual flags is sanitizing with each
    flag in turn, scripts first, then event handlers, then external
    references, each pass working on the output of the one before; the
    log of removed threats is the three logs one after the other. *)
Theorem sanitize_flags_run_in_turn (c : string) (s e x : bool) :
  let p1 := SanitizeContent c (mkOptions s false false false) in
  let p2 := SanitizeContent (fst p1) (mkOptions false e false false) in
  let p3 := SanitizeContent (fst p2) (mkOptions false false x false) in
  SanitizeContent c (mkOptions s e x false)
  = (fst p3, (snd p1 ++ snd p2 ++ snd p3)%list).
Proof.
  intros p1 p2 p3. unfold SanitizeContent at 1.
  rewrite selected_split, rules_in_sequence, rules_in_sequence.
  fold (SanitizeContent c (mkOptions s false false false)). fold p1.
  fold (SanitizeContent (fst p1) (mkOptions false e false false)). fold p2.
  fold (SanitizeContent (fst p2) (mkOptions false false x false)). fold p3.
  reflexivity.
Qed.

(** RemoveAll overrides the individual flags: whatever they are, the
    pass is the one of the default options, and that is the pass with
    the three individual flags set followed by the two XML-entity
    rules, which work on the text the other rules left. *)
Theorem remove_all_overrides_flags (c : string) (o : SanitizeOptions) :
  RemoveAll o = true ->
  SanitizeContent c o = SanitizeContent c DefaultSanitizeOptions /\
  SanitizeContent c o
  = fold_left apply_pattern xmlEntityRemovalPatterns
      (SanitizeContent c (mkOptions true true true false)).
Proof.
  intros Hall. unfold SanitizeContent. rewrite (remove_all_selects o Hall).
  split; [reflexivity|]. rewrite <- fold_left_app. reflexivity.
Qed.

Lemma remove_all_overrides_flags_witness :
  SanitizeContent unclosed_doctype (mkOptions true false true true)
  = SanitizeContent unclosed_doctype DefaultSanitizeOptions /\
  SanitizeContent unclosed_doctype (mkOptions true false true true)
  = fold_left apply_pattern xmlEntityRemovalPatterns
      (SanitizeContent unclosed_doctype (mkOptions true true true false)).
Proof.
  apply (remove_all_overrides_flags unclosed_doctype (mkOptions true false true true)).
  reflexivity.
Defined.

(** Every threat in the log of a run of rules was there before or
    carries the category and description of one of the rules and a
    display text of at most 83 bytes. *)
Lemma logged_by_a_rule ps s ts t :
  In t (snd (fold_left apply_pattern ps (s, ts))) ->
  In t ts \/ exists p, In p ps /\ Type_ t = sthreatType p /\ Description t = sdesc p
                       /\ (len (Match t) <= 83)%Z.
Proof.
  revert s ts. induction ps as [|p ps IH]; intros s ts; cbn [fold_left].
  - simpl. auto.
  - rewrite apply_pattern_eq. intros Hin. apply IH in Hin.
    destruct Hin as [Hin|(q & Hq & H)].
    + apply in_app_or in Hin. destruct Hin as [Hin|Hin]; [auto|].
      apply in_map_iff in Hin. destruct Hin as (m & <- & _). right. exists p.
      split; [left; reflexivity|]. split; [reflexivity|]. split; [reflexivity|].
      cbn [removed_threat Match]. apply (truncate_length 80). lia.
    + right. exists q. split; [right; exact Hq | exact H].
Qed.

(** The sanitizer only ever logs threats of the categories its options
    select: a Script threat needs RemoveAll or RemoveScripts, an
    EventHandler threat RemoveAll or RemoveEventHandlers, an ExternalRef
    threat RemoveAll or RemoveExternalRefs, an XMLEntity threat
    RemoveAll; Animation, StyleBlock and Link threats, and threats of
    an undeclared category, are never logged.
    The display text of a logged threat is at most 83 bytes long. *)
Theorem sanitizer_logs_only_selected_categories (c : string) (o : SanitizeOptions) :
  Forall (fun t =>
            match Type_ t with
            | ThreatScript => RemoveAll o || RemoveScripts o = true
            | ThreatEventHandler => RemoveAll o || RemoveEventHandlers o = true
            | ThreatExternalRef => RemoveAll o || RemoveExternalRefs o = true
            | ThreatXMLEntity => RemoveAll o = true
            | ThreatAnimation | ThreatStyleBlock | ThreatLink | ThreatOther _ => False
            end /\ (len (Match t) <= 83)%Z)
         (snd (SanitizeContent c o)).
Proof.
  apply List.Forall_forall. intros t Hin. unfold SanitizeContent in Hin.
  apply logged_by_a_rule in Hin. destruct Hin as [[]|(p & Hp & -> & _ & Hlen)].
  split; [|exact Hlen]. unfold selected_patterns in Hp.
  destruct o as [s e x a]; cbn [RemoveAll RemoveScripts RemoveEventHandlers
                                RemoveExternalRefs] in *.
  destruct a, s, e, x; cbn [orb app] in Hp |- *;
    repeat (destruct Hp as [<-|Hp]; [cbn; reflexivity|]); destruct Hp.
Qed.

End SanitizeMore.

(* ================================================================== *)
(** ** Further properties of the report generator                      *)
(* ================================================================== *)

Module ReportMore.
Import Security Report Notions MoreNotions ReportFacts.

Lemma tally_threats_secure ts st :
  secureFiles (fold_left tally_threat ts st) = secureFiles st.
Proof.
  revert st. induction ts as [|t ts IH]; intros st; simpl; [reflexivity|].
  rewrite IH. reflexivity.
Qed.

Lemma tally_results_secure results st :
  secureFiles (fold_left tally_result results st)
  = (secureFiles st + Z.of_nat (length (secure_results results)))%Z.
Proof.
  revert st. induction results as [|r results IH]; intros st; cbn [fold_left].
  - simpl. lia.
  - rewrite IH. unfold tally_result. rewrite tally_threats_secure.
    unfold secure_results. cbn [List.filter].
    destruct (IsSuccess r); cbn [secureFiles length]; lia.
Qed.

Lemma secure_files_spec results :
  secureFiles (count_totals results) = Z.of_nat (length (secure_results results)).
Proof. unfold count_totals. rewrite tally_results_secure. simpl. lia. Qed.

Lemma secure_insecure_split results :
  length (secure_results results) + length (insecure_results results) = length results.
Proof.
  unfold secure_results, insecure_results.
  induction results as [|r results IH]; simpl; [reflexivity|].
  destruct (IsSuccess r); simpl; lia.
Qed.

(** The summary block in terms of the batch. *)
Lemma summary_block_spec (results : list Result) (project version now : string) :
  SummaryBlocks (GenerateReport results project version now)
  = [mkBlock "kv_pairs" EmptyString
       [mkKV "Files Scanned" (formatInt (Z.of_nat (length results))) EmptyString;
        mkKV "Secure Files" (formatInt (Z.of_nat (length (secure_results results))))
          EmptyString;
        mkKV "Files with Threats"
          (formatInt (Z.of_nat (length (insecure_results results)))) EmptyString;
        mkKV "Total Threats" (formatInt (Z.of_nat (length (batch_threats results))))
          EmptyString] [] EmptyString].
Proof.
  unfold GenerateReport. cbn [SummaryBlocks].
  destruct (count_totals_spec results) as (Hall & _).
  rewrite secure_files_spec, Hall.
  replace (Z.of_nat (length results) - Z.of_nat (length (secure_results results)))%Z
    with (Z.of_nat (length (insecure_results results)))
    by (pose proof (secure_insecure_split results); lia).
  reflexivity.
Qed.

(** The summary block counts the Results, those that are secure and
    free of errors, the others, and the threats of the batch, whatever
    their category.  The two middle counts add up to the first, and a
    Result counted as a file with threats is one that is not secure or
    that carries an error: a Result with a read error counts there even
    though it holds no threat. *)
Theorem summary_counts (results : list Result) (project version now : string) :
  SummaryBlocks (GenerateReport results project version now)
  = [mkBlock "kv_pairs" EmptyString
       [mkKV "Files Scanned" (formatInt (Z.of_nat (length results))) EmptyString;
        mkKV "Secure Files" (formatInt (Z.of_nat (length (secure_results results))))
          EmptyString;
        mkKV "Files with Threats"
          (formatInt (Z.of_nat (length (insecure_results results)))) EmptyString;
        mkKV "Total Threats" (formatInt (Z.of_nat (length (batch_threats results))))
          EmptyString] [] EmptyString] /\
  length (secure_results results) + length (insecure_results results) = length results /\
  Forall (fun r => IsSecure r = false \/ Errors r <> []) (insecure_results results).
Proof.
  split; [apply summary_block_spec|]. split; [apply secure_insecure_split|].
  unfold insecure_results. apply List.Forall_forall. intros r Hr.
  apply filter_In in Hr. destruct Hr as (_ & Hr). unfold IsSuccess in Hr.
  destruct (IsSecure r); [right | left; reflexivity].
  destruct (Errors r); [discriminate Hr | discriminate].
Qed.

Lemma by_type_count results X :
  by_type (count_totals results) X = Z.of_nat (count_type X (batch_threats results)).
Proof. apply count_totals_spec. Qed.

Lemma count_is_zero results X :
  (by_type (count_totals results) X =? 0)%Z
  = (count_type X (batch_threats results) =? 0)%nat.
Proof.
  rewrite by_type_count. destruct (count_type X (batch_threats results)); reflexivity.
Qed.

(** The status and the task of the section made for a category. *)
Lemma team_section_spec results cat :
  section_status (cat_severity cat)
  = (if severe (cat_threatType cat) then StatusNoGo else StatusWarn) ->
  cat_severity cat = Severity (cat_threatType cat) ->
  TeamSection_ID (team_section results (count_totals results) cat) = cat_id cat /\
  TeamSection_Name (team_section results (count_totals results) cat) = cat_name cat /\
  TeamSection_Status (team_section results (count_totals results) cat)
  = deserved_status results (cat_threatType cat) /\
  Tasks (team_section results (count_totals results) cat)
  = [deserved_task results (cat_threatType cat)].
Proof.
  intros Hst Hsev. unfold team_section, deserved_task, deserved_status.
  rewrite count_is_zero, by_type_count.
  destruct (count_type (cat_threatType cat) (batch_threats results) =? 0)%nat.
  - repeat split; reflexivity.
  - cbn [TeamSection_ID TeamSection_Name TeamSection_Status Tasks].
    rewrite Hst, Hsev. repeat split; reflexivity.
Qed.

(** The report always has seven sections, one per category in the
    order Script, EventHandler, ExternalRef, XMLEntity, Animation,
    StyleBlock, Link.  A section is GO when the batch holds no threat
    of its category, and otherwise NO-GO if ThreatType.Severity of the
    category is critical or high and WARN if it is medium or low.  Its
    single task repeats the status and gives the severity and the
    number of threats. *)
Theorem sections_follow_category_severity
  (results : list Result) (project version now : string) :
  Forall2 (fun X sec =>
             TeamSection_Status sec = deserved_status results X
             /\ Tasks sec = [deserved_task results X])
          category_order (Teams (GenerateReport results project version now)) /\
  map TeamSection_ID (Teams (GenerateReport results project version now))
  = ["script-detection"; "event-handler-detection"; "external-ref-detection";
     "xml-entity-detection"; "animation-detection"; "style-block-detection";
     "link-detection"].
Proof.
  unfold GenerateReport. cbn [Teams]. unfold threatCategories, category_order.
  cbn [map]. split.
  - repeat (apply Forall2_cons_2 || apply List.Forall2_cons);
      try apply List.Forall2_nil;
      match goal with
      | |- context [team_section _ _ ?cat] =>
        destruct (team_section_spec results cat) as (_ & _ & H1 & H2);
          [reflexivity | reflexivity | split; [exact H1 | exact H2]]
      end.
  - repeat f_equal;
      match goal with
      | |- context [team_section _ _ ?cat] =>
        destruct (team_section_spec results cat) as (H0 & _); [reflexivity | reflexivity |];
          exact H0
      end.
Qed.

Lemma section_statuses results project version now :
  map TeamSection_Status (Teams (GenerateReport results project version now))
  = map (deserved_status results) category_order.
Proof.
  unfold GenerateReport. cbn [Teams]. unfold threatCategories, category_order.
  cbn [map]. repeat f_equal;
    match goal with
    | |- context [team_section _ _ ?cat] =>
      destruct (team_section_spec results cat) as (_ & _ & H & _);
        [reflexivity | reflexivity | exact H]
    end.
Qed.

Lemma deserved_go results X :
  deserved_status results X = StatusGo <-> count_type X (batch_threats results) = 0.
Proof.
  unfold deserved_status. destruct (count_type X (batch_threats results)); simpl.
  - split; reflexivity.
  - destruct (severe X); split; discriminate.
Qed.

Lemma deserved_no_go results X :
  deserved_status results X = StatusNoGo
  <-> 0 < count_type X (batch_threats results) /\ In X critical_or_high.
Proof.
  unfold deserved_status, critical_or_high.
  destruct (count_type X (batch_threats results)); simpl.
  - split; [discriminate | intros (H & _); lia].
  - destruct X; simpl; split; try discriminate; intros H;
      try (split; [lia | auto 6]); try reflexivity;
      destruct H as (_ & H); intuition discriminate.
Qed.

Lemma deserved_status_cases results X :
  deserved_status results X = StatusGo \/ deserved_status results X = StatusNoGo
  \/ deserved_status results X = StatusWarn.
Proof.
  unfold deserved_status. destruct (_ =? _)%nat; [auto|]. destruct (severe X); auto.
Qed.

Lemma listed_category X : In X category_order <-> In X all_types.
Proof. unfold category_order, all_types. simpl. tauto. Qed.

(** The sections of a report, read through their statuses. *)
Lemma some_section results project version now (P : Status -> Prop) :
  Exists (fun sec => P (TeamSection_Status sec))
         (Teams (GenerateReport results project version now))
  <-> exists X, In X all_types /\ P (deserved_status results X).
Proof.
  rewrite <- (List.Exists_map TeamSection_Status P).
  rewrite section_statuses, List.Exists_map, List.Exists_exists.
  split; intros (X & HX & H); exists X; (split; [apply listed_category, HX | exact H]).
Qed.

Lemma every_section results project version now (P : Status -> Prop) :
  Forall (fun sec => P (TeamSection_Status sec))
         (Teams (GenerateReport results project version now))
  <-> forall X, In X all_types -> P (deserved_status results X).
Proof.
  rewrite <- (List.Forall_map TeamSection_Status P).
  rewrite section_statuses, List.Forall_map, List.Forall_forall.
  split; intros H X HX; apply H, listed_category, HX.
Qed.

(** Every section is GO exactly when no threat of the batch has a
    declared category. *)
Lemma sections_all_go results project version now :
  Forall (fun sec => TeamSection_Status sec = StatusGo)
         (Teams (GenerateReport results project version now))
  <-> only_undeclared results.
Proof.
  rewrite (every_section results project version now (fun st => st = StatusGo)).
  rewrite only_undeclared_iff.
  split; intros H X HX; apply deserved_go, H, HX.
Qed.

Lemma sections_some_no_go results project version now :
  Exists (fun sec => TeamSection_Status sec = StatusNoGo)
         (Teams (GenerateReport results project version now))
  <-> existsb (fun X => (0 <? count_type X (batch_threats results))%nat)
        critical_or_high = true.
Proof.
  rewrite (some_section results project version now (fun st => st = StatusNoGo)).
  rewrite existsb_exists. split.
  - intros (X & _ & HX). apply deserved_no_go in HX. destruct HX as (Hpos & HX).
    exists X. split; [exact HX | apply Nat.ltb_lt, Hpos].
  - intros (X & HX & Hpos). apply Nat.ltb_lt in Hpos. exists X. split.
    + unfold critical_or_high in HX. unfold all_types. simpl in *. tauto.
    + apply deserved_no_go. auto.
Qed.

(** The overall status is never better than the status of a section.
    It is NO-GO exactly when some section is NO-GO, and a GO report has
    seven GO sections.  It is the worst status among the sections with
    one exception: a batch that holds threats, all of them of a
    ThreatType outside the seven declared categories, gives a WARN
    report whose sections are all GO, and that is the only way for a
    report that is not GO to have seven GO sections. *)
Theorem overall_status_against_sections
  (results : list Result) (project version now : string) :
  let rep := GenerateReport results project version now in
  let stray := batch_threats results <> [] /\ only_undeclared results in
  (TeamReport_Status rep = StatusNoGo
   <-> Exists (fun sec => TeamSection_Status sec = StatusNoGo) (Teams rep)) /\
  (TeamReport_Status rep = StatusGo
   -> Forall (fun sec => TeamSection_Status sec = StatusGo) (Teams rep)) /\
  (TeamReport_Status rep = StatusWarn
   <-> (Exists (fun sec => TeamSection_Status sec = StatusWarn) (Teams rep) \/ stray)
       /\ Forall (fun sec => TeamSection_Status sec <> StatusNoGo) (Teams rep)) /\
  (Forall (fun sec => TeamSection_Status sec = StatusGo) (Teams rep)
   /\ TeamReport_Status rep <> StatusGo <-> stray).
Proof.
  intros rep stray. unfold stray, rep.
  pose proof (sections_all_go results project version now) as Hgo.
  pose proof (sections_some_no_go results project version now) as Hno.
  pose proof (some_section results project version now (fun st => st = StatusWarn)) as Hw.
  pose proof (every_section results project version now (fun st => st <> StatusNoGo)) as Hnn.
  pose proof (some_section results project version now (fun st => st = StatusNoGo)) as Hsn.
  assert (Hst : TeamReport_Status (GenerateReport results project version now)
                = overall_status (count_totals results)) by reflexivity.
  rewrite overall_status_spec in Hst. rewrite Hst.
  assert (Hempty : batch_threats results = [] -> only_undeclared results).
  { intros E t Ht. rewrite E in Ht. destruct Ht. }
  assert (Hdec : only_undeclared results
                 \/ exists X, In X all_types /\ deserved_status results X <> StatusGo).
  { rewrite only_undeclared_iff.
    assert (Hz : forall X, count_type X (batch_threats results) = 0
                           \/ deserved_status results X <> StatusGo).
    { intros X. destruct (count_type X (batch_threats results)) eqn:E; [auto|].
      right. intros Hg. apply deserved_go in Hg. congruence. }
    assert (Hpick : forall X, In X all_types -> deserved_status results X <> StatusGo ->
              exists Y, In Y all_types /\ deserved_status results Y <> StatusGo)
      by (intros X HX HnX; exists X; auto).
    destruct (Hz ThreatScript) as [H1|H1]; [|right; eapply Hpick; [|exact H1]; simpl; auto 8].
    destruct (Hz ThreatEventHandler) as [H2|H2];
      [|right; eapply Hpick; [|exact H2]; simpl; auto 8].
    destruct (Hz ThreatExternalRef) as [H3|H3];
      [|right; eapply Hpick; [|exact H3]; simpl; auto 8].
    destruct (Hz ThreatAnimation) as [H4|H4];
      [|right; eapply Hpick; [|exact H4]; simpl; auto 8].
    destruct (Hz ThreatStyleBlock) as [H5|H5];
      [|right; eapply Hpick; [|exact H5]; simpl; auto 8].
    destruct (Hz ThreatLink) as [H6|H6]; [|right; eapply Hpick; [|exact H6]; simpl; auto 8].
    destruct (Hz ThreatXMLEntity) as [H7|H7];
      [|right; eapply Hpick; [|exact H7]; simpl; auto 8].
    left. intros X HX. simpl in HX. intuition (subst; assumption). }
  destruct (batch_threats results) as [|t ts] eqn:Eb.
  - (* no threat: GO, every section GO *)
    assert (Hall : only_undeclared results) by (apply Hempty; reflexivity).
    assert (Hsec := proj2 Hgo Hall).
    assert (Hnone : forall st, st <> StatusGo ->
              ~ Exists (fun sec => TeamSection_Status sec = st)
                  (Teams (GenerateReport results project version now))).
    { intros st Hne Hex. apply List.Exists_exists in Hex. destruct Hex as (sec & Hin & Hs).
      rewrite List.Forall_forall in Hsec. rewrite (Hsec sec Hin) in Hs. congruence. }
    split; [split; [discriminate | intros H; exfalso; exact (Hnone StatusNoGo ltac:(discriminate) H)]|].
    split; [intros _; exact Hsec|]. split.
    + split; [discriminate|]. intros ([H|(H & _)] & _); [|congruence].
      exfalso. exact (Hnone StatusWarn ltac:(discriminate) H).
    + split; [intros (_ & H); congruence | intros (H & _); congruence].
  - destruct (existsb _ critical_or_high) eqn:Ee.
    + (* a critical or high threat: NO-GO *)
      assert (Hex := proj2 Hno eq_refl).
      assert (Hnot : ~ only_undeclared results).
      { intros Hall. apply Hgo in Hall. apply List.Exists_exists in Hex.
        destruct Hex as (sec & Hin & Hs). rewrite List.Forall_forall in Hall.
        rewrite (Hall sec Hin) in Hs. discriminate. }
      split; [split; [intros _; exact Hex | reflexivity]|].
      split; [discriminate|]. split.
      * split; [discriminate|]. intros (_ & Hall). exfalso.
        apply List.Exists_exists in Hex. destruct Hex as (sec & Hin & Hs).
        rewrite List.Forall_forall in Hall. exact (Hall sec Hin Hs).
      * split; [intros (H & _); exfalso; apply Hnot, Hgo, H
               | intros (_ & H); contradiction].
    + (* threats, none critical or high: WARN *)
      assert (Hnex : ~ Exists (fun sec => TeamSection_Status sec = StatusNoGo)
                       (Teams (GenerateReport results project version now))).
      { intros H. apply Hno in H. congruence. }
      split; [split; [discriminate | intros H; contradiction]|].
      split; [discriminate|]. split.
      * split; [|reflexivity]. intros _. split.
        -- destruct Hdec as [Hall|(X & HX & Hng)].
           ++ right. split; [discriminate | exact Hall].
           ++ left. apply Hw. exists X. split; [exact HX|].
              destruct (deserved_status_cases results X) as [H|[H|H]];
                [contradiction | | exact H].
              exfalso. apply Hnex, Hsn. exists X. auto.
        -- apply Hnn. intros X HX Hs. apply Hnex, Hsn. exists X. auto.
      * split.
        -- intros (H & _). split; [discriminate | apply Hgo, H].
        -- intros (_ & H). split; [apply Hgo, H | discriminate].
Qed.

Lemma findings_texts results cat :
  map Text (findings results cat) = finding_texts results (cat_threatType cat).
Proof.
  unfold findings, finding_texts.
  induction results as [|r results IH]; [reflexivity|].
  cbn [flat_map]. rewrite map_app, IH. f_equal.
  induction (Threats r) as [|t ts IHt]; [reflexivity|].
  cbn [flat_map List.filter]. rewrite map_app, IHt.
  destruct (decide (Type_ t = cat_threatType cat)) as [E|E].
  - rewrite (bool_decide_eq_true_2 _ E). reflexivity.
  - rewrite (bool_decide_eq_false_2 _ E). reflexivity.
Qed.

Lemma finding_texts_length results X :
  length (finding_texts results X) = count_type X (batch_threats results).
Proof.
  unfold finding_texts, batch_threats.
  induction results as [|r results IH]; [reflexivity|].
  cbn [flat_map]. rewrite length_app, count_type_app, IH. f_equal.
  rewrite length_map. induction (Threats r) as [|t ts IHt]; [reflexivity|].
  cbn [List.filter count_type]. destruct (decide (Type_ t = X)) as [E|E].
  - rewrite (bool_decide_eq_true_2 _ E). simpl. rewrite IHt. reflexivity.
  - rewrite (bool_decide_eq_false_2 _ E). simpl. exact IHt.
Qed.

Lemma limit_items_texts items :
  map Text (limit_items items)
  = (firstn 10 (map Text items)
     ++ if (10 <? length items)%nat then ["and more..."] else [])%list.
Proof.
  unfold limit_items. destruct (10 <? length items)%nat eqn:E.
  - rewrite map_app, firstn_map. reflexivity.
  - apply Nat.ltb_ge in E. rewrite app_nil_r, firstn_all2; [reflexivity|].
    rewrite length_map. exact E.
Qed.

(** What the section of a category shows of its findings. *)
Lemma section_findings results cat :
  let texts := finding_texts results (cat_threatType cat) in
  match ContentBlocks (team_section results (count_totals results) cat) with
  | [] => texts = []
  | [blk] =>
    texts <> [] /\ ContentBlock_Type blk = "list" /\ ContentBlock_Title blk = "Findings"
    /\ map Text (Items blk)
       = (firstn 10 texts ++ if (10 <? length texts)%nat then ["and more..."] else [])%list
  | _ :: _ :: _ => False
  end.
Proof.
  intros texts. unfold team_section. rewrite count_is_zero.
  pose proof (finding_texts_length results (cat_threatType cat)) as Hlen. fold texts in Hlen.
  pose proof (findings_texts results cat) as Htx. fold texts in Htx.
  destruct (count_type (cat_threatType cat) (batch_threats results)) as [|n] eqn:En.
  - cbn [Nat.eqb ContentBlocks]. destruct texts; [reflexivity | discriminate].
  - cbn [Nat.eqb ContentBlocks].
    assert (Hitems : length (findings results cat) = S n)
      by (rewrite <- (length_map Text), Htx; exact Hlen).
    rewrite Hitems. cbn [Nat.ltb Nat.leb].
    split; [destruct texts; [discriminate Hlen | discriminate]|].
    split; [reflexivity|]. split; [reflexivity|]. cbn [Items].
    rewrite limit_items_texts, Htx, Hitems, Hlen. reflexivity.
Qed.

(** A section lists its findings in one block, and only when its
    category has threats.  The block gives one line per threat, the
    path of the Result and the description of the threat, in the order
    of the batch; of more than ten findings it gives the first ten and
    a closing line saying there are more, so that it never has more
    than eleven lines. *)
Theorem findings_are_listed_up_to_ten
  (results : list Result) (project version now : string) :
  Forall2 (fun X sec =>
             let texts := finding_texts results X in
             length texts = count_type X (batch_threats results) /\
             match ContentBlocks sec with
             | [] => texts = []
             | [blk] =>
               texts <> [] /\ ContentBlock_Type blk = "list"
               /\ ContentBlock_Title blk = "Findings"
               /\ map Text (Items blk)
                  = (firstn 10 texts
                     ++ if (10 <? length texts)%nat then ["and more..."] else [])%list
               /\ length (Items blk) <= 11
             | _ :: _ :: _ => False
             end)
          category_order (Teams (GenerateReport results project version now)).
Proof.
  unfold GenerateReport. cbn [Teams]. unfold threatCategories, category_order.
  cbn [map].
  repeat apply List.Forall2_cons; try apply List.Forall2_nil;
    (split; [apply finding_texts_length|]);
    match goal with
    | |- context [team_section _ _ ?cat] =>
      pose proof (section_findings results cat) as H; cbn [cat_threatType] in H;
        destruct (ContentBlocks (team_section results (count_totals results) cat))
          as [|blk [|blk2 rest]]; [exact H | | exact H]
    end;
    destruct H as (H1 & H2 & H3 & H4); repeat (split; [assumption|]);
    rewrite <- (length_map Text), H4, length_app, length_firstn;
    match goal with |- context [if ?b then _ else _] => destruct b end;
    cbn [length];
    match goal with |- context [Nat.min ?a ?b] => pose proof (Nat.le_min_l a b) end;
    lia.
Qed.

Lemma no_threat_iff_clean_results results :
  batch_threats results = [] <-> Forall (fun r => Threats r = []) results.
Proof.
  unfold batch_threats. induction results as [|r results IH].
  - split; [constructor | reflexivity].
  - cbn [flat_map]. split.
    + intros H. apply app_eq_nil in H. destruct H as (H1 & H2).
      constructor; [exact H1 | apply IH, H2].
    + intros H. inversion H as [|? ? H1 H2]; subst. rewrite H1. apply IH, H2.
Qed.

(** The report is GO exactly when no Result of the batch holds a
    threat; read errors alone never change the status.  The footer is
    left out exactly when every section is GO, that is when no threat
    of the batch has one of the seven declared categories.  So a GO
    report has no footer, and a report that is not GO has one unless
    all its threats carry an undeclared ThreatType. *)
Theorem footer_iff_declared_threat
  (results : list Result) (project version now : string) :
  let rep := GenerateReport results project version now in
  (TeamReport_Status rep = StatusGo <-> Forall (fun r => Threats r = []) results) /\
  (FooterBlocks rep = []
   <-> Forall (fun sec => TeamSection_Status sec = StatusGo) (Teams rep)) /\
  (FooterBlocks rep = [] <-> only_undeclared results) /\
  (TeamReport_Status rep = StatusGo -> FooterBlocks rep = []).
Proof.
  intros rep. unfold rep.
  assert (Hfoot : FooterBlocks (GenerateReport results project version now) = []
                  <-> only_undeclared results).
  { rewrite footer_spec, only_undeclared_iff, <- no_active_row_iff.
    destruct (List.filter (row_active results) action_rows);
      split; intros H; try reflexivity; discriminate. }
  split; [rewrite status_go_iff; apply no_threat_iff_clean_results|].
  split; [rewrite sections_all_go; exact Hfoot|]. split; [exact Hfoot|].
  intros Hgo. apply Hfoot. apply status_go_iff in Hgo.
  intros t Ht. rewrite Hgo in Ht. destruct Ht.
Qed.

Lemma count_type_permutation X ts ts' :
  Permutation ts ts' -> count_type X ts = count_type X ts'.
Proof. induction 1; simpl; lia. Qed.

Lemma secure_results_permutation results results' :
  Permutation results results' ->
  length (secure_results results) = length (secure_results results').
Proof.
  unfold secure_results. induction 1; simpl; try lia.
  - destruct (IsSuccess x); simpl; lia.
  - destruct (IsSuccess x), (IsSuccess y); reflexivity.
Qed.

(** The order of the Results in a batch does not matter for the
    status, the summary, the footer, or the status and task of any
    section; only the order of the findings follows it. *)
Theorem report_ignores_result_order
  (results results' : list Result) (project version now : string) :
  Permutation results results' ->
  let rep := GenerateReport results project version now in
  let rep' := GenerateReport results' project version now in
  TeamReport_Status rep = TeamReport_Status rep' /\
  SummaryBlocks rep = SummaryBlocks rep' /\
  FooterBlocks rep = FooterBlocks rep' /\
  map (fun sec => (TeamSection_ID sec, TeamSection_Status sec, Tasks sec)) (Teams rep)
  = map (fun sec => (TeamSection_ID sec, TeamSection_Status sec, Tasks sec)) (Teams rep').
Proof.
  intros Hperm rep rep'.
  assert (Hb : Permutation (batch_threats results) (batch_threats results'))
    by (apply Permutation_flat_map, Hperm).
  assert (Hc : forall X, count_type X (batch_threats results)
                         = count_type X (batch_threats results'))
    by (intros X; apply count_type_permutation, Hb).
  assert (Hl : length (batch_threats results) = length (batch_threats results'))
    by (apply Permutation_length, Hb).
  assert (Hrow : List.filter (row_active results) action_rows
                 = List.filter (row_active results') action_rows).
  { apply List.filter_ext. intros row. unfold row_active.
    induction (fst (fst row)) as [|X Xs IH]; [reflexivity|].
    cbn [existsb]. rewrite Hc, IH. reflexivity. }
  split; [|split; [|split]].
  - change (overall_status (count_totals results)
            = overall_status (count_totals results')).
    rewrite !overall_status_spec.
    replace (existsb (fun X => (0 <? count_type X (batch_threats results'))%nat)
               critical_or_high)
      with (existsb (fun X => (0 <? count_type X (batch_threats results))%nat)
               critical_or_high)
      by (unfold critical_or_high; cbn [existsb]; rewrite !Hc; reflexivity).
    destruct (batch_threats results), (batch_threats results');
      try reflexivity; discriminate Hl.
  - unfold rep, rep'.
    rewrite (summary_block_spec results project version now).
    rewrite (summary_block_spec results' project version now).
    pose proof (secure_results_permutation _ _ Hperm) as Hs.
    pose proof (secure_insecure_split results) as H1.
    pose proof (secure_insecure_split results') as H2.
    pose proof (Permutation_length Hperm) as Hn.
    replace (length (insecure_results results'))
      with (length (insecure_results results)) by lia.
    rewrite Hs, Hl, Hn. reflexivity.
  - unfold rep, rep'. rewrite !footer_spec, Hrow. reflexivity.
  - unfold rep, rep', GenerateReport. cbn [Teams]. rewrite !map_map.
    apply map_ext_in. intros cat Hin.
    assert (Hcat : section_status (cat_severity cat)
                   = (if severe (cat_threatType cat) then StatusNoGo else StatusWarn)
                   /\ cat_severity cat = Severity (cat_threatType cat)).
    { unfold threatCategories in Hin.
      repeat (destruct Hin as [<-|Hin]; [split; reflexivity|]). destruct Hin. }
    destruct Hcat as (Hs1 & Hs2).
    destruct (team_section_spec results cat Hs1 Hs2) as (-> & _ & -> & ->).
    destruct (team_section_spec results' cat Hs1 Hs2) as (-> & _ & -> & ->).
    unfold deserved_task, deserved_status. rewrite !Hc. reflexivity.
Qed.

Lemma report_ignores_result_order_witness :
  TeamReport_Status
    (GenerateReport (script_and_handler_batch ++ style_only_batch) "brandkit" "1" "t")
  = TeamReport_Status
      (GenerateReport (style_only_batch ++ script_and_handler_batch) "brandkit" "1" "t").
Proof.
  apply (report_ignores_result_order (script_and_handler_batch ++ style_only_batch)
           (style_only_batch ++ script_and_handler_batch) "brandkit" "1" "t").
  apply Permutation_app_comm.
Defined.

End ReportMore.

(* ================================================================== *)
(** ** Further properties of the file and directory scans              *)
(* ================================================================== *)

Module FilesMore.
Import Regexp Syntax Security Notions MoreNotions ScanFacts ScanMore.

Lemma walk_collect_spec vs files :
  walk_collect vs files
  = match first_error vs with
    | Some e => Err e
    | None => Ok (files ++ map vpath (List.filter (fun v => svg_entry (ventry v)) vs))%list
    end.
Proof.
  revert files. induction vs as [|v vs IH]; intros files; cbn [walk_collect first_error].
  - simpl. rewrite app_nil_r. reflexivity.
  - destruct (verr v) as [e|]; [reflexivity|].
    cbn [List.filter].
    change (negb (EntryIsDir (ventry v)) && HasSuffix (ToLower (Name (ventry v))) ".svg")
      with (svg_entry (ventry v)).
    destruct (svg_entry (ventry v));
      rewrite IH; destruct (first_error vs); try reflexivity.
    cbn [map]. rewrite <- app_assoc. reflexivity.
Qed.

(** Both listings keep, in the order of the directory, the entries
    that are not directories and whose name ends in .svg in any case.
    The flat listing joins the directory path to each name and fails
    only if the directory cannot be read.  The recursive listing is
    all or nothing: the first error met during the walk is returned
    and no file at all, otherwise the paths of all the entries kept. *)
Theorem listings_keep_svg_files
  (ReadDir : string -> res (list DirEntry)) (WalkDir : string -> list visit)
  (Join : string -> string -> string) (dirPath : string) :
  ListSVGFiles ReadDir Join dirPath
  = match ReadDir dirPath with
    | Err e => Err e
    | Ok entries => Ok (map (fun d => Join dirPath (Name d)) (List.filter svg_entry entries))
    end /\
  ListSVGFilesRecursive WalkDir dirPath
  = match first_error (WalkDir dirPath) with
    | Some e => Err e
    | None => Ok (map vpath (List.filter (fun v => svg_entry (ventry v)) (WalkDir dirPath)))
    end.
Proof.
  split.
  - unfold ListSVGFiles. destruct (ReadDir dirPath) as [entries|e]; [|reflexivity].
    f_equal. induction entries as [|d entries IH]; [reflexivity|].
    cbn [flat_map List.filter]. rewrite IH.
    assert (Hd : svg_entry d
                 = negb (EntryIsDir d) && HasSuffix (ToLower (Name d)) ".svg")
      by reflexivity.
    rewrite Hd. destruct (EntryIsDir d); [reflexivity|].
    destruct (HasSuffix (ToLower (Name d)) ".svg"); reflexivity.
  - unfold ListSVGFilesRecursive. rewrite walk_collect_spec. reflexivity.
Qed.

Section DirectoryResults.

Variable ReadFile : string -> res string.
Variable unread : string -> string -> Result.

(** The Result owed for a file names that file, and is a success
    exactly when the file is readable and clean. *)
Lemma file_outcome_success f r :
  file_outcome ReadFile unread f r ->
  FilePath r = f /\ (IsSuccess r = true <-> readable_and_clean ReadFile f).
Proof.
  unfold file_outcome, readable_and_clean.
  destruct (ReadFile f) as [content|e] eqn:Eread.
  - intros Hr.
    destruct (scan_own content f ScanLevelStrict) as (r1 & Hr1 & Hth & He & Hs).
    destruct (scan_fresh content f ScanLevelStrict) as (r2 & Hr2 & _ & _ & Hp & _).
    assert (r1 = r) by congruence. assert (r2 = r) by congruence. subst r1 r2.
    destruct (scan_own content "" ScanLevelStrict) as (r0 & Hr0 & Hth0 & _).
    split; [exact Hp|].
    destruct (secure_iff_clean r He Hs) as (_ & Hiff). rewrite Hiff. split.
    + intros Hnil. exists content, r0. split; [reflexivity|]. split; [exact Hr0|].
      rewrite Hth0, <- Hth. exact Hnil.
    + intros (content' & r' & Hc & Hr' & Hnil). injection Hc as <-.
      change (ScanContentWithLevel content (Some (fresh_result "")) ScanLevelStrict)
        with (ScanContentWithLevel content None ScanLevelStrict) in Hr0.
      assert (r' = r0) by congruence. subst r'. rewrite Hth, <- Hth0. exact Hnil.
  - intros (-> & Hsec & _ & Hp). split; [exact Hp|].
    unfold IsSuccess. rewrite Hsec. simpl. split; [discriminate|].
    intros (content & r' & Hc & _). discriminate Hc.
Qed.

Lemma outcomes_success files results :
  Forall2 (file_outcome ReadFile unread) files results ->
  map FilePath results = files /\
  Forall2 (fun f r => IsSuccess r = true <-> readable_and_clean ReadFile f) files results.
Proof.
  induction 1 as [|f r files results Hfr Hrest IH]; [split; [reflexivity | constructor]|].
  destruct IH as (IH1 & IH2). destruct (file_outcome_success f r Hfr) as (Hp & Hiff).
  split; [simpl; rewrite Hp, IH1; reflexivity | constructor; assumption].
Qed.

End DirectoryResults.

(** A directory scan, recursive or not, whose listing succeeded gives
    the Results in the order of the listing, each carrying the path of
    its file, also when the file could not be read; and a Result is a
    success (secure, no errors) exactly when its file could be read and
    a Strict scan of its content finds no threat. *)
Theorem directory_results_follow_listing
  (ReadFile : string -> res string) (ReadDir : string -> res (list DirEntry))
  (WalkDir : string -> list visit) (Join : string -> string -> string)
  (dirPath : string) :
  (forall files, ListSVGFiles ReadDir Join dirPath = Ok files ->
     exists results, Directory ReadFile ReadDir Join dirPath = Some (Ok results)
       /\ map FilePath results = files
       /\ Forall2 (fun f r => IsSuccess r = true <-> readable_and_clean ReadFile f)
            files results) /\
  (forall files, ListSVGFilesRecursive WalkDir dirPath = Ok files ->
     exists results, DirectoryRecursive ReadFile WalkDir dirPath = Some (Ok results)
       /\ map FilePath results = files
       /\ Forall2 (fun f r => IsSuccess r = true <-> readable_and_clean ReadFile f)
            files results) /\
  (forall e, ListSVGFiles ReadDir Join dirPath = Err e ->
     Directory ReadFile ReadDir Join dirPath
     = Some (Err ("failed to read directory: " ++ e))) /\
  (forall e, ListSVGFilesRecursive WalkDir dirPath = Err e ->
     DirectoryRecursive ReadFile WalkDir dirPath
     = Some (Err ("failed to read directory: " ++ e))).
Proof.
  split; [|split; [|split]].
  - intros files Hlist. unfold Directory. rewrite Hlist.
    destruct (directory_loop ReadFile unread_plain unread_plain_shape files [])
      as (results & Hrun & Hall).
    exists results. rewrite Hrun. split; [reflexivity|].
    apply (outcomes_success ReadFile unread_plain), Hall.
  - intros files Hlist. unfold DirectoryRecursive. rewrite Hlist.
    destruct (directory_loop ReadFile unread_with_map unread_with_map_shape files [])
      as (results & Hrun & Hall).
    exists results. rewrite Hrun. split; [reflexivity|].
    apply (outcomes_success ReadFile unread_with_map), Hall.
  - intros e Hlist. unfold Directory. rewrite Hlist. reflexivity.
  - intros e Hlist. unfold DirectoryRecursive. rewrite Hlist. reflexivity.
Qed.

Lemma directory_results_follow_listing_witness :
  exists results,
    Directory demo_ReadFile demo_ReadDir demo_Join "icons" = Some (Ok results)
    /\ map FilePath results = ["icons/a.svg"; "icons/b.SVG"]
    /\ Forall2 (fun f r => IsSuccess r = true <-> readable_and_clean demo_ReadFile f)
         ["icons/a.svg"; "icons/b.SVG"] results.
Proof.
  destruct (directory_results_follow_listing demo_ReadFile demo_ReadDir demo_WalkDir
              demo_Join "icons") as (H & _).
  apply H. reflexivity.
Defined.

End FilesMore.

(* ================================================================== *)
(** ** What a match consumes, and what a replacement leaves            *)
(* ================================================================== *)

Module MatchFacts.
Import Utf8 Regexp Syntax Security Notions MoreNotions RegexpFacts.

Lemma orelse_inv a b res : orelse a b = Some res -> a = Some res \/ b = Some res.
Proof. destruct a; simpl; intros H; auto. Qed.

Lemma star_greedy_sound c k prev s cs res :
  star_greedy c k prev s cs = Some res ->
  exists pre s' p', s = (pre ++ s')%list
    /\ Forall (fun t => c (rune t) = true) pre /\ k p' s' cs = Some res.
Proof.
  revert prev. induction s as [|t s IH]; intros prev; cbn [star_greedy].
  - intros H. exists [], [], prev. auto.
  - destruct (c (rune t)) eqn:Ec.
    + intros H. apply orelse_inv in H. destruct H as [H|H].
      * apply IH in H. destruct H as (pre & s' & p' & -> & Hall & Hk).
        exists (t :: pre), s', p'. split; [reflexivity|]. split; [|exact Hk].
        constructor; assumption.
      * exists [], (t :: s), prev. auto.
    + intros H. exists [], (t :: s), prev. auto.
Qed.

Lemma star_lazy_sound c k prev s cs res :
  star_lazy c k prev s cs = Some res ->
  exists pre s' p', s = (pre ++ s')%list
    /\ Forall (fun t => c (rune t) = true) pre /\ k p' s' cs = Some res.
Proof.
  revert prev. induction s as [|t s IH]; intros prev; cbn [star_lazy].
  - intros H. exists [], [], prev. auto.
  - destruct (c (rune t)) eqn:Ec.
    + intros H. apply orelse_inv in H. destruct H as [H|H].
      * exists [], (t :: s), prev. auto.
      * apply IH in H. destruct H as (pre & s' & p' & -> & Hall & Hk).
        exists (t :: pre), s', p'. split; [reflexivity|]. split; [|exact Hk].
        constructor; assumption.
    + intros H. exists [], (t :: s), prev. auto.
Qed.

(** A successful search went through a run of the pattern and then
    through a success of the continuation. *)
Lemma run_sound r :
  forall k prev s cs res,
    run r k prev s cs = Some res ->
    exists p' s' cs', step r s cs s' cs' /\ k p' s' cs' = Some res.
Proof.
  induction r as [|c|a IHa b IHb|a IHa b IHb|c|c|n g IHg|];
    intros k prev s cs res; cbn [run step].
  - intros H. exists prev, s, cs. auto.
  - destruct s as [|t s']; [discriminate|]. destruct (c (rune t)) eqn:Ec; [|discriminate].
    intros H. exists (IsWordChar (rune t)), s', cs. split; [|exact H]. exists t. auto.
  - intros H. apply IHa in H. destruct H as (p1 & s1 & cs1 & Ha & H).
    apply IHb in H. destruct H as (p2 & s2 & cs2 & Hb & H).
    exists p2, s2, cs2. split; [|exact H]. exists s1, cs1. auto.
  - intros H. apply orelse_inv in H. destruct H as [H|H].
    + apply IHa in H. destruct H as (p' & s' & cs' & Ha & H). exists p', s', cs'. auto.
    + apply IHb in H. destruct H as (p' & s' & cs' & Hb & H). exists p', s', cs'. auto.
  - intros H. apply star_greedy_sound in H. destruct H as (pre & s' & p' & Hs & Hall & H).
    exists p', s', cs. split; [|exact H]. exists pre. auto.
  - intros H. apply star_lazy_sound in H. destruct H as (pre & s' & p' & Hs & Hall & H).
    exists p', s', cs. split; [|exact H]. exists pre. auto.
  - intros H. apply IHg in H. destruct H as (p' & s' & csg & Hg & H).
    exists p', s', ((n, firstn (length s - length s') s) :: csg). split; [|exact H].
    exists csg. auto.
  - destruct (xorb prev (next_is_word s)); [|discriminate].
    intros H. exists prev, s, cs. auto.
Qed.

Lemma match_here_sound re prev s rest cs :
  match_here re prev s = Some (rest, cs) -> step re s [] rest cs.
Proof.
  unfold match_here. intros H. apply run_sound in H.
  destruct H as (p' & s' & cs' & Hstep & Hacc). unfold accept in Hacc.
  injection Hacc as <- <-. exact Hstep.
Qed.

(** A run consumes a prefix of its input, of at least [minlen] runes. *)
Lemma step_consumes r :
  forall s cs s' cs', step r s cs s' cs' ->
    exists pre, s = (pre ++ s')%list /\ minlen r <= length pre.
Proof.
  induction r as [|c|a IHa b IHb|a IHa b IHb|c|c|n g IHg|];
    intros s cs s' cs'; cbn [step minlen].
  - intros (-> & _). exists []. split; [reflexivity | simpl; lia].
  - intros (t & -> & _). exists [t]. split; [reflexivity | simpl; lia].
  - intros (s1 & cs1 & Ha & Hb). apply IHa in Ha. apply IHb in Hb.
    destruct Ha as (p1 & -> & H1). destruct Hb as (p2 & -> & H2).
    exists (p1 ++ p2)%list. rewrite <- app_assoc, length_app. split; [reflexivity | lia].
  - intros [H|H]; [apply IHa in H | apply IHb in H];
      destruct H as (pre & -> & Hl); exists pre; split; try reflexivity; lia.
  - intros (pre & -> & _). exists pre. split; [reflexivity | lia].
  - intros (pre & -> & _). exists pre. split; [reflexivity | lia].
  - intros (csg & Hg & _). apply IHg in Hg. exact Hg.
  - intros (-> & _). exists []. split; [reflexivity | simpl; lia].
Qed.

Lemma step_groupfree r :
  groupfree r = true -> forall s cs s' cs', step r s cs s' cs' -> cs' = cs.
Proof.
  induction r as [|c|a IHa b IHb|a IHa b IHb|c|c|n g IHg|];
    intros Hg s cs s' cs'; cbn [step groupfree] in *; try discriminate.
  - intros (_ & ->). reflexivity.
  - intros (t & _ & _ & ->). reflexivity.
  - apply andb_prop in Hg. destruct Hg as (Ha & Hb).
    intros (s1 & cs1 & H1 & H2). apply (IHa Ha) in H1. apply (IHb Hb) in H2. congruence.
  - apply andb_prop in Hg. destruct Hg as (Ha & Hb).
    intros [H|H]; [apply (IHa Ha) in H | apply (IHb Hb) in H]; exact H.
  - intros (pre & _ & _ & ->). reflexivity.
  - intros (pre & _ & _ & ->). reflexivity.
  - intros (_ & ->). reflexivity.
Qed.

Lemma runes_from_span (s : list ascii) (k : nat) : spans_bytes (runes_from k s).
Proof.
  revert k. induction s as [|b rest IH]; intros k.
  - destruct k; constructor.
  - destruct k as [|k]; cbn [runes_from]; [|apply IH].
    pose proof (decode_width_pos (b :: rest)) as Hw.
    destruct (DecodeRuneInString (b :: rest)) as [r w]. simpl in Hw.
    destruct w as [|w]; [exfalso; assert (1 <= 0) by (apply Hw; discriminate); lia|].
    constructor; [simpl; discriminate | apply IH].
Qed.

Lemma span_length (s : list tok) : spans_bytes s -> length s <= length (bytes s).
Proof.
  unfold bytes. induction 1 as [|t s Ht _ IH]; simpl; [lia|].
  rewrite length_app. destruct (raw t); [contradiction | simpl; lia].
Qed.

Lemma bytes_app (a b : list tok) : bytes (a ++ b) = (bytes a ++ bytes b)%list.
Proof. unfold bytes. apply flat_map_app. Qed.

(** A match found at the head of [s]: the runes it took and what is left. *)
Lemma match_here_takes re prev s rest cs :
  match_here re prev s = Some (rest, cs) ->
  step re s [] rest cs
  /\ s = (firstn (length s - length rest) s ++ rest)%list.
Proof.
  intros H. apply match_here_sound in H. split; [exact H|].
  apply step_consumes in H. destruct H as (pre & -> & _).
  rewrite length_app, Nat.add_sub, firstn_app, Nat.sub_diag, firstn_all.
  simpl. rewrite app_nil_r. reflexivity.
Qed.

(** Every match that the loop delivers is a match of the pattern. *)
Lemma pieces_hits re :
  forall s prev skip after,
    spans_bytes s -> Forall (match_of re) (hits (pieces re prev skip after s)).
Proof.
  induction s as [|t s IH]; intros prev skip after Hs.
  - destruct skip as [|k]; cbn [pieces]; [|constructor].
    destruct (match_here re prev []) as [[rest cs]|] eqn:Em; [|constructor].
    apply match_here_takes in Em. destruct Em as (Hstep & Hcut).
    assert (Hm : match_of re (Hit (firstn (length (@nil tok) - length rest) []) cs)).
    { exists [], rest. simpl. auto. }
    simpl in Hm. destruct (length [] - length rest)%nat; simpl.
    + destruct after; simpl; [constructor|]. constructor; [exact Hm | constructor].
    + constructor; [exact Hm | constructor].
  - assert (Hs' : spans_bytes s) by (inversion Hs; assumption).
    destruct skip as [|k]; cbn [pieces]; [|apply IH; exact Hs'].
    destruct (match_here re prev (t :: s)) as [[rest cs]|] eqn:Em.
    + apply match_here_takes in Em. destruct Em as (Hstep & Hcut).
      assert (Hm : match_of re
                     (Hit (firstn (length (t :: s) - length rest) (t :: s)) cs)).
      { exists (t :: s), rest. simpl matched. simpl subs. auto. }
      destruct (length (t :: s) - length rest)%nat as [|n] eqn:En.
      * unfold hits. rewrite flat_map_app. fold (hits (Gap t :: pieces re (IsWordChar (rune t)) 0 false s)).
        apply Forall_app. split.
        -- destruct after; simpl; [constructor|]. constructor; [exact Hm | constructor].
        -- simpl. apply IH. exact Hs'.
      * simpl. constructor; [exact Hm|]. apply IH. exact Hs'.
    + simpl. apply IH. exact Hs'.
Qed.

(** The pieces of the loop, put together again, are the subject. *)
Lemma pieces_source re :
  forall s prev skip after,
    flat_map piece_source (pieces re prev skip after s) = bytes (skipn skip s).
Proof.
  induction s as [|t s IH]; intros prev skip after.
  - destruct skip as [|k]; cbn [pieces]; [|reflexivity].
    destruct (match_here re prev []) as [[rest cs]|]; [|reflexivity].
    destruct (length [] - length rest)%nat; [destruct after|]; reflexivity.
  - destruct skip as [|k]; cbn [pieces skipn]; [|apply IH].
    destruct (match_here re prev (t :: s)) as [[rest cs]|].
    + destruct (length (t :: s) - length rest)%nat as [|n].
      * rewrite flat_map_app. cbn [flat_map piece_source]. rewrite IH.
        destruct after; reflexivity.
      * cbn [flat_map piece_source matched firstn]. rewrite IH.
        change (bytes (t :: firstn n s)) with (raw t ++ bytes (firstn n s))%list.
        rewrite <- app_assoc, <- bytes_app, firstn_skipn. reflexivity.
    + cbn [flat_map piece_source]. rewrite IH. reflexivity.
Qed.

(** Length of the rewritten text against the length of the subject, one
    piece after the other. *)
Lemma pieces_shrink repl (ps : list piece) :
  Forall (fun h => length (expand repl h) < length (bytes (matched h))) (hits ps) ->
  length (flat_map (piece_output repl) ps) <= length (flat_map piece_source ps)
  /\ (hits ps <> [] ->
      length (flat_map (piece_output repl) ps) < length (flat_map piece_source ps)).
Proof.
  induction ps as [|p ps IH]; intros Hall.
  - simpl. split; [lia | congruence].
  - destruct p as [t|h]; cbn [flat_map piece_output piece_source];
      rewrite !length_app.
    + simpl in Hall. destruct (IH Hall) as (Hle & Hlt). split; [lia|].
      intros Hne. simpl in Hne. specialize (Hlt Hne). lia.
    + simpl in Hall. inversion Hall as [|? ? Hh Hrest]; subst.
      destruct (IH Hrest) as (Hle & _). split; [lia|]. intros _. lia.
Qed.

Lemma length_of_text (l : list ascii) :
  String.length (string_of_list_ascii l) = length l.
Proof. induction l as [|a l IH]; simpl; [reflexivity | rewrite IH; reflexivity]. Qed.

Lemma length_of_bytes (s : string) :
  length (list_ascii_of_string s) = String.length s.
Proof. induction s as [|a s IH]; simpl; [reflexivity | rewrite IH; reflexivity]. Qed.

(** A rule that shrinks every match never makes the text longer, and
    makes it shorter when it finds a match. *)
Lemma replace_shrinks re repl (src : string) :
  shrinks re repl ->
  String.length (ReplaceAllString re src repl) <= String.length src
  /\ (FindAllString re src <> [] ->
      String.length (ReplaceAllString re src repl) < String.length src).
Proof.
  intros Hsh.
  assert (Hall : Forall (fun h => length (expand repl h) < length (bytes (matched h)))
                        (hits (split_matches re src))).
  { eapply List.Forall_impl; [|apply pieces_hits, runes_from_span]. exact Hsh. }
  apply pieces_shrink in Hall. destruct Hall as (Hle & Hlt).
  assert (Hsrc : length (flat_map piece_source (split_matches re src))
                 = String.length src).
  { unfold split_matches. rewrite pieces_source. rewrite skipn_O. unfold runes.
    rewrite bytes_runes_from. simpl. apply length_of_bytes. }
  assert (Hout : String.length (ReplaceAllString re src repl)
                 = length (flat_map (piece_output repl) (split_matches re src))).
  { unfold ReplaceAllString. rewrite length_of_text. reflexivity. }
  rewrite Hout, <- Hsrc. split; [exact Hle|].
  intros Hne. apply Hlt. intros Hnil. apply Hne.
  unfold FindAllString. rewrite Hnil. reflexivity.
Qed.

(** The runes of a match are the runes its run consumed. *)
Lemma match_of_consumed re h :
  match_of re h ->
  spans_bytes (matched h) /\ minlen re <= length (matched h).
Proof.
  intros (s & rest & Hstep & Hsp & Hs).
  apply step_consumes in Hstep. destruct Hstep as (pre & Hpre & Hmin).
  assert (matched h = pre) as -> by (apply (app_inv_tail rest); congruence).
  split; [|exact Hmin]. subst s. apply Forall_app in Hsp. apply Hsp.
Qed.

(** Deleting a match that cannot be empty. *)
Lemma shrinks_delete re : 1 <= minlen re -> shrinks re delete_match.
Proof.
  intros Hmin h Hm. apply match_of_consumed in Hm. destruct Hm as (Hsp & Hlen).
  apply span_length in Hsp. simpl. lia.
Qed.

Lemma firstn_consumed (p s1 : list tok) :
  firstn (length (p ++ s1) - length s1) (p ++ s1)%list = p.
Proof.
  rewrite length_app, Nat.add_sub, firstn_app, Nat.sub_diag, firstn_all.
  simpl. apply app_nil_r.
Qed.

(** $1 followed by a literal, when what follows group 1 in the pattern
    is longer than the literal. *)
Lemma shrinks_keep_attr g R lit :
  groupfree R = true -> String.length lit < minlen R ->
  shrinks (Cat (Group 1 g) R) [Ref 1; Lit lit].
Proof.
  intros Hfree Hlit h (s & rest & Hstep & Hsp & Hs).
  cbn [step] in Hstep. destruct Hstep as (s1 & cs1 & (csg & Hg & Hcs1) & HR).
  pose proof (step_groupfree R Hfree _ _ _ _ HR) as Hsubs.
  apply step_consumes in Hg. destruct Hg as (p1 & Hp1 & _).
  apply step_consumes in HR. destruct HR as (p2 & Hp2 & Hmin).
  subst s1. rewrite Hp1 in Hcs1 at 1 2. rewrite firstn_consumed in Hcs1.
  assert (Hm : matched h = (p1 ++ p2)%list).
  { apply (app_inv_tail rest). rewrite <- Hs, Hp1, app_assoc. reflexivity. }
  assert (Hsp2 : spans_bytes p2).
  { rewrite Hp1 in Hsp. apply Forall_app in Hsp. destruct Hsp as (_ & Hsp).
    apply Forall_app in Hsp. apply Hsp. }
  apply span_length in Hsp2.
  unfold expand. cbn [flat_map]. rewrite Hsubs, Hcs1, Hm. cbn [lookup_sub Nat.eqb].
  rewrite bytes_app, app_nil_r, !length_app, length_of_bytes. lia.
Qed.

(** ${1}, a literal and ${2}, when what stands between the two groups
    in the pattern is longer than the literal. *)
Lemma shrinks_keep_url g1 A B g2 lit :
  groupfree A = true -> groupfree B = true -> groupfree g2 = true ->
  String.length lit < minlen A + minlen B ->
  shrinks (Cat (Group 1 g1) (Cat A (Cat B (Cat (Group 2 g2) Eps))))
          [Ref 1; Lit lit; Ref 2].
Proof.
  intros HA HB H2 Hlit h (s & rest & Hstep & Hsp & Hs).
  cbn [step] in Hstep.
  destruct Hstep as (s1 & cs1 & (csg & Hg1 & Hcs1) & s2 & cs2 & HsA & s3 & cs3 & HsB
                     & s4 & cs4 & (csg2 & Hg2 & Hcs4) & -> & Hsubs).
  pose proof (step_groupfree A HA _ _ _ _ HsA) as E2.
  pose proof (step_groupfree B HB _ _ _ _ HsB) as E3.
  pose proof (step_groupfree g2 H2 _ _ _ _ Hg2) as E4.
  apply step_consumes in Hg1. destruct Hg1 as (p1 & Hp1 & _).
  apply step_consumes in HsA. destruct HsA as (pA & HpA & HminA).
  apply step_consumes in HsB. destruct HsB as (pB & HpB & HminB).
  apply step_consumes in Hg2. destruct Hg2 as (p2 & Hp2 & _).
  rewrite Hp1 in Hcs1 at 1 2. rewrite firstn_consumed in Hcs1.
  rewrite Hp2 in Hcs4 at 1 2. rewrite firstn_consumed in Hcs4.
  assert (Hm : matched h = (p1 ++ (pA ++ pB) ++ p2)%list).
  { apply (app_inv_tail s4). rewrite <- Hs, Hp1, HpA, HpB, Hp2.
    rewrite <- !app_assoc. reflexivity. }
  assert (Hmid : spans_bytes (pA ++ pB)%list).
  { rewrite Hp1, HpA, HpB in Hsp. apply Forall_app in Hsp. destruct Hsp as (_ & Hsp).
    apply Forall_app in Hsp. destruct Hsp as (HspA & Hsp).
    apply Forall_app in Hsp. destruct Hsp as (HspB & _).
    apply Forall_app. split; assumption. }
  apply span_length in Hmid. rewrite length_app in Hmid.
  unfold expand. cbn [flat_map].
  rewrite Hsubs, Hcs4, E4, E3, E2, Hcs1, Hm. cbn [lookup_sub Nat.eqb].
  rewrite !bytes_app, app_nil_r, !length_app, length_of_bytes.
  rewrite !bytes_app, !length_app in *. lia.
Qed.

Ltac shrink_rule :=
  first
    [ apply shrinks_delete; vm_compute; lia
    | apply shrinks_keep_attr; [reflexivity | vm_compute; lia]
    | apply shrinks_keep_url; [reflexivity | reflexivity | reflexivity | vm_compute; lia] ].

(** Every rule of the four removal catalogs shrinks what it matches. *)
Lemma removal_rules_shrink :
  Forall (fun p => shrinks (spattern p) (replacement p))
         (scriptRemovalPatterns ++ eventHandlerRemovalPatterns
          ++ externalRefRemovalPatterns ++ xmlEntityRemovalPatterns).
Proof.
  repeat (apply List.Forall_cons; [cbn [spattern replacement]; shrink_rule|]).
  apply List.Forall_nil.
Qed.

End MatchFacts.

(* ================================================================== *)
(** ** The sanitizer only ever shortens the text                       *)
(* ================================================================== *)

Module ShrinkFacts.
Import Utf8 Regexp Syntax Security Notions MoreNotions RegexpFacts SanitizeFacts
       MatchFacts.

Lemma selected_rules_shrink (o : SanitizeOptions) :
  Forall (fun p => shrinks (spattern p) (replacement p)) (selected_patterns o).
Proof.
  pose proof removal_rules_shrink as H.
  apply Forall_app in H. destruct H as (Hs & H).
  apply Forall_app in H. destruct H as (He & H).
  apply Forall_app in H. destruct H as (Hx & Hm).
  unfold selected_patterns.
  destruct (RemoveAll o), (RemoveScripts o), (RemoveEventHandlers o),
    (RemoveExternalRefs o); cbn [orb]; rewrite ?app_nil_l;
    repeat (apply Forall_app; split); solve [assumption | constructor].
Qed.

(** A run of shrinking rules: the text gets no longer, the log no
    shorter; the log grows exactly when the text gets shorter, and
    otherwise the text is untouched. *)
Lemma rules_shrink ps :
  Forall (fun p => shrinks (spattern p) (replacement p)) ps ->
  forall s ts,
    let r := fold_left apply_pattern ps (s, ts) in
    String.length (fst r) <= String.length s
    /\ length ts <= length (snd r)
    /\ (length (snd r) = length ts -> fst r = s)
    /\ (length ts < length (snd r) -> String.length (fst r) < String.length s).
Proof.
  induction 1 as [|p ps Hp _ IH]; intros s ts; cbn [fold_left].
  - simpl. split; [lia|]. split; [lia|]. split; [reflexivity | lia].
  - rewrite apply_pattern_eq.
    destruct (replace_shrinks (spattern p) (replacement p) s Hp) as (Hle & Hlt).
    pose proof (replace_without_match (spattern p) s (replacement p)) as Hsame.
    specialize (IH (ReplaceAllString (spattern p) s (replacement p))
                   (ts ++ map (removed_threat p) (FindAllString (spattern p) s))%list).
    cbv zeta in IH. destruct IH as (I1 & I2 & I3 & I4).
    rewrite length_app, length_map in I2, I3, I4.
    destruct (FindAllString (spattern p) s) as [|m ms] eqn:Ef.
    + rewrite Hsame in * by reflexivity. cbn [length] in I2, I3, I4.
      rewrite Nat.add_0_r in I2, I3, I4. cbv zeta.
      split; [exact I1|]. split; [exact I2|]. split; [exact I3 | exact I4].
    + assert (Hlt' : String.length (ReplaceAllString (spattern p) s (replacement p))
                     < String.length s) by (apply Hlt; discriminate).
      cbn [length] in I2, I3, I4. cbv zeta.
      split; [lia|]. split; [lia|]. split; intros; lia.
Qed.

(** One pass of the sanitizer, in terms of its two results. *)
Lemma sanitize_shrinks (c : string) (o : SanitizeOptions) :
  String.length (fst (SanitizeContent c o)) <= String.length c
  /\ (snd (SanitizeContent c o) = [] -> fst (SanitizeContent c o) = c)
  /\ (snd (SanitizeContent c o) <> [] ->
      String.length (fst (SanitizeContent c o)) < String.length c).
Proof.
  destruct (rules_shrink _ (selected_rules_shrink o) c []) as (H1 & _ & H3 & H4).
  fold (SanitizeContent c o) in H1, H3, H4. split; [exact H1|]. split.
  - intros E. apply H3. rewrite E. reflexivity.
  - intros E. apply H4. destruct (snd (SanitizeContent c o)); [congruence | simpl; lia].
Qed.

(** SanitizeContent never makes the text longer.  It reports a
    removal exactly when the text it returns is strictly shorter than
    the text it was given, and it reports none exactly when it returns
    the text unchanged. *)
Theorem sanitizer_only_shortens (c : string) (o : SanitizeOptions) :
  let out := fst (SanitizeContent c o) in
  let removed := snd (SanitizeContent c o) in
  String.length out <= String.length c
  /\ (removed <> [] <-> String.length out < String.length c)
  /\ (removed = [] <-> out = c).
Proof.
  cbv zeta. destruct (sanitize_shrinks c o) as (Hle & Hsame & Hlt).
  split; [exact Hle|]. split; split.
  - exact Hlt.
  - intros H E. rewrite (Hsame E) in H. lia.
  - exact Hsame.
  - intros E. destruct (snd (SanitizeContent c o)) as [|t ts] eqn:Er; [reflexivity|].
    assert (String.length (fst (SanitizeContent c o)) < String.length c)
      by (apply Hlt; discriminate).
    rewrite E in *. lia.
Qed.

Section SanitizeAFile.

Variable FS : Type.
Variable ReadFile : FS -> string -> res string.
Variable WriteFile : FS -> string -> string -> FS * option string.

Let Sanitize := SanitizeFile.Sanitize FS ReadFile WriteFile.

(** Sanitize on a file.  When the input cannot be read, nothing is
    written and the result carries no removal, Sanitized false and the
    wrapped read error.  Otherwise the file system is the one left by
    one write of the sanitized text to the output path, whether or not
    anything was removed; the result lists the removals of
    SanitizeContent; Sanitized is true exactly when the written text is
    shorter than the text read and false exactly when it is the same
    text; and a failed write is reported, wrapped, in the result and as
    the returned error, with the removals still in the result. *)
Theorem sanitize_file_outcome (fs : FS) (inputPath outputPath : string)
  (o : SanitizeOptions) :
  let '(fs', (r, err)) := Sanitize fs inputPath outputPath o in
  SanitizeFile.InputPath r = inputPath
  /\ SanitizeFile.OutputPath r = outputPath
  /\ SanitizeFile.Error r = err
  /\ match ReadFile fs inputPath with
     | Err e =>
       fs' = fs
       /\ SanitizeFile.ThreatsRemoved r = []
       /\ SanitizeFile.Sanitized r = false
       /\ err = Some ("failed to read input file: " ++ e)
     | Ok content =>
       let written := fst (SanitizeContent content o) in
       fs' = fst (WriteFile fs outputPath written)
       /\ SanitizeFile.ThreatsRemoved r = snd (SanitizeContent content o)
       /\ (SanitizeFile.Sanitized r = true
           <-> String.length written < String.length content)
       /\ (SanitizeFile.Sanitized r = false <-> written = content)
       /\ err = option_map (String.append "failed to write output file: ")
                           (snd (WriteFile fs outputPath written))
     end.
Proof.
  unfold Sanitize, SanitizeFile.Sanitize.
  destruct (ReadFile fs inputPath) as [content|e].
  - destruct (sanitize_shrinks content o) as (Hle & Hsame & Hlt).
    destruct (SanitizeContent content o) as [sanitized threats]. cbn [fst snd] in *.
    assert (Hflag : ((0 <? length threats)%nat = true
                     <-> String.length sanitized < String.length content)
                    /\ ((0 <? length threats)%nat = false <-> sanitized = content)).
    { destruct threats as [|t ts]; cbn [length Nat.ltb Nat.leb].
      - rewrite Hsame by reflexivity.
        split; split; intros H; try reflexivity; try discriminate; lia.
      - assert (Hs : String.length sanitized < String.length content)
          by (apply Hlt; discriminate).
        split; split; intros H; try reflexivity; try discriminate; try exact Hs.
        rewrite H in Hs. lia. }
    destruct Hflag as (Ht & Hf).
    destruct (WriteFile fs outputPath sanitized) as [fs' [e|]];
      cbn [SanitizeFile.InputPath SanitizeFile.OutputPath SanitizeFile.Error
           SanitizeFile.ThreatsRemoved SanitizeFile.Sanitized fst snd option_map];
      (split; [reflexivity|]); (split; [reflexivity|]); (split; [reflexivity|]);
      (split; [reflexivity|]); (split; [reflexivity|]); (split; [exact Ht|]);
      (split; [exact Hf | reflexivity]).
  - cbn [SanitizeFile.InputPath SanitizeFile.OutputPath SanitizeFile.Error
         SanitizeFile.ThreatsRemoved SanitizeFile.Sanitized].
    repeat (split; [reflexivity|]). reflexivity.
Qed.

End SanitizeAFile.

End ShrinkFacts.

(* ================================================================== *)
(** ** The case of ASCII letters                                       *)
(* ================================================================== *)

Module CaseFacts.
Import Utf8 Regexp Syntax Security Notions MoreNotions ScanFacts RegexpFacts SanitizeFacts.

Lemma upper_range (r : N) : is_upper r = true -> (65 <= r <= 90)%N.
Proof.
  unfold is_upper, between. intros H. apply andb_prop in H. destruct H as (H1 & H2).
  apply N.leb_le in H1. apply N.leb_le in H2. lia.
Qed.

Lemma capital_listed (r : N) : is_upper r = true -> In r capitals.
Proof.
  intros H. apply upper_range in H. unfold capitals.
  rewrite <- (N2Nat.id r). apply in_map, in_seq. lia.
Qed.

(** Checking the twenty-six capitals is enough. *)
Lemma blindb_sound (c : class) : blindb c = true -> blind c.
Proof.
  unfold blindb, blind, lower_rune. intros H r.
  destruct (is_upper r) eqn:Eu; [|reflexivity].
  rewrite forallb_forall in H. specialize (H r (capital_listed r Eu)).
  apply Bool.eqb_prop in H. exact H.
Qed.

Lemma case_blindb_sound (re : regex) : case_blindb re = true -> case_blind re.
Proof.
  induction re; cbn [case_blindb case_blind]; intros H;
    try exact I; try (apply blindb_sound; exact H); auto.
  - apply andb_prop in H. destruct H. split; auto.
  - apply andb_prop in H. destruct H. split; auto.
Qed.

Lemma word_char_blind : blind IsWordChar.
Proof. apply blindb_sound. vm_compute. reflexivity. Qed.

Lemma lower_rune_idem (r : N) : lower_rune (lower_rune r) = lower_rune r.
Proof.
  unfold lower_rune. destruct (is_upper r) eqn:Eu; [|rewrite Eu; reflexivity].
  apply upper_range in Eu. unfold is_upper, between.
  destruct (N.leb_spec 65 (r + 32)); destruct (N.leb_spec (r + 32) 90); simpl;
    try reflexivity; lia.
Qed.

Lemma code_lower_byte (a : ascii) :
  N_of_ascii (lower_byte a) = lower_rune (N_of_ascii a).
Proof.
  unfold lower_byte, lower_rune. destruct (is_upper (N_of_ascii a)) eqn:Eu; [|reflexivity].
  apply upper_range in Eu. apply N_ascii_embedding. lia.
Qed.

Lemma not_upper_fixed (a : ascii) : is_upper (N_of_ascii a) = false -> lower_byte a = a.
Proof. unfold lower_byte. intros ->. reflexivity. Qed.

Lemma tok_class (c : class) t t' : blind c -> lower_tok t t' -> c (rune t') = c (rune t).
Proof. intros Hc (Hr & _). rewrite <- (Hc (rune t')), Hr. apply Hc. Qed.

Lemma first_low s0 sz lo hi : first s0 = Some (sz, lo, hi) -> (0x80 <= lo)%N.
Proof.
  unfold first.
  repeat match goal with |- context [if ?b then _ else _] => destruct b end;
    intros H; inversion H; subst; lia.
Qed.

Lemma outside_lower lo hi (b : ascii) :
  (0x80 <= lo)%N ->
  outside lo hi (N_of_ascii (lower_byte b)) = outside lo hi (N_of_ascii b)
  /\ (outside lo hi (N_of_ascii b) = false -> lower_byte b = b).
Proof.
  intros Hlo. destruct (is_upper (N_of_ascii b)) eqn:Eu.
  - rewrite code_lower_byte. unfold lower_rune. rewrite Eu.
    apply upper_range in Eu. unfold outside.
    assert (H1 : (N_of_ascii b + 32 <? lo)%N = true) by (apply N.ltb_lt; lia).
    assert (H2 : (N_of_ascii b <? lo)%N = true) by (apply N.ltb_lt; lia).
    rewrite H1, H2. simpl. split; [reflexivity | discriminate].
  - rewrite (not_upper_fixed b Eu). auto.
Qed.

Lemma lower_rune_small (r : N) : (r <? RuneSelf)%N = true -> (lower_rune r <? RuneSelf)%N = true.
Proof.
  unfold RuneSelf, lower_rune. intros H. apply N.ltb_lt in H. apply N.ltb_lt.
  destruct (is_upper r) eqn:Eu; [apply upper_range in Eu|]; lia.
Qed.

Lemma big_not_upper (r : N) : (r <? RuneSelf)%N = false -> is_upper r = false.
Proof.
  unfold RuneSelf. intros H. apply N.ltb_ge in H.
  destruct (is_upper r) eqn:Eu; [apply upper_range in Eu; lia | reflexivity].
Qed.

(** Decoding the lowered bytes gives a rune of the same width that
    lowers to the same rune. *)
Lemma decode_lower (s : list ascii) :
  snd (DecodeRuneInString (map lower_byte s)) = snd (DecodeRuneInString s)
  /\ lower_rune (fst (DecodeRuneInString (map lower_byte s)))
     = lower_rune (fst (DecodeRuneInString s)).
Proof.
  destruct s as [|b0 t]; [split; reflexivity|].
  cbn [map]. unfold DecodeRuneInString. rewrite code_lower_byte.
  destruct (N_of_ascii b0 <? RuneSelf)%N eqn:E0.
  - rewrite (lower_rune_small _ E0). split; [reflexivity | apply lower_rune_idem].
  - pose proof (big_not_upper _ E0) as Eu.
    assert (Hl : lower_rune (N_of_ascii b0) = N_of_ascii b0)
      by (unfold lower_rune; rewrite Eu; reflexivity).
    rewrite !Hl, E0.
    destruct (first (N_of_ascii b0)) as [[[sz lo] hi]|] eqn:Ef; [|split; reflexivity].
    apply first_low in Ef.
    cbn [length]. rewrite length_map.
    destruct (S (length t) <? sz)%nat; [split; reflexivity|].
    destruct t as [|b1 t1]; [split; reflexivity|]. cbn [map].
    destruct (outside_lower lo hi b1 Ef) as (-> & Hb1).
    destruct (outside lo hi (N_of_ascii b1)); [split; reflexivity|].
    rewrite Hb1 by reflexivity.
    destruct (sz <=? 2)%nat; [split; reflexivity|].
    destruct t1 as [|b2 t2]; [split; reflexivity|]. cbn [map].
    destruct (outside_lower 0x80 0xBF b2) as (-> & Hb2); [lia|].
    destruct (outside 0x80 0xBF (N_of_ascii b2)); [split; reflexivity|].
    rewrite Hb2 by reflexivity.
    destruct (sz <=? 3)%nat; [split; reflexivity|].
    destruct t2 as [|b3 t3]; [split; reflexivity|]. cbn [map].
    destruct (outside_lower 0x80 0xBF b3) as (-> & Hb3); [lia|].
    destruct (outside 0x80 0xBF (N_of_ascii b3)); [split; reflexivity|].
    rewrite Hb3 by reflexivity. split; reflexivity.
Qed.

(** The runes of the lowered bytes are the lowered runes of the bytes. *)
Lemma runes_lower (s : list ascii) (k : nat) :
  lower_toks (runes_from k s) (runes_from k (map lower_byte s)).
Proof.
  revert k. induction s as [|b rest IH]; intros k.
  - destruct k; constructor.
  - destruct k as [|k]; cbn [runes_from map]; [|apply IH].
    destruct (decode_lower (b :: rest)) as (Hw & Hr). cbn [map] in Hw, Hr.
    destruct (DecodeRuneInString (b :: rest)) as [r w].
    destruct (DecodeRuneInString (lower_byte b :: map lower_byte rest)) as [r' w'].
    cbn [fst snd] in Hw, Hr. subst w'.
    constructor; [|apply IH].
    split; [exact Hr|]. cbn [raw]. change (lower_byte b :: map lower_byte rest)
      with (map lower_byte (b :: rest)). apply firstn_map.
Qed.

Lemma bytes_of_lowered (c : string) :
  list_ascii_of_string (ToLower c) = map lower_byte (list_ascii_of_string c).
Proof. induction c as [|a c IH]; simpl; [reflexivity | rewrite IH; reflexivity]. Qed.

Lemma text_of_lowered (l : list ascii) :
  string_of_list_ascii (map lower_byte l) = ToLower (string_of_list_ascii l).
Proof. induction l as [|a l IH]; simpl; [reflexivity | rewrite IH; reflexivity]. Qed.

Lemma runes_of_lowered (c : string) : lower_toks (runes c) (runes (ToLower c)).
Proof. unfold runes. rewrite bytes_of_lowered. apply runes_lower. Qed.

Lemma lower_toks_length s s' : lower_toks s s' -> length s' = length s.
Proof. intros H. symmetry. apply (Forall2_length _ _ _ H). Qed.

Lemma lower_orelse a a' b b' :
  lower_outcome a a' -> lower_outcome b b' -> lower_outcome (orelse a b) (orelse a' b').
Proof.
  destruct a as [[? ?]|], a' as [[? ?]|]; simpl; intros Ha Hb;
    try contradiction; assumption.
Qed.

Lemma star_greedy_lower c k k' :
  blind c -> lower_cont k k' -> lower_cont (star_greedy c k) (star_greedy c k').
Proof.
  intros Hc Hk p s s' cs cs' Hs Hcs. revert p.
  induction Hs as [|t t' s s' Ht Hs IH]; intros p; cbn [star_greedy].
  - apply Hk; [constructor | exact Hcs].
  - rewrite (tok_class c t t' Hc Ht), (tok_class _ t t' word_char_blind Ht).
    destruct (c (rune t)).
    + apply lower_orelse; [apply IH|]. apply Hk; [constructor; assumption | exact Hcs].
    + apply Hk; [constructor; assumption | exact Hcs].
Qed.

Lemma star_lazy_lower c k k' :
  blind c -> lower_cont k k' -> lower_cont (star_lazy c k) (star_lazy c k').
Proof.
  intros Hc Hk p s s' cs cs' Hs Hcs. revert p.
  induction Hs as [|t t' s s' Ht Hs IH]; intros p; cbn [star_lazy].
  - apply Hk; [constructor | exact Hcs].
  - rewrite (tok_class c t t' Hc Ht), (tok_class _ t t' word_char_blind Ht).
    destruct (c (rune t)).
    + apply lower_orelse; [|apply IH]. apply Hk; [constructor; assumption | exact Hcs].
    + apply Hk; [constructor; assumption | exact Hcs].
Qed.

Lemma lower_toks_firstn n s s' :
  lower_toks s s' -> lower_toks (firstn n s) (firstn n s').
Proof.
  intros H. revert n. induction H as [|t t' s s' Ht Hs IH]; intros [|n]; simpl;
    constructor; [exact Ht | apply IH].
Qed.

(** A pattern without a case-sensitive class runs on the lowered text
    the way it runs on the text. *)
Lemma run_lower re :
  case_blind re -> forall k k', lower_cont k k' -> lower_cont (run re k) (run re k').
Proof.
  induction re as [|c|a IHa b IHb|a IHa b IHb|c|c|n g IHg|];
    cbn [case_blind]; intros Hb k k' Hk; cbn [run].
  - exact Hk.
  - intros p s s' cs cs' Hs Hcs. destruct Hs as [|t t' s s' Ht Hs]; [exact I|].
    rewrite (tok_class c t t' Hb Ht), (tok_class _ t t' word_char_blind Ht).
    destruct (c (rune t)); [apply Hk; assumption | exact I].
  - destruct Hb as (Ha & Hb'). apply IHa; [exact Ha|]. apply IHb; assumption.
  - destruct Hb as (Ha & Hb'). intros p s s' cs cs' Hs Hcs.
    apply lower_orelse; [apply IHa | apply IHb]; assumption.
  - apply star_greedy_lower; assumption.
  - apply star_lazy_lower; assumption.
  - intros p s s' cs cs' Hs Hcs. apply IHg; [exact Hb | | exact Hs | exact Hcs].
    intros p1 s1 s1' cs1 cs1' Hs1 Hcs1. apply Hk; [exact Hs1|].
    constructor; [|exact Hcs1]. cbn [fst snd]. split; [reflexivity|].
    rewrite (lower_toks_length _ _ Hs), (lower_toks_length _ _ Hs1).
    apply lower_toks_firstn, Hs.
  - intros p s s' cs cs' Hs Hcs.
    assert (Hn : next_is_word s' = next_is_word s).
    { destruct Hs as [|t t' s s' Ht Hs]; [reflexivity|].
      apply (tok_class _ t t' word_char_blind Ht). }
    rewrite Hn. destruct (xorb p (next_is_word s)); [apply Hk; assumption | exact I].
Qed.

Lemma match_here_lower re prev s s' :
  case_blind re -> lower_toks s s' ->
  lower_outcome (match_here re prev s) (match_here re prev s').
Proof.
  intros Hb Hs. unfold match_here. apply (run_lower re Hb accept accept).
  - intros p t t' cs cs' Ht Hcs. split; assumption.
  - exact Hs.
  - constructor.
Qed.

(** The loop delivers the same pieces, lowered. *)
Lemma pieces_lower re :
  case_blind re ->
  forall s s', lower_toks s s' ->
  forall prev skip after,
    Forall2 lower_piece (pieces re prev skip after s) (pieces re prev skip after s').
Proof.
  intros Hb s s' Hs. induction Hs as [|t t' s s' Ht Hs IH]; intros prev skip after.
  - destruct skip as [|k]; cbn [pieces]; [|constructor].
    pose proof (match_here_lower re prev [] [] Hb (List.Forall2_nil _)) as Hm.
    destruct (match_here re prev []) as [[rest cs]|]; simpl in Hm.
    + destruct Hm as (Hr & Hcs).
      destruct (length [] - length rest)%nat.
      * destruct after; repeat constructor; assumption.
      * repeat constructor; assumption.
    + constructor.
  - pose proof (tok_class _ t t' word_char_blind Ht) as Hw.
    destruct skip as [|k]; cbn [pieces]; [|rewrite Hw; apply IH].
    pose proof (match_here_lower re prev (t :: s) (t' :: s') Hb
                  (List.Forall2_cons _ _ Ht Hs)) as Hm.
    destruct (match_here re prev (t :: s)) as [[rest cs]|],
             (match_here re prev (t' :: s')) as [[rest' cs']|]; simpl in Hm;
      try contradiction.
    + destruct Hm as (Hr & Hcs).
      rewrite (lower_toks_length _ _ Hr). cbn [length].
      rewrite (lower_toks_length _ _ Hs), Hw.
      destruct (S (length s) - length rest)%nat as [|n].
      * apply Forall2_app.
        -- destruct after; repeat constructor; assumption.
        -- constructor; [exact Ht | apply IH].
      * constructor; [|apply IH]. split; [|exact Hcs]. cbn [matched].
        apply (lower_toks_firstn (S n) (t :: s) (t' :: s')). constructor; assumption.
    + rewrite Hw. constructor; [exact Ht | apply IH].
Qed.

Lemma bytes_lower s s' : lower_toks s s' -> bytes s' = map lower_byte (bytes s).
Proof.
  unfold bytes. induction 1 as [|t t' s s' (_ & Hraw) _ IH]; simpl; [reflexivity|].
  rewrite Hraw, IH, map_app. reflexivity.
Qed.

Lemma text_lower s s' : lower_toks s s' -> text s' = ToLower (text s).
Proof. intros H. unfold text. rewrite (bytes_lower _ _ H). apply text_of_lowered. Qed.

Lemma hits_lower ps ps' :
  Forall2 lower_piece ps ps' ->
  Forall2 (fun h h' => lower_toks (matched h) (matched h')) (hits ps) (hits ps').
Proof.
  induction 1 as [|p p' ps ps' Hp _ IH]; [constructor|].
  destruct p as [t|h], p' as [t'|h']; simpl in Hp; try contradiction; simpl.
  - exact IH.
  - constructor; [apply Hp | exact IH].
Qed.

Lemma split_lower re c :
  case_blind re ->
  Forall2 lower_piece (split_matches re c) (split_matches re (ToLower c)).
Proof. intros Hb. apply pieces_lower; [exact Hb | apply runes_of_lowered]. Qed.

(** The matches in the lowered text are the lowered matches of the text. *)
Lemma find_lower re c :
  case_blind re -> FindAllString re (ToLower c) = map ToLower (FindAllString re c).
Proof.
  intros Hb. unfold FindAllString.
  pose proof (hits_lower _ _ (split_lower re c Hb)) as H.
  induction H as [|h h' hs hs' Hh _ IH]; simpl; [reflexivity|].
  rewrite (text_lower _ _ Hh), IH. reflexivity.
Qed.

Lemma lookup_lower n cs cs' :
  lower_caps cs cs' -> lower_toks (lookup_sub n cs) (lookup_sub n cs').
Proof.
  induction 1 as [|[m ts] [m' ts'] cs cs' (Hm & Hts) _ IH]; simpl; [constructor|].
  simpl in Hm, Hts. subst m'. destruct (Nat.eqb m n); assumption.
Qed.

Lemma expand_lower repl h h' :
  small_template repl ->
  lower_toks (matched h) (matched h') -> lower_caps (subs h) (subs h') ->
  expand repl h' = map lower_byte (expand repl h).
Proof.
  intros Hsmall Hm Hs. unfold expand.
  induction Hsmall as [|it repl Hit _ IH]; [reflexivity|].
  cbn [flat_map]. rewrite map_app, IH. f_equal.
  destruct it as [l|[|n]].
  - rewrite <- bytes_of_lowered, Hit. reflexivity.
  - apply bytes_lower, Hm.
  - apply bytes_lower, lookup_lower, Hs.
Qed.

(** Rewriting the lowered text gives the lowered rewritten text. *)
Lemma replace_lower re c repl :
  case_blind re -> small_template repl ->
  ReplaceAllString re (ToLower c) repl = ToLower (ReplaceAllString re c repl).
Proof.
  intros Hb Hsmall. unfold ReplaceAllString. rewrite <- text_of_lowered. f_equal.
  pose proof (split_lower re c Hb) as H.
  induction H as [|p p' ps ps' Hp _ IH]; [reflexivity|].
  cbn [flat_map]. rewrite map_app, IH. f_equal.
  destruct p as [t|h], p' as [t'|h']; simpl in Hp; try contradiction.
  - apply Hp.
  - destruct Hp as (Hm & Hs). apply expand_lower; assumption.
Qed.

Lemma lowered_length (s : string) : String.length (ToLower s) = String.length s.
Proof. induction s as [|a s IH]; simpl; [reflexivity | rewrite IH; reflexivity]. Qed.

Lemma lowered_substring (s : string) :
  forall n m, String.substring n m (ToLower s) = ToLower (String.substring n m s).
Proof.
  induction s as [|a s IH]; intros [|n] [|m]; simpl; try reflexivity.
  - rewrite IH. reflexivity.
  - apply IH.
  - apply IH.
Qed.

Lemma lowered_append (a b : string) : ToLower (a ++ b) = (ToLower a ++ ToLower b)%string.
Proof. induction a as [|x a IH]; simpl; [reflexivity | rewrite IH; reflexivity]. Qed.

(** Cutting a match for display and lowering it, in either order. *)
Lemma truncate_lower n m : truncate n (ToLower m) = ToLower (truncate n m).
Proof.
  unfold truncate, len, prefix. rewrite lowered_length.
  destruct (Z.of_nat (String.length m) >? n)%Z; [|reflexivity].
  rewrite lowered_append, lowered_substring. reflexivity.
Qed.

(** No pattern of the detection catalog has a case-sensitive class. *)
Lemma detection_is_case_blind level :
  Forall (fun p => case_blind (pattern p)) (patternsForLevel level).
Proof.
  apply List.Forall_forall. intros p Hp. apply case_blindb_sound. revert p Hp.
  apply List.Forall_forall. destruct level;
    repeat (apply List.Forall_cons; [vm_compute; reflexivity|]); apply List.Forall_nil.
Qed.

(** Nor has a removal rule, and no template holds a capital. *)
Lemma removal_is_case_blind o :
  Forall (fun p => case_blind (spattern p) /\ small_template (replacement p))
         (selected_patterns o).
Proof.
  assert (H : Forall (fun p => case_blind (spattern p) /\ small_template (replacement p))
                (scriptRemovalPatterns ++ eventHandlerRemovalPatterns
                 ++ externalRefRemovalPatterns ++ xmlEntityRemovalPatterns)).
  { repeat (apply List.Forall_cons;
            [split; [apply case_blindb_sound; vm_compute; reflexivity
                    | repeat constructor]|]).
    apply List.Forall_nil. }
  apply Forall_app in H. destruct H as (Hs & H).
  apply Forall_app in H. destruct H as (He & H).
  apply Forall_app in H. destruct H as (Hx & Hm).
  unfold selected_patterns.
  destruct (RemoveAll o), (RemoveScripts o), (RemoveEventHandlers o),
    (RemoveExternalRefs o); cbn [orb]; rewrite ?app_nil_l;
    repeat (apply Forall_app; split); solve [assumption | constructor].
Qed.

Lemma threat_of_lower p m : threat_of p (ToLower m) = lower_threat (threat_of p m).
Proof. unfold threat_of, lower_threat. simpl. rewrite truncate_lower. reflexivity. Qed.

Lemma scan_threats_lower c ps :
  Forall (fun p => case_blind (pattern p)) ps ->
  scan_threats (ToLower c) ps = map lower_threat (scan_threats c ps).
Proof.
  unfold scan_threats. induction 1 as [|p ps Hp _ IH]; [reflexivity|].
  cbn [flat_map]. rewrite map_app, IH, (find_lower _ _ Hp), !map_map. f_equal.
  apply map_ext. intros m. apply threat_of_lower.
Qed.

Lemma record_lower ts r :
  for_each record_threat (map lower_threat ts) (lower_result r)
  = option_map lower_result (for_each record_threat ts r).
Proof.
  revert r. induction ts as [|t ts IH]; intros r; [reflexivity|].
  cbn [map for_each]. unfold record_threat at 1 3. cbn [lower_result ThreatCounts].
  destruct (ThreatCounts r) as [g|]; [|reflexivity].
  rewrite <- IH. f_equal. unfold lower_result. cbn. rewrite map_app. reflexivity.
Qed.

(** The scanner does not look at the case of ASCII letters.  Let the
    ASCII capitals of a text be replaced by their small letters, byte
    by byte, every other byte staying as it is ([ToLower]).  Scanning
    that text, into a fresh Result or into a supplied one, gives what
    scanning the text itself gives, with the Match fields lowered the
    same way: the same threats by category and description in the same
    order, the same counters, the same secure flag, and a panic in the
    same cases. *)
Theorem scan_ignores_letter_case (content : string) (result : option Result)
  (level : ScanLevel) :
  ScanContentWithLevel (ToLower content) (option_map lower_result result) level
  = option_map lower_result (ScanContentWithLevel content result level)
  /\ observed (ScanContentWithLevel (ToLower content) None level)
     = observed (ScanContentWithLevel content None level).
Proof.
  assert (H : forall result,
             ScanContentWithLevel (ToLower content) (option_map lower_result result) level
             = option_map lower_result (ScanContentWithLevel content result level)).
  { intros res. unfold ScanContentWithLevel. rewrite !scan_loops_flatten.
    rewrite (scan_threats_lower _ _ (detection_is_case_blind level)).
    destruct res as [r0|]; cbn [option_map]; [apply record_lower|].
    apply (record_lower _ (fresh_result "")). }
  split; [apply H|].
  pose proof (H None) as H0. cbn [option_map] in H0. rewrite H0.
  destruct (ScanContentWithLevel content None level) as [r|]; [|reflexivity].
  cbn [option_map observed lower_result IsSecure Threats]. rewrite map_map. reflexivity.
Qed.

Lemma removed_threat_lower p m :
  removed_threat p (ToLower m) = lower_threat (removed_threat p m).
Proof. unfold removed_threat, lower_threat. simpl. rewrite truncate_lower. reflexivity. Qed.

Lemma rules_lower ps :
  Forall (fun p => case_blind (spattern p) /\ small_template (replacement p)) ps ->
  forall s ts,
    fold_left apply_pattern ps (ToLower s, map lower_threat ts)
    = (ToLower (fst (fold_left apply_pattern ps (s, ts))),
       map lower_threat (snd (fold_left apply_pattern ps (s, ts)))).
Proof.
  induction 1 as [|p ps (Hb & Hsmall) _ IH]; intros s ts; [reflexivity|].
  cbn [fold_left]. rewrite !apply_pattern_eq, <- IH. f_equal.
  rewrite (replace_lower _ _ _ Hb Hsmall), (find_lower _ _ Hb), map_app, !map_map.
  f_equal. f_equal. apply map_ext. intros m. apply removed_threat_lower.
Qed.

(** The sanitizer does not look at the case of ASCII letters either:
    on the text with its ASCII capitals lowered it removes the same
    things, and what it returns is the sanitized text lowered the same
    way, with the same log of removals, their Match fields lowered. *)
Theorem sanitizer_ignores_letter_case (c : string) (o : SanitizeOptions) :
  SanitizeContent (ToLower c) o
  = (ToLower (fst (SanitizeContent c o)),
     map lower_threat (snd (SanitizeContent c o))).
Proof. apply (rules_lower _ (removal_is_case_blind o) c []). Qed.

End CaseFacts.
